(** * Justack TypeScript SDK: correlation engine, connection manager and
      input/response contract

    A shallow embedding of [src/types/inputs.ts], [src/resources/session.ts]
    and [src/websocket/connection.ts], with the properties the specification
    states about them, and of what these call or are called by in
    [src/utils/transform.ts], [src/resources/sessions.ts] and
    [src/pagination.ts], with further properties read off the code.

    Conventions of the embedding.
    - A JS [Map] is an association list in insertion order ([JSMap]).
    - A promise is an index into a store of promise states; calling
      [resolve] or [reject] on a settled promise changes nothing, as in JS.
    - A timer handle is a natural number; the timers that are scheduled and
      have neither fired nor been cleared are kept in a list.
    - Every synchronous segment of the source (a method body up to its next
      [await], an event handler, a timer callback) is one function from a
      state to a new state and the list of effects it performed.
    - The delays of the reconnection timers are JS numbers, that is IEEE 754
      binary64 values, computed with the rounding operations of
      [SpecFloat]. *)

From Stdlib Require Import ZArith Lia Ascii String.
From Stdlib Require SpecFloat.
From stdpp Require Import base list sorting gmap strings pretty.

Set Warnings "-register-all,-clear-no-such-hyp".
Open Scope string_scope.
Open Scope list_scope.
Open Scope stdpp_scope.

(** ** JavaScript values that travel through the engine *)

(** A JS string is a sequence of UTF-16 code units. Source texts handled by
    the SDK are Rocq strings (code units below 256); decoded JSON strings may
    hold any code unit, because of unicode escapes. *)
Definition units (s : string) : list N :=
  map N_of_ascii (list_ascii_of_string s).

(** The values [JSON.parse] can produce. A number keeps its literal: the
    rounding to a double is not modelled. An object keeps its properties in
    insertion order. *)
Inductive JSON : Type :=
| JNull
| JBool (b : bool)
| JNumber (literal : string)
| JString (s : list N)
| JArray (items : list JSON)
| JObject (fields : list (list N * JSON)).

(** ** The builtin [JSON.parse]

    The builtin is not code of the repository; it is modelled after
    ECMA-404: a scanner that turns the text into tokens and a pushdown
    automaton over the tokens. Both are structural, so the model is total;
    [None] stands for the [SyntaxError] the builtin throws. *)
Module JSONBuiltin.

Inductive Token : Type :=
| TLBrace | TRBrace | TLBracket | TRBracket | TComma | TColon
| TString (s : list N)
| TWord (w : string).

Inductive LexState : Type :=
| LDefault
| LWord (acc : list ascii)
| LStr (acc : list N)
| LEsc (acc : list N)
| LUni (acc : list N) (seen : nat) (v : N).

Definition is_ws (c : ascii) : bool :=
  let n := N_of_ascii c in
  ((n =? 32) || (n =? 9) || (n =? 10) || (n =? 13))%N.

Definition is_digit (c : ascii) : bool :=
  let n := N_of_ascii c in ((48 <=? n) && (n <=? 57))%N.

Definition is_word_char (c : ascii) : bool :=
  let n := N_of_ascii c in
  (is_digit c
   || ((65 <=? n) && (n <=? 90)) || ((97 <=? n) && (n <=? 122))
   || (n =? 43) || (n =? 45) || (n =? 46))%N.

Definition hex_value (c : ascii) : option N :=
  let n := N_of_ascii c in
  if ((48 <=? n) && (n <=? 57))%N then Some (n - 48)%N
  else if ((65 <=? n) && (n <=? 70))%N then Some (n - 55)%N
  else if ((97 <=? n) && (n <=? 102))%N then Some (n - 87)%N
  else None.

(** What a character read outside a string and outside a word starts. *)
Definition lex_default (c : ascii) (toks : list Token)
  : option (LexState * list Token) :=
  let n := N_of_ascii c in
  if is_ws c then Some (LDefault, toks)
  else if (n =? 123)%N then Some (LDefault, TLBrace :: toks)
  else if (n =? 125)%N then Some (LDefault, TRBrace :: toks)
  else if (n =? 91)%N then Some (LDefault, TLBracket :: toks)
  else if (n =? 93)%N then Some (LDefault, TRBracket :: toks)
  else if (n =? 44)%N then Some (LDefault, TComma :: toks)
  else if (n =? 58)%N then Some (LDefault, TColon :: toks)
  else if (n =? 34)%N then Some (LStr [], toks)
  else if is_word_char c then Some (LWord [c], toks)
  else None.

(** The one-character escapes: quotation mark, reverse solidus, solidus,
    b, f, n, r and t. *)
Definition escape_unit (c : ascii) : option N :=
  let n := N_of_ascii c in
  if (n =? 34)%N then Some 34%N
  else if (n =? 92)%N then Some 92%N
  else if (n =? 47)%N then Some 47%N
  else if (n =? 98)%N then Some 8%N
  else if (n =? 102)%N then Some 12%N
  else if (n =? 110)%N then Some 10%N
  else if (n =? 114)%N then Some 13%N
  else if (n =? 116)%N then Some 9%N
  else None.

Definition word_of (acc : list ascii) : Token :=
  TWord (string_of_list_ascii (rev acc)).

(** The scanner; token lists and accumulators are kept reversed. *)
Fixpoint lex (st : LexState) (toks : list Token) (s : list ascii)
  : option (list Token) :=
  match s with
  | [] =>
      match st with
      | LDefault => Some (rev toks)
      | LWord acc => Some (rev (word_of acc :: toks))
      | _ => None
      end
  | c :: rest =>
      match st with
      | LDefault =>
          match lex_default c toks with
          | Some (st', toks') => lex st' toks' rest
          | None => None
          end
      | LWord acc =>
          if is_word_char c then lex (LWord (c :: acc)) toks rest
          else
            match lex_default c (word_of acc :: toks) with
            | Some (st', toks') => lex st' toks' rest
            | None => None
            end
      | LStr acc =>
          let n := N_of_ascii c in
          if (n =? 34)%N then lex LDefault (TString (rev acc) :: toks) rest
          else if (n =? 92)%N then lex (LEsc acc) toks rest
          else if (n <? 32)%N then None
          else lex (LStr (n :: acc)) toks rest
      | LEsc acc =>
          if (N_of_ascii c =? 117)%N then lex (LUni acc 0 0%N) toks rest
          else
            match escape_unit c with
            | Some u => lex (LStr (u :: acc)) toks rest
            | None => None
            end
      | LUni acc seen v =>
          match hex_value c with
          | Some h =>
              let v' := (16 * v + h)%N in
              if (seen =? 3)%nat then lex (LStr (v' :: acc)) toks rest
              else lex (LUni acc (S seen) v') toks rest
          | None => None
          end
      end
  end.

(** The number grammar: an optional minus, an integer part without a
    leading zero, an optional fraction, an optional exponent. *)
Fixpoint skip_digits (s : list ascii) : list ascii :=
  match s with
  | c :: rest => if is_digit c then skip_digits rest else s
  | [] => []
  end.

Definition starts_with_digit (s : list ascii) : bool :=
  match s with c :: _ => is_digit c | [] => false end.

Definition number_exponent (s : list ascii) : bool :=
  match s with
  | [] => true
  | c :: rest =>
      let n := N_of_ascii c in
      if ((n =? 101) || (n =? 69))%N then
        let rest' :=
          match rest with
          | d :: r =>
              if ((N_of_ascii d =? 43) || (N_of_ascii d =? 45))%N then r
              else rest
          | [] => rest
          end in
        starts_with_digit rest'
        && match skip_digits rest' with [] => true | _ => false end
      else false
  end.

Definition number_fraction (s : list ascii) : bool :=
  match s with
  | c :: rest =>
      if (N_of_ascii c =? 46)%N then
        starts_with_digit rest && number_exponent (skip_digits rest)
      else number_exponent s
  | [] => true
  end.

Definition number_integer (s : list ascii) : bool :=
  match s with
  | c :: rest =>
      if (N_of_ascii c =? 48)%N then number_fraction rest
      else if is_digit c then number_fraction (skip_digits rest)
      else false
  | [] => false
  end.

Definition is_number (w : string) : bool :=
  match list_ascii_of_string w with
  | c :: rest =>
      if (N_of_ascii c =? 45)%N then number_integer rest
      else number_integer (c :: rest)
  | [] => false
  end.

Definition scalar_of_word (w : string) : option JSON :=
  if String.eqb w "true" then Some (JBool true)
  else if String.eqb w "false" then Some (JBool false)
  else if String.eqb w "null" then Some JNull
  else if is_number w then Some (JNumber w)
  else None.

(** Defining a property: a repeated key keeps its place and takes the
    later value. *)
Fixpoint obj_set (k : list N) (v : JSON) (fields : list (list N * JSON))
  : list (list N * JSON) :=
  match fields with
  | [] => [(k, v)]
  | (k', v') :: rest =>
      if decide (k' = k) then (k, v) :: rest
      else (k', v') :: obj_set k v rest
  end.

Inductive Frame : Type :=
| InArr (acc : list JSON)
| InObj (fields : list (list N * JSON)) (key : option (list N)).

Inductive Expect : Type :=
| EValue | EArrFirst | EObjFirst | EKey | EColon | EAfter
| EDone (v : JSON).

Definition complete (v : JSON) (stack : list Frame)
  : option (Expect * list Frame) :=
  match stack with
  | [] => Some (EDone v, [])
  | InArr acc :: st => Some (EAfter, InArr (v :: acc) :: st)
  | InObj fields (Some k) :: st =>
      Some (EAfter, InObj (obj_set k v fields) None :: st)
  | InObj _ None :: _ => None
  end.

Definition open_value (t : Token) (stack : list Frame)
  : option (Expect * list Frame) :=
  match t with
  | TLBracket => Some (EArrFirst, InArr [] :: stack)
  | TLBrace => Some (EObjFirst, InObj [] None :: stack)
  | TString s => complete (JString s) stack
  | TWord w =>
      match scalar_of_word w with
      | Some v => complete v stack
      | None => None
      end
  | _ => None
  end.

Definition take_key (t : Token) (stack : list Frame)
  : option (Expect * list Frame) :=
  match t, stack with
  | TString k, InObj fields None :: st =>
      Some (EColon, InObj fields (Some k) :: st)
  | _, _ => None
  end.

Definition parse_step (e : Expect) (stack : list Frame) (t : Token)
  : option (Expect * list Frame) :=
  match e with
  | EValue => open_value t stack
  | EArrFirst =>
      match t, stack with
      | TRBracket, InArr [] :: st => complete (JArray []) st
      | _, _ => open_value t stack
      end
  | EObjFirst =>
      match t, stack with
      | TRBrace, InObj [] None :: st => complete (JObject []) st
      | _, _ => take_key t stack
      end
  | EKey => take_key t stack
  | EColon => match t with TColon => Some (EValue, stack) | _ => None end
  | EAfter =>
      match t, stack with
      | TComma, InArr _ :: _ => Some (EValue, stack)
      | TComma, InObj _ None :: _ => Some (EKey, stack)
      | TRBracket, InArr acc :: st => complete (JArray (rev acc)) st
      | TRBrace, InObj fields None :: st => complete (JObject fields) st
      | _, _ => None
      end
  | EDone _ => None
  end.

Fixpoint parse_tokens (e : Expect) (stack : list Frame) (ts : list Token)
  : option JSON :=
  match ts with
  | [] => match e, stack with EDone v, [] => Some v | _, _ => None end
  | t :: rest =>
      match parse_step e stack t with
      | Some (e', stack') => parse_tokens e' stack' rest
      | None => None
      end
  end.

Definition parse (text : string) : option JSON :=
  match lex LDefault [] (list_ascii_of_string text) with
  | Some ts => parse_tokens EValue [] ts
  | None => None
  end.

End JSONBuiltin.

Definition JSON_parse : string -> option JSON := JSONBuiltin.parse.

(** Texts with quotation marks are written with [quoted]. *)
Definition dquote : string := String (ascii_of_nat 34) EmptyString.
Definition quoted (s : string) : string := dquote +:+ s +:+ dquote.

(** ** [src/types/inputs.ts]: input descriptors and the derived response type *)
Module Inputs.

Record TextInput : Type := {
  text_name : string;
  text_label : option string;
  placeholder : option string;
  text_required : option bool;
  multiline : option bool;
  maxLength : option Z
}.

Record ConfirmInput : Type := {
  confirm_name : string;
  confirm_label : option string;
  defaultValue : option bool
}.

Record SelectOption : Type := {
  option_value : string;
  option_label : string;
  description : option string
}.

Inductive SelectOptions : Type :=
| PlainOptions (values : list string)
| LabelledOptions (values : list SelectOption).

Record SelectInput : Type := {
  select_name : string;
  select_label : option string;
  options : SelectOptions;
  select_required : option bool;
  multiple : option bool
}.

(** [type Input = TextInput | ConfirmInput | SelectInput], discriminated by
    the [type] property. *)
Inductive Input : Type :=
| text (i : TextInput)
| confirm (i : ConfirmInput)
| select (i : SelectInput).

Definition name (i : Input) : string :=
  match i with
  | text t => text_name t
  | confirm c => confirm_name c
  | select s => select_name s
  end.

(** The three types a property of a response can have: [boolean], [string]
    and [string[]]. *)
Inductive ResponseType : Type := TBoolean | TString | TStringArray.

#[global] Instance ResponseType_eq_dec : EqDecision ResponseType.
Proof. solve_decision. Defined.

#[global] Instance ResponseType_countable : Countable ResponseType.
Proof.
  refine (inj_countable'
    (fun t => match t with TBoolean => 0 | TString => 1 | TStringArray => 2 end)
    (fun n => match n with 0 => TBoolean | 1 => TString | _ => TStringArray end)
    _).
  intros []; reflexivity.
Defined.

(** The conditional type [ResponseTypeFromInput<T>]. With literal types
    ([as const]) the test [T["multiple"] extends true] holds exactly when
    the descriptor carries [multiple: true]. *)
Definition ResponseTypeFromInput (i : Input) : ResponseType :=
  match i with
  | confirm _ => TBoolean
  | select s =>
      match multiple s with
      | Some true => TStringArray
      | _ => TString
      end
  | text _ => TString
  end.

(** An object type: each property name with the union of the types it may
    have. *)
Abbreviation ObjectType := (gmap string (gset ResponseType)).

(** One member [K] of the union [T[number]] under the mapped type
    [{ [K in T[number] as K["name"]]: ResponseTypeFromInput<K> }]: members
    that are remapped to one property name contribute a union. *)
Definition add_property (i : Input) (shape : ObjectType) : ObjectType :=
  <[name i := {[ResponseTypeFromInput i]} ∪ default ∅ (shape !! name i)]> shape.

Definition ResponseFromInputs (T : list Input) : ObjectType :=
  foldr add_property ∅ T.

(** Whether a decoded value inhabits a response type. *)
Definition is_string (v : JSON) : bool :=
  match v with JString _ => true | _ => false end.

Definition has_type (t : ResponseType) (v : JSON) : bool :=
  match t, v with
  | TBoolean, JBool _ => true
  | TString, JString _ => true
  | TStringArray, JArray items => forallb is_string items
  | _, _ => false
  end.

Fixpoint property (k : list N) (fields : list (list N * JSON)) : option JSON :=
  match fields with
  | [] => None
  | (k', v) :: rest => if decide (k' = k) then Some v else property k rest
  end.

(** Whether a decoded value is an object that has every declared property
    with one of its types. *)
Definition conforms (T : list Input) (v : JSON) : bool :=
  match v with
  | JObject fields =>
      forallb
        (fun '(n, ts) =>
           match property (units n) fields with
           | Some x => existsb (fun t => has_type t x) (elements ts)
           | None => false
           end)
        (map_to_list (ResponseFromInputs T))
  | _ => false
  end.

End Inputs.

(** ** JS [Map]: keyed entries in insertion order *)
Module JSMap.
Section JSMap.
Context {K V : Type} `{EqDecision K}.

Definition size (m : list (K * V)) : nat := length m.

Definition keys (m : list (K * V)) : list K := m.*1.

(** [m.keys().next().value] *)
Definition first_key (m : list (K * V)) : option K := head (keys m).

Fixpoint get (k : K) (m : list (K * V)) : option V :=
  match m with
  | [] => None
  | (k', v) :: rest => if decide (k' = k) then Some v else get k rest
  end.

(** [m.set(k, v)]: a present key keeps its place, a new key goes last. *)
Fixpoint set (k : K) (v : V) (m : list (K * V)) : list (K * V) :=
  match m with
  | [] => [(k, v)]
  | (k', v') :: rest =>
      if decide (k' = k) then (k, v) :: rest else (k', v') :: set k v rest
  end.

Fixpoint delete (k : K) (m : list (K * V)) : list (K * V) :=
  match m with
  | [] => []
  | (k', v') :: rest =>
      if decide (k' = k) then rest else (k', v') :: delete k rest
  end.

Definition clear (m : list (K * V)) : list (K * V) := [].
End JSMap.
End JSMap.

(** ** [src/errors.ts] *)
Inductive ErrorCode : Type :=
| BAD_REQUEST | UNAUTHORIZED | FORBIDDEN | NOT_FOUND | PAYMENT_REQUIRED
| RATE_LIMITED | NETWORK_ERROR | TIMEOUT | WEBSOCKET_ERROR | SESSION_EXPIRED.

(** The error values the engine produces: four subclasses of
    [JustackError] and the plain [Error] of [Session.close]. *)
Inductive SdkError : Type :=
| BadRequestError (message : string)
| TimeoutError (message : string)
| WebSocketError (message : string)
| SessionExpiredError (message : string)
| PlainError (message : string).

Definition error_code (e : SdkError) : option ErrorCode :=
  match e with
  | BadRequestError _ => Some BAD_REQUEST
  | TimeoutError _ => Some TIMEOUT
  | WebSocketError _ => Some WEBSOCKET_ERROR
  | SessionExpiredError _ => Some SESSION_EXPIRED
  | PlainError _ => None
  end.

Definition error_status (e : SdkError) : option Z :=
  match e with
  | BadRequestError _ => Some 400%Z
  | _ => None
  end.

(** [new SessionExpiredError()] takes the default message. *)
Definition SessionExpired : SdkError :=
  SessionExpiredError "Session has expired".

(** ** Promises and timers *)
Abbreviation PromiseId := nat.
Abbreviation TimerId := nat.

Inductive PromiseState : Type :=
| Pending
| Fulfilled (v : JSON)
| Rejected (e : SdkError).

(** ** [src/resources/session.ts]: the correlation engine *)
Module Session.
Import Inputs.

Inductive MessageRole : Type := role_agent | role_recipient.
Inductive MessageType : Type := type_log | type_ask.

(** [ApiMessage]: a message in the wire format. *)
Record ApiMessage : Type := {
  api_id : string;
  api_role : MessageRole;
  api_type : MessageType;
  api_content : string;
  api_inputs : option string;
  sender_id : option string;
  response_content : option string;
  responded_at : option string;
  responded_by : option string;
  api_persist : bool;
  created_at : string
}.

(** [Message]: the SDK format; [inputs] holds what [JSON.parse] returned. *)
Record Message : Type := {
  msg_id : string;
  msg_role : MessageRole;
  msg_type : MessageType;
  content : string;
  inputs : option JSON;
  senderId : option string;
  responseContent : option string;
  respondedAt : option string;
  respondedBy : option string;
  persist : bool;
  createdAt : string
}.

(** [transformMessage] of [src/utils/transform.ts]. An empty or absent
    [inputs] is falsy and becomes [null]; [None] is the [SyntaxError] of
    [JSON.parse] on a malformed [inputs]. *)
Definition transformMessage (api : ApiMessage) : option Message :=
  let build parsed :=
    {| msg_id := api_id api; msg_role := api_role api;
       msg_type := api_type api; content := api_content api;
       inputs := parsed; senderId := sender_id api;
       responseContent := response_content api;
       respondedAt := responded_at api; respondedBy := responded_by api;
       persist := api_persist api; createdAt := created_at api |} in
  match api_inputs api with
  | None => Some (build None)
  | Some EmptyString => Some (build None)
  | Some txt =>
      match JSON_parse txt with
      | Some v => Some (build (Some v))
      | None => None
      end
  end.

Record Recipient : Type := {
  recipientId : string;
  recipient_name : string;
  email : option string;
  externalId : option string;
  recipient_createdAt : string
}.

Record AskOptions : Type := {
  ask_inputs : list Input;
  ask_timeout : option Z;
  ask_persist : option bool
}.

Record LogOptions : Type := { log_persist : option bool }.

(** [WebSocketSendPayload]; [payload_inputs] is the descriptor list that
    [JSON.stringify] encodes. *)
Record WebSocketSendPayload : Type := {
  payload_role : MessageRole;
  payload_type : MessageType;
  payload_content : string;
  payload_inputs : option (list Input);
  payload_persist : option bool
}.

Definition DEFAULT_ASK_TIMEOUT : Z := 5 * 60 * 1000.
Definition SESSION_EXPIRED_CLOSE_CODE : Z := 4001.

(** Who continues when a promise settles: the body of [log] or of [ask]
    suspended at [await this.sendAndWaitForAck(...)], or the caller of
    [ask] that holds the promise of the response. *)
Inductive Role : Type :=
| AckOfLog
| AckOfAsk (timeout : Z)
| Response.

Record Promise : Type := { state : PromiseState; role : Role }.

(** An entry of [pendingQuestions]: [resolve] and [reject] are the two
    settling functions of one promise. *)
Record PendingQuestion : Type := {
  q_promise : PromiseId;
  timeoutId : TimerId
}.

(** An entry of [pendingAcks]: [resolve] and [reject] of one promise, and
    nothing else. *)
Record PendingAck : Type := { a_promise : PromiseId }.

(** A scheduled callback of [setTimeout] in [ask], with what its closure
    captured: the message id, [reject] and the timeout. *)
Record Timer : Type := {
  timer_id : TimerId;
  timer_messageId : string;
  timer_promise : PromiseId;
  timer_ms : Z
}.

Record Session : Type := {
  connection : option unit;
  pendingQuestions : list (string * PendingQuestion);
  pendingAcks : list (nat * PendingAck);
  ackCounter : nat;
  recipients : list Recipient;
  promises : list Promise;
  timers : list Timer;
  nextTimer : TimerId
}.

(** What a segment of code does besides changing the session. The
    settling functions of a [PendingAck] are named by the key of the entry,
    those of a question by its promise. *)
Inductive Effect : Type :=
| AckResolve (ackId : nat) (messageId : string)
| AckReject (ackId : nat) (e : SdkError)
| QuestionResolve (p : PromiseId) (v : JSON)
| QuestionReject (p : PromiseId) (e : SdkError)
| ExecutorThrow (p : PromiseId) (e : SdkError)
| SetTimeout (t : TimerId) (ms : Z)
| ClearTimeout (t : TimerId)
| CreateConnection
| ConnectionConnect
| ConnectionSend (payload : WebSocketSendPayload)
| ConnectionClose.

(** The constructor: [recipients = data.recipients ?? []]. *)
Definition new_Session (data_recipients : option (list Recipient)) : Session :=
  {| connection := None; pendingQuestions := []; pendingAcks := [];
     ackCounter := 0; recipients := default [] data_recipients;
     promises := []; timers := []; nextTimer := 0 |}.

Definition with_connection (v : option unit) (s : Session) : Session :=
  {| connection := v; pendingQuestions := pendingQuestions s;
     pendingAcks := pendingAcks s; ackCounter := ackCounter s;
     recipients := recipients s; promises := promises s;
     timers := timers s; nextTimer := nextTimer s |}.

Definition with_pendingQuestions (v : list (string * PendingQuestion))
  (s : Session) : Session :=
  {| connection := connection s; pendingQuestions := v;
     pendingAcks := pendingAcks s; ackCounter := ackCounter s;
     recipients := recipients s; promises := promises s;
     timers := timers s; nextTimer := nextTimer s |}.

Definition with_pendingAcks (v : list (nat * PendingAck)) (s : Session)
  : Session :=
  {| connection := connection s; pendingQuestions := pendingQuestions s;
     pendingAcks := v; ackCounter := ackCounter s;
     recipients := recipients s; promises := promises s;
     timers := timers s; nextTimer := nextTimer s |}.

Definition with_ackCounter (v : nat) (s : Session) : Session :=
  {| connection := connection s; pendingQuestions := pendingQuestions s;
     pendingAcks := pendingAcks s; ackCounter := v;
     recipients := recipients s; promises := promises s;
     timers := timers s; nextTimer := nextTimer s |}.

Definition with_promises (v : list Promise) (s : Session) : Session :=
  {| connection := connection s; pendingQuestions := pendingQuestions s;
     pendingAcks := pendingAcks s; ackCounter := ackCounter s;
     recipients := recipients s; promises := v;
     timers := timers s; nextTimer := nextTimer s |}.

Definition with_timers (v : list Timer) (n : TimerId) (s : Session)
  : Session :=
  {| connection := connection s; pendingQuestions := pendingQuestions s;
     pendingAcks := pendingAcks s; ackCounter := ackCounter s;
     recipients := recipients s; promises := promises s;
     timers := v; nextTimer := n |}.

(** Settling: only a pending promise changes. *)
Definition settle (p : PromiseId) (st : PromiseState) (ps : list Promise)
  : list Promise :=
  match ps !! p with
  | Some pr =>
      match state pr with
      | Pending => <[p := {| state := st; role := role pr |}]> ps
      | _ => ps
      end
  | None => ps
  end.

Definition settle_in (p : PromiseId) (st : PromiseState) (s : Session)
  : Session :=
  with_promises (settle p st (promises s)) s.

(** [clearTimeout]: the timer, if still scheduled, will not fire. *)
Definition clearTimeout (t : TimerId) (s : Session) : Session :=
  with_timers (filter (fun x => timer_id x ≠ t) (timers s)) (nextTimer s) s.

Definition find_timer (t : TimerId) (ts : list Timer) : option Timer :=
  head (filter (fun x => timer_id x = t) ts).

(** *** The methods and handlers of [Session] *)

(** [ensureConnected], up to [await this.connection.connect()]. *)
Definition ensureConnected (s : Session) : Session * list Effect :=
  match connection s with
  | None => (with_connection (Some ()) s, [CreateConnection; ConnectionConnect])
  | Some _ => (s, [ConnectionConnect])
  end.

(** The executor of the promise [ask] returns once the ack gave the
    message id: schedule the deadline, record the pending question. *)
Definition await_response (messageId : string) (timeout : Z) (s : Session)
  : Session * list Effect :=
  let q := length (promises s) in
  let t := nextTimer s in
  let s1 := with_promises (promises s ++ [{| state := Pending; role := Response |}]) s in
  let s2 := with_timers
              (timers s1 ++ [{| timer_id := t; timer_messageId := messageId;
                                timer_promise := q; timer_ms := timeout |}])
              (S t) s1 in
  let s3 := with_pendingQuestions
              (JSMap.set messageId {| q_promise := q; timeoutId := t |}
                 (pendingQuestions s2)) s2 in
  (s3, [SetTimeout t timeout]).

(** [pending.resolve(data.id)] on an entry of [pendingAcks]. If the
    promise is still pending it is fulfilled and the suspended body goes
    on: [log] returns, [ask] runs [await_response]. The body runs as a
    microtask, before any other event is handled. *)
Definition resolve_ack (pending : PendingAck) (messageId : string)
  (s : Session) : Session * list Effect :=
  match promises s !! a_promise pending with
  | Some {| state := Pending; role := r |} =>
      let s1 := settle_in (a_promise pending)
                  (Fulfilled (JString (units messageId))) s in
      match r with
      | AckOfAsk timeout => await_response messageId timeout s1
      | _ => (s1, [])
      end
  | _ => (s, [])
  end.

(** The [messageAck] handler. *)
Definition onMessageAck (data_id : string) (s : Session)
  : Session * list Effect :=
  if decide (0 < JSMap.size (pendingAcks s)) then
    match JSMap.first_key (pendingAcks s) with
    | Some firstKey =>
        match JSMap.get firstKey (pendingAcks s) with
        | Some pending =>
            let s1 := with_pendingAcks
                        (JSMap.delete firstKey (pendingAcks s)) s in
            let '(s2, fx) := resolve_ack pending data_id s1 in
            (s2, AckResolve firstKey data_id :: fx)
        | None => (s, [])
        end
    | None => (s, [])
    end
  else (s, []).

(** [try { JSON.parse(responseContent) } catch { responseContent }] *)
Definition decode (responseContent : string) : JSON :=
  match JSON_parse responseContent with
  | Some v => v
  | None => JString (units responseContent)
  end.

(** [handleResponse]. The handler below calls it with a [responseContent]
    that is not [null]; on [null] the builtin would parse the text [null]. *)
Definition handleResponse (message : Message) (s : Session)
  : Session * list Effect :=
  match JSMap.get (msg_id message) (pendingQuestions s) with
  | None => (s, [])
  | Some pending =>
      let s1 := clearTimeout (timeoutId pending) s in
      let s2 := with_pendingQuestions
                  (JSMap.delete (msg_id message) (pendingQuestions s1)) s1 in
      let v := match responseContent message with
               | Some rc => decode rc
               | None => JNull
               end in
      (settle_in (q_promise pending) (Fulfilled v) s2,
       [ClearTimeout (timeoutId pending); QuestionResolve (q_promise pending) v])
  end.

(** The [messageUpdated] handler. An exception of [transformMessage] is
    caught by the emitter of the connection: the handler then did nothing. *)
Definition onMessageUpdated (raw : ApiMessage) (s : Session)
  : Session * list Effect :=
  match transformMessage raw with
  | Some message =>
      match msg_type message, responseContent message with
      | type_ask, Some _ => handleResponse message s
      | _, _ => (s, [])
      end
  | None => (s, [])
  end.

(** The two loops that reject every entry, then [clear()]. *)
Definition reject_question (e : SdkError) (s : Session)
  (entry : string * PendingQuestion) : Session :=
  settle_in (q_promise entry.2) (Rejected e)
    (clearTimeout (timeoutId entry.2) s).

Definition reject_questions (e : SdkError) (s : Session)
  : Session * list Effect :=
  (with_pendingQuestions (JSMap.clear (pendingQuestions s))
     (foldl (reject_question e) s (pendingQuestions s)),
   flat_map
     (fun entry => [ClearTimeout (timeoutId entry.2);
                    QuestionReject (q_promise entry.2) e])
     (pendingQuestions s)).

Definition reject_ack (e : SdkError) (s : Session)
  (entry : nat * PendingAck) : Session :=
  settle_in (a_promise entry.2) (Rejected e) s.

Definition reject_acks (e : SdkError) (s : Session)
  : Session * list Effect :=
  (with_pendingAcks (JSMap.clear (pendingAcks s))
     (foldl (reject_ack e) s (pendingAcks s)),
   map (fun entry => AckReject entry.1 e) (pendingAcks s)).

(** The [disconnected] handler. *)
Definition onDisconnected (code : option Z) (s : Session)
  : Session * list Effect :=
  if decide (code = Some SESSION_EXPIRED_CLOSE_CODE) then
    let '(s1, fx1) := reject_questions SessionExpired s in
    let '(s2, fx2) := reject_acks SessionExpired s1 in
    (s2, fx1 ++ fx2)
  else (s, []).

(** The callback of [setTimeout] in [ask]; a timer that is not scheduled
    does not fire. *)
Definition timeout_fires (t : TimerId) (s : Session)
  : Session * list Effect :=
  match find_timer t (timers s) with
  | None => (s, [])
  | Some tm =>
      let s1 := clearTimeout t s in
      let s2 := with_pendingQuestions
                  (JSMap.delete (timer_messageId tm) (pendingQuestions s1))
                  s1 in
      let e := TimeoutError
                 ("Ask timed out after " +:+ pretty (timer_ms tm) +:+ "ms") in
      (settle_in (timer_promise tm) (Rejected e) s2,
       [QuestionReject (timer_promise tm) e])
  end.

(** [sendAndWaitForAck]. [open] tells whether [connection.send] finds the
    channel open; otherwise it throws inside the executor, which rejects
    the promise, after the entry was recorded. *)
Definition sendAndWaitForAck (r : Role) (payload : WebSocketSendPayload)
  (open : bool) (s : Session) : Session * list Effect :=
  let ackId := S (ackCounter s) in
  let s1 := with_ackCounter ackId s in
  let p := length (promises s1) in
  let s2 := with_promises (promises s1 ++ [{| state := Pending; role := r |}]) s1 in
  let s3 := with_pendingAcks
              (JSMap.set ackId {| a_promise := p |} (pendingAcks s2)) s2 in
  if open then (s3, [ConnectionSend payload])
  else
    let e := WebSocketError "WebSocket is not connected" in
    (settle_in p (Rejected e) s3, [ExecutorThrow p e]).

(** [log], up to its first [await], and from there to the second. *)
Definition log_begin (s : Session) : Session * list Effect :=
  ensureConnected s.

Definition log_resume (message : string) (options : LogOptions)
  (open : bool) (s : Session) : Session * list Effect :=
  sendAndWaitForAck AckOfLog
    {| payload_role := role_agent; payload_type := type_log;
       payload_content := message; payload_inputs := None;
       payload_persist := Some (default true (log_persist options)) |}
    open s.

(** [ask], up to its first [await]: [Some e] is the error it throws. *)
Definition ask_begin (s : Session) : Session * list Effect * option SdkError :=
  if decide (length (recipients s) = 0) then
    (s, [],
     Some (BadRequestError
       "Cannot ask without recipients. Add recipients when creating or resuming the session."))
  else
    let '(s1, fx) := ensureConnected s in (s1, fx, None).

(** [ask], from the first [await] to the second; the rest of [ask] is
    [await_response], run by [resolve_ack]. *)
Definition ask_resume (question : string) (options : AskOptions)
  (open : bool) (s : Session) : Session * list Effect :=
  let timeout := default DEFAULT_ASK_TIMEOUT (ask_timeout options) in
  sendAndWaitForAck (AckOfAsk timeout)
    {| payload_role := role_agent; payload_type := type_ask;
       payload_content := question;
       payload_inputs := Some (ask_inputs options);
       payload_persist := Some (default true (ask_persist options)) |}
    open s.

(** [close]. *)
Definition close (s : Session) : Session * list Effect :=
  let '(s1, fx1) := reject_questions (PlainError "Session closed") s in
  let '(s2, fx2) := reject_acks (PlainError "Session closed") s1 in
  match connection s2 with
  | Some _ => (with_connection None s2, fx1 ++ fx2 ++ [ConnectionClose])
  | None => (s2, fx1 ++ fx2)
  end.

(** *** Runs

    What can happen to a session, one synchronous segment at a time. The
    connection is not part of this model: its events and the outcome of
    [send] come from outside, in any order. *)
Inductive Event : Type :=
| CallLog
| ResumeLog (message : string) (options : LogOptions) (open : bool)
| CallAsk
| ResumeAsk (question : string) (options : AskOptions) (open : bool)
| MessageAck (data_id : string)
| MessageUpdated (raw : ApiMessage)
| Disconnected (code : option Z)
| TimerFires (t : TimerId)
| CallClose.

Definition step (s : Session) (ev : Event) : Session * list Effect :=
  match ev with
  | CallLog => log_begin s
  | ResumeLog message options open => log_resume message options open s
  | CallAsk => let '(s1, fx, _) := ask_begin s in (s1, fx)
  | ResumeAsk question options open => ask_resume question options open s
  | MessageAck data_id => onMessageAck data_id s
  | MessageUpdated raw => onMessageUpdated raw s
  | Disconnected code => onDisconnected code s
  | TimerFires t => timeout_fires t s
  | CallClose => close s
  end.

Fixpoint run (s : Session) (evs : list Event) : Session * list Effect :=
  match evs with
  | [] => (s, [])
  | ev :: rest =>
      let '(s1, fx1) := step s ev in
      let '(s2, fx2) := run s1 rest in
      (s2, fx1 ++ fx2)
  end.

(** *** Invariants and observations of a run *)

(** The keys of the acks whose [resolve] or [reject] a segment invoked,
    in order, and those whose [resolve] it invoked. *)
Definition departed_ack (e : Effect) : option nat :=
  match e with
  | AckResolve k _ | AckReject k _ => Some k
  | _ => None
  end.

Definition resolved_ack (e : Effect) : option nat :=
  match e with
  | AckResolve k _ => Some k
  | _ => None
  end.

Definition departures (fx : list Effect) : list nat := omap departed_ack fx.
Definition acknowledged (fx : list Effect) : list nat := omap resolved_ack fx.

(** How often [resolve] or [reject] of the question with promise [p] was
    invoked. *)
Definition settles_question (p : PromiseId) (e : Effect) : bool :=
  match e with
  | QuestionResolve q _ | QuestionReject q _ => bool_decide (q = p)
  | _ => false
  end.

Definition settlements (p : PromiseId) (fx : list Effect) : nat :=
  length (List.filter (settles_question p) fx).

Definition awaiting_response (ps : list Promise) (p : PromiseId) : Prop :=
  ps !! p = Some {| state := Pending; role := Response |}.

(** The timer of an entry of [pendingQuestions] is scheduled and holds the
    key and the promise of the entry. *)
Definition has_timer (ts : list Timer) (entry : string * PendingQuestion)
  : Prop :=
  exists t, t ∈ ts /\ timer_id t = timeoutId entry.2
            /\ timer_promise t = q_promise entry.2
            /\ timer_messageId t = entry.1.

Definition ack_promise_ok (ps : list Promise) (entry : nat * PendingAck)
  : Prop :=
  exists pr, ps !! a_promise entry.2 = Some pr /\ role pr ≠ Response.

(** What holds of every session between two segments. *)
Record wf (s : Session) : Prop := {
  wf_ack_sorted : StronglySorted lt (JSMap.keys (pendingAcks s));
  wf_ack_bound : Forall (fun k => k <= ackCounter s) (JSMap.keys (pendingAcks s));
  wf_ack_role : Forall (ack_promise_ok (promises s)) (pendingAcks s);
  wf_question_keys : NoDup (JSMap.keys (pendingQuestions s));
  wf_question_timer : Forall (has_timer (timers s)) (pendingQuestions s);
  wf_timer_ids : NoDup (timer_id <$> timers s);
  wf_timer_fresh : Forall (fun t => timer_id t < nextTimer s) (timers s);
  wf_timer_promises : NoDup (timer_promise <$> timers s);
  wf_timer_pending :
    Forall (fun t => awaiting_response (promises s) (timer_promise t))
      (timers s)
}.

(** The store after [reject] was invoked on each of [qs] in turn. *)
Definition settle_all (qs : list PromiseId) (st : PromiseState)
  (ps : list Promise) : list Promise :=
  foldl (fun acc q => settle q st acc) ps qs.

(** How a store may change: promises are added at the end, a pending one
    may be settled, roles stay, a settled promise stays as it is. *)
Definition evolves (ps ps' : list Promise) : Prop :=
  forall p pr, ps !! p = Some pr ->
    exists pr', ps' !! p = Some pr' /\ role pr' = role pr
                /\ (state pr ≠ Pending -> pr' = pr).

(** The events that make an entry of [pendingAcks] leave the map. *)
Definition releases_acks (ev : Event) : bool :=
  match ev with
  | MessageAck _ => true
  | Disconnected code => bool_decide (code = Some SESSION_EXPIRED_CLOSE_CODE)
  | CallClose => true
  | _ => false
  end.

End Session.

(** ** JS numbers in the arithmetic of the connection manager

    A [number] is an IEEE 754 binary64 value: [spec_float] at precision 53
    and maximal exponent 1024, whose [SFmul] and [SFadd] round to nearest,
    ties to even, as [*] and [+] of JS do. *)
Module Number.

Abbreviation double := SpecFloat.spec_float.
Abbreviation NaN := SpecFloat.S754_nan.
Abbreviation fmul := (SpecFloat.SFmul 53 1024).
Abbreviation fadd := (SpecFloat.SFadd 53 1024).
Abbreviation flt := SpecFloat.SFltb.
Abbreviation fle := SpecFloat.SFleb.

(** The number nearest to [m * 2^e]; it is that value whenever [m] has at
    most 53 bits and the result is in range. *)
Definition dyadic (m e : Z) : double :=
  SpecFloat.binary_normalize 53 1024 m e false.

(** An integer literal of the source, such as [1000] or [30000]. *)
Definition of_Z (z : Z) : double := dyadic z 0.

(** [Math.pow(2, n)] for an integer [n]. ECMAScript leaves the precision
    of [Math.pow] to the implementation; it is taken here to return the
    power of two itself, as the engines do: a number for
    [-1074 <= n <= 1023], [+Infinity] above and [0] below. *)
Definition Math_pow2 (n : Z) : double :=
  SpecFloat.SFldexp 53 1024 (of_Z 1) n.

(** [Math.min(a, b)]: [NaN] if either is, the smaller otherwise, [a] when
    they are equal, and [-0] below [+0]. *)
Definition Math_min (a b : double) : double :=
  match a, b with
  | SpecFloat.S754_nan, _ | _, SpecFloat.S754_nan => NaN
  | SpecFloat.S754_zero false, SpecFloat.S754_zero true => b
  | _, _ => if flt b a then b else a
  end.


Arguments dyadic : simpl never.
Arguments of_Z : simpl never.
Arguments Math_pow2 : simpl never.
Arguments Math_min : simpl never.

End Number.

(** ** [src/websocket/connection.ts]: the connection manager *)
Module Connection.
Import Number.

Inductive ConnectionStatus : Type :=
| connecting | connected | disconnected | error.

#[global] Instance ConnectionStatus_eq_dec : EqDecision ConnectionStatus.
Proof. solve_decision. Defined.

(** [readyState] of a channel. *)
Inductive ReadyState : Type := CONNECTING | OPEN | CLOSING | CLOSED.

#[global] Instance ReadyState_eq_dec : EqDecision ReadyState.
Proof. solve_decision. Defined.

Record ResolvedWebSocketOptions : Type := {
  autoReconnect : bool;
  maxReconnectAttempts : Z;
  reconnectDelay : double;
  headers : list (string * string)
}.

(** [createWebSocketConnection] with no [wsOptions]. *)
Definition default_options (apiKey : string) : ResolvedWebSocketOptions :=
  {| autoReconnect := true; maxReconnectAttempts := 5;
     reconnectDelay := of_Z 1000;
     headers := [("Authorization", "Bearer " +:+ apiKey)] |}.

(** A parsed inbound frame; [other_event] is a frame with another [type],
    for which [handleMessage] has no case. *)
Inductive WebSocketServerMessage : Type :=
| connected_event
| message_event (data : Session.ApiMessage)
| message_updated_event (data : Session.ApiMessage)
| message_ack_event (id : string)
| error_event (message : string) (code : option Z)
| other_event.

(** What [emit] hands to the listeners. *)
Inductive Emitted : Type :=
| emit_connected
| emit_message (data : Session.ApiMessage)
| emit_messageUpdated (data : Session.ApiMessage)
| emit_messageAck (id : string)
| emit_error (message : string) (code : option Z)
| emit_disconnected (code : Z) (reason : string)
| emit_statusChange (status : ConnectionStatus).

(** The promise of [connect] carries no value. *)
Inductive ConnectOutcome : Type :=
| Waiting
| Completed
| Failed (e : SdkError).

(** A channel made by [new WebSocket], with what its handlers captured:
    whether they are still attached, and [resolve] and [reject] of the
    promise of the [connect] call that made the channel. *)
Record Socket : Type := {
  readyState : ReadyState;
  attached : bool;
  socket_promise : PromiseId
}.

Record WebSocketConnection : Type := {
  ws : option nat;
  reconnectAttempts : Z;
  reconnectTimeout : option TimerId;
  manualClose : bool;
  _status : ConnectionStatus;
  _connected : bool;
  connectPromise : option PromiseId;
  options : ResolvedWebSocketOptions;
  sockets : list Socket;
  promises : list ConnectOutcome;
  timers : list (TimerId * double);
  nextTimer : TimerId
}.

Inductive Effect : Type :=
| Emit (e : Emitted)
| NewWebSocket (channel : nat)
| Detach (channel : nat)
| ChannelClose (channel : nat)
| ChannelSend (channel : nat) (payload : Session.WebSocketSendPayload)
| SetTimeout (t : TimerId) (delay : double)
| ClearTimeout (t : TimerId)
| Resolve (p : PromiseId)
| Reject (p : PromiseId) (e : SdkError)
| Throw (e : SdkError).

Definition new_WebSocketConnection (opts : ResolvedWebSocketOptions)
  : WebSocketConnection :=
  {| ws := None; reconnectAttempts := 0; reconnectTimeout := None;
     manualClose := false; _status := disconnected; _connected := false;
     connectPromise := None; options := opts; sockets := [];
     promises := []; timers := []; nextTimer := 0 |}.

Definition with_ws (v : option nat) (c : WebSocketConnection) :=
  {| ws := v; reconnectAttempts := reconnectAttempts c;
     reconnectTimeout := reconnectTimeout c; manualClose := manualClose c;
     _status := _status c; _connected := _connected c;
     connectPromise := connectPromise c; options := options c;
     sockets := sockets c; promises := promises c; timers := timers c;
     nextTimer := nextTimer c |}.

Definition with_reconnectAttempts (v : Z) (c : WebSocketConnection) :=
  {| ws := ws c; reconnectAttempts := v;
     reconnectTimeout := reconnectTimeout c; manualClose := manualClose c;
     _status := _status c; _connected := _connected c;
     connectPromise := connectPromise c; options := options c;
     sockets := sockets c; promises := promises c; timers := timers c;
     nextTimer := nextTimer c |}.

Definition with_reconnectTimeout (v : option TimerId)
  (c : WebSocketConnection) :=
  {| ws := ws c; reconnectAttempts := reconnectAttempts c;
     reconnectTimeout := v; manualClose := manualClose c;
     _status := _status c; _connected := _connected c;
     connectPromise := connectPromise c; options := options c;
     sockets := sockets c; promises := promises c; timers := timers c;
     nextTimer := nextTimer c |}.

Definition with_manualClose (v : bool) (c : WebSocketConnection) :=
  {| ws := ws c; reconnectAttempts := reconnectAttempts c;
     reconnectTimeout := reconnectTimeout c; manualClose := v;
     _status := _status c; _connected := _connected c;
     connectPromise := connectPromise c; options := options c;
     sockets := sockets c; promises := promises c; timers := timers c;
     nextTimer := nextTimer c |}.

Definition with_status (v : ConnectionStatus) (b : bool)
  (c : WebSocketConnection) :=
  {| ws := ws c; reconnectAttempts := reconnectAttempts c;
     reconnectTimeout := reconnectTimeout c; manualClose := manualClose c;
     _status := v; _connected := b;
     connectPromise := connectPromise c; options := options c;
     sockets := sockets c; promises := promises c; timers := timers c;
     nextTimer := nextTimer c |}.

Definition with_connectPromise (v : option PromiseId)
  (c : WebSocketConnection) :=
  {| ws := ws c; reconnectAttempts := reconnectAttempts c;
     reconnectTimeout := reconnectTimeout c; manualClose := manualClose c;
     _status := _status c; _connected := _connected c;
     connectPromise := v; options := options c;
     sockets := sockets c; promises := promises c; timers := timers c;
     nextTimer := nextTimer c |}.

Definition with_sockets (v : list Socket) (c : WebSocketConnection) :=
  {| ws := ws c; reconnectAttempts := reconnectAttempts c;
     reconnectTimeout := reconnectTimeout c; manualClose := manualClose c;
     _status := _status c; _connected := _connected c;
     connectPromise := connectPromise c; options := options c;
     sockets := v; promises := promises c; timers := timers c;
     nextTimer := nextTimer c |}.

Definition with_promises (v : list ConnectOutcome)
  (c : WebSocketConnection) :=
  {| ws := ws c; reconnectAttempts := reconnectAttempts c;
     reconnectTimeout := reconnectTimeout c; manualClose := manualClose c;
     _status := _status c; _connected := _connected c;
     connectPromise := connectPromise c; options := options c;
     sockets := sockets c; promises := v; timers := timers c;
     nextTimer := nextTimer c |}.

Definition with_timers (v : list (TimerId * double)) (n : TimerId)
  (c : WebSocketConnection) :=
  {| ws := ws c; reconnectAttempts := reconnectAttempts c;
     reconnectTimeout := reconnectTimeout c; manualClose := manualClose c;
     _status := _status c; _connected := _connected c;
     connectPromise := connectPromise c; options := options c;
     sockets := sockets c; promises := promises c; timers := v;
     nextTimer := n |}.

Definition settle (p : PromiseId) (o : ConnectOutcome)
  (c : WebSocketConnection) : WebSocketConnection :=
  match promises c !! p with
  | Some Waiting => with_promises (<[p := o]> (promises c)) c
  | _ => c
  end.

(** [setStatus] *)
Definition setStatus (status : ConnectionStatus) (c : WebSocketConnection)
  : WebSocketConnection * list Effect :=
  if decide (_status c ≠ status) then
    (with_status status (bool_decide (status = connected)) c,
     [Emit (emit_statusChange status)])
  else (c, []).

(** [connect]. [throws] is the message of the exception of
    [new WebSocket], if it throws. The result names the promise returned. *)
Definition connect (throws : option string) (c : WebSocketConnection)
  : WebSocketConnection * PromiseId * list Effect :=
  match connectPromise c with
  | Some p => (c, p, [])
  | None =>
      if _connected c then
        (with_promises (promises c ++ [Completed]) c, length (promises c), [])
      else
        let p := length (promises c) in
        let c1 := with_promises (promises c ++ [Waiting]) c in
        let '(c2, fx2) := setStatus connecting c1 in
        match throws with
        | Some message =>
            let '(c3, fx3) := setStatus error c2 in
            let c4 := with_connectPromise None c3 in
            let c5 := settle p (Failed (WebSocketError message)) c4 in
            (with_connectPromise (Some p) c5, p,
             fx2 ++ fx3 ++ [Emit (emit_error message None);
                            Reject p (WebSocketError message)])
        | None =>
            let channel := length (sockets c2) in
            let c3 := with_sockets
                        (sockets c2 ++ [{| readyState := CONNECTING;
                                           attached := true;
                                           socket_promise := p |}]) c2 in
            let c4 := with_ws (Some channel) c3 in
            (with_connectPromise (Some p) c4, p, fx2 ++ [NewWebSocket channel])
        end
  end.

(** [handleMessage] *)
Definition handleMessage (message : WebSocketServerMessage)
  (c : WebSocketConnection) : WebSocketConnection * list Effect :=
  match message with
  | connected_event =>
      let '(c1, fx1) := setStatus connected c in
      (with_reconnectAttempts 0 c1, fx1 ++ [Emit emit_connected])
  | message_event data => (c, [Emit (emit_message data)])
  | message_updated_event data => (c, [Emit (emit_messageUpdated data)])
  | message_ack_event id => (c, [Emit (emit_messageAck id)])
  | error_event message code => (c, [Emit (emit_error message code)])
  | other_event => (c, [])
  end.

(** [ws.onmessage] of the channel whose handlers captured promise [p];
    [None] is a frame that [JSON.parse] rejects. *)
Definition onmessage (p : PromiseId) (frame : option WebSocketServerMessage)
  (c : WebSocketConnection) : WebSocketConnection * list Effect :=
  match frame with
  | None => (c, [])
  | Some message =>
      let '(c1, fx1) := handleMessage message c in
      match message with
      | connected_event =>
          let c2 := with_connectPromise None c1 in
          (settle p Completed c2, fx1 ++ [Resolve p])
      | _ => (c1, fx1)
      end
  end.

(** The delay of a retry,
    [Math.min(reconnectDelay * Math.pow(2, reconnectAttempts)
              + Math.random() * 1000, 30000)];
    [rnd] is the value of [Math.random()]. *)
Definition backoff_delay (base : double) (attempts : Z) (rnd : double)
  : double :=
  Math_min (fadd (fmul base (Math_pow2 attempts)) (fmul rnd (of_Z 1000)))
    (of_Z 30000).

Arguments backoff_delay : simpl never.

(** [scheduleReconnect] *)
Definition scheduleReconnect (rnd : double) (c : WebSocketConnection)
  : WebSocketConnection * list Effect :=
  if decide (maxReconnectAttempts (options c) ≤ reconnectAttempts c)%Z then
    (c, [])
  else
    let delay :=
      backoff_delay (reconnectDelay (options c)) (reconnectAttempts c) rnd in
    let t := nextTimer c in
    let c1 := with_timers (timers c ++ [(t, delay)]) (S t) c in
    (with_reconnectTimeout (Some t) c1, [SetTimeout t delay]).

(** [ws.onclose] *)
Definition onclose (p : PromiseId) (code : Z) (reason : string)
  (rnd : double)
  (c : WebSocketConnection) : WebSocketConnection * list Effect :=
  let c1 := with_ws None c in
  let '(c2, fx2) := setStatus disconnected c1 in
  let fx3 := [Emit (emit_disconnected code reason)] in
  let '(c4, fx4) :=
    match connectPromise c2 with
    | Some _ =>
        let e := WebSocketError
                   ("WebSocket closed during connection: " +:+ pretty code
                    +:+ " " +:+ reason) in
        (settle p (Failed e) (with_connectPromise None c2), [Reject p e])
    | None => (c2, [])
    end in
  let '(c5, fx5) :=
    if negb (manualClose c4) && autoReconnect (options c4)
    then scheduleReconnect rnd c4
    else (c4, []) in
  (c5, fx2 ++ fx3 ++ fx4 ++ fx5).

(** [ws.onerror]; an empty [message] is falsy. *)
Definition onerror (message : string) (c : WebSocketConnection)
  : WebSocketConnection * list Effect :=
  let '(c1, fx1) := setStatus error c in
  let message' :=
    match message with
    | EmptyString => "WebSocket connection error"
    | _ => message
    end in
  (c1, fx1 ++ [Emit (emit_error message' None)]).

(** The callback of [setTimeout] in [scheduleReconnect]. *)
Definition reconnect_fires (t : TimerId) (throws : option string)
  (c : WebSocketConnection) : WebSocketConnection * list Effect :=
  if decide (t ∈ (timers c).*1) then
    let c1 := with_timers (filter (fun x => x.1 ≠ t) (timers c))
                (nextTimer c) c in
    let c2 := with_reconnectAttempts (reconnectAttempts c1 + 1) c1 in
    let '(c3, _, fx) := connect throws c2 in
    (c3, fx)
  else (c, []).

(** [send] *)
Definition send (data : Session.WebSocketSendPayload)
  (c : WebSocketConnection) : WebSocketConnection * list Effect :=
  match ws c with
  | Some channel =>
      match sockets c !! channel with
      | Some {| readyState := OPEN |} => (c, [ChannelSend channel data])
      | _ => (c, [Throw (WebSocketError "WebSocket is not connected")])
      end
  | None => (c, [Throw (WebSocketError "WebSocket is not connected")])
  end.

Definition set_socket (channel : nat) (f : Socket -> Socket)
  (c : WebSocketConnection) : WebSocketConnection :=
  match sockets c !! channel with
  | Some sock => with_sockets (<[channel := f sock]> (sockets c)) c
  | None => c
  end.

(** The channel after its handlers were set to [null] and [close()] was
    called on it. *)
Definition detached (sock : Socket) : Socket :=
  {| readyState := match readyState sock with
                   | CLOSED => CLOSED
                   | _ => CLOSING
                   end;
     attached := false;
     socket_promise := socket_promise sock |}.

Definition in_state (r : ReadyState) (sock : Socket) : Socket :=
  {| readyState := r; attached := attached sock;
     socket_promise := socket_promise sock |}.

(** [close] *)
Definition close (c : WebSocketConnection)
  : WebSocketConnection * list Effect :=
  let c1 := with_manualClose true c in
  let '(c2, fx2) :=
    match reconnectTimeout c1 with
    | Some t =>
        (with_reconnectTimeout None
           (with_timers (filter (fun x => x.1 ≠ t) (timers c1))
              (nextTimer c1) c1),
         [ClearTimeout t])
    | None => (c1, [])
    end in
  let '(c3, fx3) :=
    match ws c2 with
    | Some channel =>
        (set_socket channel detached (with_ws None c2),
         [Detach channel; ChannelClose channel])
    | None => (c2, [])
    end in
  let c4 := with_connectPromise None c3 in
  let '(c5, fx5) := setStatus disconnected c4 in
  (c5, fx2 ++ fx3 ++ fx5).

(** *** Runs: calls of the public methods, events of the channels, timers *)
Inductive Event : Type :=
| CallConnect (throws : option string)
| CallSend (data : Session.WebSocketSendPayload)
| CallClose
| WsOpen (channel : nat)
| WsMessage (channel : nat) (frame : option WebSocketServerMessage)
| WsClose (channel : nat) (code : Z) (reason : string) (rnd : double)
| WsError (channel : nat) (message : string)
| TimerFires (t : TimerId) (throws : option string).

(** An event of a channel reaches the code only while the handlers of that
    channel are attached. *)
Definition on_channel (channel : nat) (r : option ReadyState)
  (handler : PromiseId -> WebSocketConnection -> WebSocketConnection * list Effect)
  (c : WebSocketConnection) : WebSocketConnection * list Effect :=
  match sockets c !! channel with
  | Some sock =>
      let c1 := match r with
                | Some r' => set_socket channel (in_state r') c
                | None => c
                end in
      if attached sock then handler (socket_promise sock) c1 else (c1, [])
  | None => (c, [])
  end.

Definition step (c : WebSocketConnection) (ev : Event)
  : WebSocketConnection * list Effect :=
  match ev with
  | CallConnect throws => let '(c1, _, fx) := connect throws c in (c1, fx)
  | CallSend data => send data c
  | CallClose => close c
  | WsOpen channel => on_channel channel (Some OPEN) (fun _ c1 => (c1, [])) c
  | WsMessage channel frame =>
      on_channel channel None (fun p => onmessage p frame) c
  | WsClose channel code reason rnd =>
      on_channel channel (Some CLOSED)
        (fun p => onclose p code reason rnd) c
  | WsError channel message =>
      on_channel channel None (fun _ => onerror message) c
  | TimerFires t throws => reconnect_fires t throws c
  end.

Fixpoint run (c : WebSocketConnection) (evs : list Event)
  : WebSocketConnection * list Effect :=
  match evs with
  | [] => (c, [])
  | ev :: rest =>
      let '(c1, fx1) := step c ev in
      let '(c2, fx2) := run c1 rest in
      (c2, fx1 ++ fx2)
  end.

Definition reachable (opts : ResolvedWebSocketOptions)
  (c : WebSocketConnection) : Prop :=
  exists evs, (run (new_WebSocketConnection opts) evs).1 = c.

(** What holds of every connection between two segments: [_connected]
    follows [_status], and no attempt is in flight while connected. *)
Definition coherent (c : WebSocketConnection) : Prop :=
  _connected c = bool_decide (_status c = connected)
  /\ (_connected c = true -> connectPromise c = None).

End Connection.

(** ** Observations of a run of the session *)
Module SessionRuns.
Import Session.

(** The segments that call [sendAndWaitForAck]. *)
Definition is_send (ev : Event) : bool :=
  match ev with
  | ResumeLog _ _ _ | ResumeAsk _ _ _ => true
  | _ => false
  end.

Definition sends (evs : list Event) : nat := length (List.filter is_send evs).

(** The message ids whose pending question a segment may replace or
    retire: the id of the ack (a question recorded under an id that is
    already pending replaces the entry), the id of the update, the id the
    timer captured, every id on invalidation and on [close]. *)
Definition addressed (s : Session) (ev : Event) : list string :=
  match ev with
  | MessageAck data_id => [data_id]
  | MessageUpdated raw => [api_id raw]
  | TimerFires t =>
      match find_timer t (timers s) with
      | Some tm => [timer_messageId tm]
      | None => []
      end
  | Disconnected code =>
      if decide (code = Some SESSION_EXPIRED_CLOSE_CODE)
      then JSMap.keys (pendingQuestions s) else []
  | CallClose => JSMap.keys (pendingQuestions s)
  | _ => []
  end.

End SessionRuns.

(** ** [src/utils/transform.ts], [src/resources/sessions.ts]: from the
    response of the API to a [Session] *)
Module Transform.
Import Session.

Record ApiRecipient : Type := {
  recipient_id : string;
  api_name : string;
  api_email : option string;
  external_id : option string;
  recipient_created_at : string
}.

Definition transformRecipient (api : ApiRecipient) : Recipient :=
  {| recipientId := recipient_id api; recipient_name := api_name api;
     email := api_email api; externalId := external_id api;
     recipient_createdAt := recipient_created_at api |}.

Record ApiSessionData : Type := {
  session_id : string;
  api_session_name : string;
  retention_months : Z;
  session_created_at : string;
  expires_at : string;
  last_message_at : option string;
  api_recipients : option (list ApiRecipient)
}.

Record SessionData : Type := {
  sessionId : string;
  session_name : string;
  retentionMonths : Z;
  session_createdAt : string;
  expiresAt : string;
  lastMessageAt : option string;
  data_recipients : option (list Recipient)
}.

(** [recipients: api.recipients?.map(transformRecipient)] *)
Definition transformSessionData (api : ApiSessionData) : SessionData :=
  {| sessionId := session_id api; session_name := api_session_name api;
     retentionMonths := retention_months api;
     session_createdAt := session_created_at api;
     expiresAt := expires_at api; lastMessageAt := last_message_at api;
     data_recipients :=
       fmap (M:=option) (fmap (M:=list) transformRecipient)
         (api_recipients api) |}.

(** [new Session(transformSessionData(apiResponse), this.options)], the
    value of [create] and of [resume] once the request returned. *)
Definition session_of_response (apiResponse : ApiSessionData) : Session :=
  new_Session (data_recipients (transformSessionData apiResponse)).

End Transform.

(** ** [createWebSocketConnection] and observations of a run of the
    connection *)
Module ConnectionRuns.
Import Number Connection.

(** [WebSocketOptions] of [src/types/websocket.ts]: every field optional. *)
Record WebSocketOptions : Type := {
  ws_autoReconnect : option bool;
  ws_maxReconnectAttempts : option Z;
  ws_reconnectDelay : option double
}.

(** The fields of [ResolvedClientOptions] the connection reads. *)
Record ResolvedClientOptions : Type := {
  apiKey : string;
  baseUrl : string
}.

(** [baseUrl.replace(/^http/, ...)]: only a leading [http] is replaced. *)
Definition replace_leading_http (by_ : string) (s : string) : string :=
  match s with
  | String "h" (String "t" (String "t" (String "p" rest))) => by_ +:+ rest
  | _ => s
  end.

(** [createWebSocketConnection]: the URL and the connection. [??] keeps a
    given [false] or [0]. *)
Definition createWebSocketConnection (client : ResolvedClientOptions)
  (sessionId : string) (wsOptions : WebSocketOptions)
  : string * WebSocketConnection :=
  let base := replace_leading_http "ws" (baseUrl client) in
  let url := base +:+ "/sessions/" +:+ sessionId +:+ "/ws" in
  (url,
   new_WebSocketConnection
     {| autoReconnect := default true (ws_autoReconnect wsOptions);
        maxReconnectAttempts :=
          default 5%Z (ws_maxReconnectAttempts wsOptions);
        reconnectDelay := default (of_Z 1000) (ws_reconnectDelay wsOptions);
        headers := [("Authorization", "Bearer " +:+ apiKey client)] |}).

(** The statuses handed to the [statusChange] listeners, in order. *)
Definition status_change (e : Effect) : option ConnectionStatus :=
  match e with
  | Emit (emit_statusChange status) => Some status
  | _ => None
  end.

Definition status_changes (fx : list Effect) : list ConnectionStatus :=
  omap status_change fx.

(** No two neighbours of the list are equal. *)
Fixpoint no_stutter (l : list ConnectionStatus) : Prop :=
  match l with
  | a :: (b :: _) as rest => a ≠ b /\ no_stutter rest
  | _ => True
  end.

(** From status [a], the changes [l] lead to status [b], each one to a
    status other than the one before. *)
Fixpoint chain (a : ConnectionStatus) (l : list ConnectionStatus)
  (b : ConnectionStatus) : Prop :=
  match l with
  | [] => a = b
  | x :: rest => a ≠ x /\ chain x rest b
  end.

(** The retries a segment schedules and the channels it opens. *)
Definition schedules_retry (e : Effect) : bool :=
  match e with
  | SetTimeout _ _ => true
  | _ => false
  end.

Definition opens_channel (e : Effect) : bool :=
  match e with
  | NewWebSocket _ => true
  | _ => false
  end.

(** The channel whose handler an event invokes. *)
Definition channel_of (ev : Event) : option nat :=
  match ev with
  | WsOpen channel | WsMessage channel _ | WsClose channel _ _ _
  | WsError channel _ => Some channel
  | _ => None
  end.

Definition is_close (ev : Event) : bool :=
  match ev with
  | CallClose => true
  | _ => false
  end.

End ConnectionRuns.

(** ** [on], [off] and [emit] of [WebSocketConnection] *)
Module Dispatcher.

(** [keyof WebSocketEvents] *)
Inductive EventName : Type :=
| on_connected | on_message | on_messageUpdated | on_messageAck | on_error
| on_disconnected | on_statusChange.

#[global] Instance EventName_eq_dec : EqDecision EventName.
Proof. solve_decision. Defined.

(** A callback is a function value; [Set] tells them apart by identity. *)
Abbreviation Callback := nat.

(** [Map<event, Set<callback>>]: the events and, for each, the callbacks,
    both in insertion order. *)
Abbreviation Listeners := (list (EventName * list Callback)).

(** [set.add(callback)] and [set.delete(callback)] *)
Definition Set_add (callback : Callback) (set : list Callback)
  : list Callback :=
  if decide (callback ∈ set) then set else set ++ [callback].

Definition Set_delete (callback : Callback) (set : list Callback)
  : list Callback :=
  filter (fun x => x ≠ callback) set.

(** [off], which is also the function [on] returns. *)
Definition off (event : EventName) (callback : Callback) (l : Listeners)
  : Listeners :=
  match JSMap.get event l with
  | Some set => JSMap.set event (Set_delete callback set) l
  | None => l
  end.

(** [on]: the listeners after the call and the unsubscribe function. *)
Definition on (event : EventName) (callback : Callback) (l : Listeners)
  : Listeners * (Listeners -> Listeners) :=
  let l1 := match JSMap.get event l with
            | Some _ => l
            | None => JSMap.set event [] l
            end in
  let l2 := match JSMap.get event l1 with
            | Some set => JSMap.set event (Set_add callback set) l1
            | None => l1
            end in
  (l2, off event callback).

(** [listeners.get(event)], an absent set read as empty. *)
Definition listeners_of (event : EventName) (l : Listeners) : list Callback :=
  default [] (JSMap.get event l).

(** What one call of a callback by [emit] does: it returns, or it throws
    and [emit] logs the error and goes on. *)
Inductive Call : Type :=
| Returned (callback : Callback)
| Logged (callback : Callback).

Definition called (c : Call) : Callback :=
  match c with
  | Returned callback | Logged callback => callback
  end.

(** [emit], for callbacks that do not subscribe or unsubscribe while they
    run; [throws] tells which callbacks throw on these arguments. *)
Definition emit (event : EventName) (throws : Callback -> bool)
  (l : Listeners) : list Call :=
  match JSMap.get event l with
  | Some callbacks =>
      map (fun callback =>
             if throws callback then Logged callback else Returned callback)
        callbacks
  | None => []
  end.

(** Calls of [on] and [off], and of the function an earlier [on] returned,
    which is [off] of the same event and callback. *)
Inductive Op : Type :=
| On (event : EventName) (callback : Callback)
| Off (event : EventName) (callback : Callback).

Definition apply_op (l : Listeners) (op : Op) : Listeners :=
  match op with
  | On event callback => (on event callback l).1
  | Off event callback => off event callback l
  end.

(** Whether the last call about [callback] on [event] subscribed it. *)
Fixpoint subscribed (event : EventName) (callback : Callback)
  (ops : list Op) (before : bool) : bool :=
  match ops with
  | [] => before
  | On e c :: rest =>
      subscribed event callback rest
        (if decide (e = event /\ c = callback) then true else before)
  | Off e c :: rest =>
      subscribed event callback rest
        (if decide (e = event /\ c = callback) then false else before)
  end.

End Dispatcher.

(** ** How the session listens to its connection *)
Module Wiring.

(** The three listeners [setupConnectionHandlers] registers, as the event
    of the session each emitted event becomes; [Session] registers no
    listener for the other events. *)
Definition session_event (e : Connection.Emitted) : option Session.Event :=
  match e with
  | Connection.emit_messageAck id => Some (Session.MessageAck id)
  | Connection.emit_messageUpdated data => Some (Session.MessageUpdated data)
  | Connection.emit_disconnected code _ => Some (Session.Disconnected (Some code))
  | _ => None
  end.

Definition emitted (e : Connection.Effect) : option Session.Event :=
  match e with
  | Connection.Emit x => session_event x
  | _ => None
  end.

(** The session after its listeners ran for every [emit] of a segment of
    the connection, in order. *)
Definition deliver (fx : list Connection.Effect) (s : Session.Session)
  : Session.Session * list Session.Effect :=
  Session.run s (omap emitted fx).

End Wiring.

(** ** [src/pagination.ts] *)
Module Pagination.
Section Pagination.
Context {T St E : Type}.

(** [PaginatedResponse<T>] of [src/types/api.ts] *)
Record PaginatedResponse : Type := {
  data : list T;
  nextCursor : option string
}.

(** What [await fetcher(cursor)] gives: a page, or the error the promise
    was rejected with. *)
Inductive Fetched : Type :=
| Page (response : PaginatedResponse)
| Rejects (error : E).

(** A fetcher reads and changes the state of the server. *)
Definition Fetcher : Type := St -> option string -> St * Fetched.

(** [cursor = response.nextCursor ?? undefined] under [while (cursor)]:
    the loop goes on with a cursor that is a string other than the empty
    one. *)
Definition next_cursor (response : PaginatedResponse) : option string :=
  match nextCursor response with
  | Some EmptyString => None
  | c => c
  end.

Inductive Outcome : Type :=
| Done
| Thrown (error : E)
| Unfinished.

(** A consumer that takes every item: the items yielded in order, the
    calls of the fetcher with what they gave, and how the generator
    ended. *)
Record Drained : Type := {
  yielded : list T;
  calls : list (option string * Fetched);
  outcome : Outcome;
  server : St
}.

(** [paginate], drained. The loop ends when the server says so; [fuel]
    bounds the number of calls of the fetcher. *)
Fixpoint paginate (fuel : nat) (fetcher : Fetcher) (st : St)
  (cursor : option string) : Drained :=
  match fuel with
  | 0 => {| yielded := []; calls := []; outcome := Unfinished; server := st |}
  | S fuel' =>
      match fetcher st cursor with
      | (st', Rejects e) =>
          {| yielded := []; calls := [(cursor, Rejects e)];
             outcome := Thrown e; server := st' |}
      | (st', Page response) =>
          match next_cursor response with
          | None =>
              {| yielded := data response;
                 calls := [(cursor, Page response)];
                 outcome := Done; server := st' |}
          | Some c =>
              let rest := paginate fuel' fetcher st' (Some c) in
              {| yielded := data response ++ yielded rest;
                 calls := (cursor, Page response) :: calls rest;
                 outcome := outcome rest; server := server rest |}
          end
      end
  end.

(** [collect(paginate(fetcher))]: the array, the rejection, or [None]
    while the loop has not ended. *)
Definition collect (fuel : nat) (fetcher : Fetcher) (st : St)
  : option (list T + E) :=
  let r := paginate fuel fetcher st None in
  match outcome r with
  | Done => Some (inl (yielded r))
  | Thrown e => Some (inr e)
  | Unfinished => None
  end.

Definition page_data (call : option string * Fetched) : list T :=
  match call.2 with
  | Page response => data response
  | Rejects _ => []
  end.

(** From [cursor] on, the server hands out [pages] and then says that
    there are no more. *)
Inductive serves (fetcher : Fetcher) : St -> option string ->
  list (list T) -> Prop :=
| serves_last st cursor st' response :
    fetcher st cursor = (st', Page response) ->
    next_cursor response = None ->
    serves fetcher st cursor [data response]
| serves_more st cursor st' response c pages :
    fetcher st cursor = (st', Page response) ->
    next_cursor response = Some c ->
    serves fetcher st' (Some c) pages ->
    serves fetcher st cursor (data response :: pages).

End Pagination.
Arguments PaginatedResponse : clear implicits.
Arguments Fetched : clear implicits.
Arguments Fetcher : clear implicits.
Arguments Outcome : clear implicits.
Arguments Drained : clear implicits.
End Pagination.

(** ** Sample values, for the examples and the instances of the theorems *)
Module Samples.
Import Session.

Definition sample_inputs : list Inputs.Input :=
  [Inputs.confirm {| Inputs.confirm_name := "approved";
                     Inputs.confirm_label := None;
                     Inputs.defaultValue := None |};
   Inputs.text {| Inputs.text_name := "notes"; Inputs.text_label := None;
                  Inputs.placeholder := None; Inputs.text_required := None;
                  Inputs.multiline := None; Inputs.maxLength := None |}].

Definition sample_recipient : Recipient :=
  {| recipientId := "rec_1"; recipient_name := "Ann"; email := None;
     externalId := None; recipient_createdAt := "2024-01-01" |}.

Definition sample_session : Session := new_Session (Some [sample_recipient]).

Definition no_log_options : LogOptions := {| log_persist := None |}.

Definition sample_ask_options : AskOptions :=
  {| ask_inputs := sample_inputs; ask_timeout := None; ask_persist := None |}.

(** A [message_updated] payload: the question [id] answered with [rc]. *)
Definition response (id : string) (rc : string) : ApiMessage :=
  {| api_id := id; api_role := role_agent; api_type := type_ask;
     api_content := "Deploy?"; api_inputs := None; sender_id := None;
     response_content := Some rc; responded_at := None; responded_by := None;
     api_persist := true; created_at := "2024-01-01" |}.

(** The parsed update of message [m1], answered with [rc]. *)
Definition answer (rc : string) : Message :=
  {| msg_id := "m1"; msg_role := role_agent; msg_type := type_ask;
     content := "Deploy?"; inputs := None; senderId := None;
     responseContent := Some rc; respondedAt := None; respondedBy := None;
     persist := true; createdAt := "2024-01-01" |}.

(** One [log] sent and not yet acknowledged. *)
Definition one_log_pending : Session :=
  (run sample_session [ResumeLog "a" no_log_options true]).1.

(** One [ask] sent and acknowledged as message [m1], not yet answered. *)
Definition one_question_pending : Session :=
  (run sample_session
     [ResumeAsk "Deploy?" sample_ask_options true; MessageAck "m1"]).1.

(** The same, and one [log] sent and not yet acknowledged. *)
Definition one_question_one_ack : Session :=
  (run sample_session
     [ResumeAsk "Deploy?" sample_ask_options true; MessageAck "m1";
      ResumeLog "b" no_log_options true]).1.

Definition sample_connection : Connection.WebSocketConnection :=
  Connection.new_WebSocketConnection (Connection.default_options "key").

(** After [connect()] and the handshake frame of the server. *)
Definition connected_sample : Connection.WebSocketConnection :=
  (Connection.run sample_connection
     [Connection.CallConnect None;
      Connection.WsMessage 0 (Some Connection.connected_event)]).1.

(** A server with two pages of numbers. *)
Definition two_pages : Pagination.Fetcher nat unit string :=
  fun st cursor =>
    match cursor with
    | None =>
        (st, Pagination.Page
               {| Pagination.data := [1; 2];
                  Pagination.nextCursor := Some "c1" |})
    | Some "c1" =>
        (st, Pagination.Page
               {| Pagination.data := [3]; Pagination.nextCursor := None |})
    | Some _ => (st, Pagination.Rejects "unknown cursor")
    end.

End Samples.

(** * Properties *)

(** ** The input/response contract *)
Module ContractProofs.
Import Inputs Samples.

(** [JSON.parse] on the payloads of the specification and on some
    malformed texts. *)
Example JSON_parse_object :
  JSON_parse ("{" +:+ quoted "approved" +:+ ":true," +:+ quoted "notes"
              +:+ ":" +:+ quoted "ok" +:+ "}")
  = Some (JObject [(units "approved", JBool true);
                   (units "notes", JString (units "ok"))]).
Proof. reflexivity. Qed.

Example JSON_parse_samples :
  JSON_parse "yes" = None
  /\ JSON_parse (quoted "yes") = Some (JString (units "yes"))
  /\ JSON_parse "42" = Some (JNumber "42")
  /\ JSON_parse " [1, -2.5e3 ,[ ] , null] "
     = Some (JArray [JNumber "1"; JNumber "-2.5e3"; JArray []; JNull])
  /\ JSON_parse "[1,]" = None
  /\ JSON_parse "01" = None
  /\ JSON_parse "{}x" = None
  /\ JSON_parse (quoted "a\u0041\n") = Some (JString [97; 65; 10]%N)
  /\ JSON_parse EmptyString = None.
Proof. repeat split; reflexivity. Qed.

Lemma add_property_comm a b (m : ObjectType) :
  add_property a (add_property b m) = add_property b (add_property a m).
Proof.
  unfold add_property. destruct (decide (name a = name b)) as [E|N].
  - rewrite E, !lookup_insert_eq, !insert_insert_eq. f_equal. simpl.
    set_solver.
  - rewrite !lookup_insert_ne by done. by apply insert_insert_ne.
Qed.

Lemma ResponseFromInputs_perm T T' :
  T' ≡ₚ T -> ResponseFromInputs T' = ResponseFromInputs T.
Proof.
  intros Hp. unfold ResponseFromInputs.
  apply (foldr_permutation (=) add_property ∅); [|done].
  intros j1 a1 j2 a2 b _ _ _. apply add_property_comm.
Qed.

Lemma ResponseFromInputs_dom T :
  dom (ResponseFromInputs T) = list_to_set (name <$> T).
Proof.
  induction T as [|i T IH]; simpl.
  - apply dom_empty_L.
  - unfold add_property. by rewrite dom_insert_L, IH.
Qed.

Lemma ResponseFromInputs_lookup T i :
  NoDup (name <$> T) -> i ∈ T ->
  ResponseFromInputs T !! name i = Some {[ResponseTypeFromInput i]}.
Proof.
  induction T as [|j T IH]; simpl; [by intros _ ?%elem_of_nil|].
  intros [Hj HT]%NoDup_cons [->|Hi]%elem_of_cons; unfold add_property.
  - rewrite lookup_insert_eq. f_equal.
    assert (ResponseFromInputs T !! name j = None) as ->.
    { apply not_elem_of_dom. rewrite ResponseFromInputs_dom.
      by rewrite elem_of_list_to_set. }
    simpl. set_solver.
  - rewrite lookup_insert_ne; [by apply IH|].
    intros Heq. apply Hj. rewrite Heq. apply list_elem_of_fmap. by exists i.
Qed.

(** C3. For descriptors with distinct names the derived response type has
    exactly the declared names as properties; the property of a descriptor
    has the type of its kind: [boolean] for confirm, [string[]] for select
    with [multiple: true], [string] for select without it and for text;
    and a permutation of the descriptors derives the same type. *)
Theorem derived_response_shape (T : list Input) :
  NoDup (name <$> T) ->
  dom (ResponseFromInputs T) = list_to_set (name <$> T)
  /\ (forall i, i ∈ T ->
        ResponseFromInputs T !! name i = Some {[ResponseTypeFromInput i]})
  /\ (forall c, ResponseTypeFromInput (confirm c) = TBoolean)
  /\ (forall s, multiple s = Some true ->
        ResponseTypeFromInput (select s) = TStringArray)
  /\ (forall s, multiple s ≠ Some true ->
        ResponseTypeFromInput (select s) = TString)
  /\ (forall t, ResponseTypeFromInput (text t) = TString)
  /\ (forall T', T' ≡ₚ T -> ResponseFromInputs T' = ResponseFromInputs T).
Proof.
  intros Hnd. split_and!.
  - apply ResponseFromInputs_dom.
  - intros i. by apply ResponseFromInputs_lookup.
  - done.
  - intros s Hm. simpl. by rewrite Hm.
  - intros s Hm. simpl. by destruct (multiple s) as [[]|].
  - done.
  - intros T'. apply ResponseFromInputs_perm.
Qed.

Lemma derived_response_shape_witness :
  ResponseFromInputs sample_inputs
  = {[ "approved" := {[TBoolean]}; "notes" := {[TString]} ]}
  /\ ResponseFromInputs (reverse sample_inputs)
     = ResponseFromInputs sample_inputs.
Proof.
  destruct (derived_response_shape sample_inputs) as (_ & _ & _ & _ & _ & _ & H).
  - vm_compute. repeat constructor; set_solver.
  - split; [|apply H, reverse_Permutation].
    apply map_eq. intros k. vm_compute. reflexivity.
Defined.
End ContractProofs.

(** ** JS [Map] *)
Module JSMapFacts.
Section JSMapFacts.
Context {K V : Type} `{EqDecision K}.
Implicit Types (m : list (K * V)) (k : K) (v : V).

Lemma set_fresh k v m :
  k ∉ JSMap.keys m -> JSMap.set k v m = m ++ [(k, v)].
Proof.
  induction m as [|[k' v'] m IH]; simpl; [done|].
  intros Hk. apply not_elem_of_cons in Hk as [Hne Hk].
  rewrite decide_False by done. by rewrite IH.
Qed.

Lemma keys_set_present k v m :
  k ∈ JSMap.keys m -> JSMap.keys (JSMap.set k v m) = JSMap.keys m.
Proof.
  unfold JSMap.keys.
  induction m as [|[k' v'] m IH]; simpl; [by intros ?%elem_of_nil|].
  intros Hk. destruct (decide (k' = k)) as [->|Hne]; simpl; [done|].
  apply elem_of_cons in Hk as [->|Hk]; [done|]. f_equal. by apply IH.
Qed.

Lemma keys_set k v m :
  JSMap.keys (JSMap.set k v m)
  = if decide (k ∈ JSMap.keys m) then JSMap.keys m else JSMap.keys m ++ [k].
Proof.
  case_decide as Hk.
  - by apply keys_set_present.
  - rewrite set_fresh by done. unfold JSMap.keys. by rewrite fmap_app.
Qed.

Lemma set_NoDup k v m :
  NoDup (JSMap.keys m) -> NoDup (JSMap.keys (JSMap.set k v m)).
Proof.
  intros Hm. rewrite keys_set. case_decide; [done|].
  apply NoDup_app. split_and!; [done| |apply NoDup_singleton].
  intros x Hx ->%list_elem_of_singleton. done.
Qed.

Lemma elem_of_set e k v m :
  NoDup (JSMap.keys m) ->
  e ∈ JSMap.set k v m -> e = (k, v) \/ (e ∈ m /\ e.1 ≠ k).
Proof.
  unfold JSMap.keys.
  induction m as [|[k' v'] m IH]; simpl.
  - intros _ ->%list_elem_of_singleton. by left.
  - intros [Hk' Hm]%NoDup_cons. destruct (decide (k' = k)) as [->|Hne].
    + intros [->|He]%elem_of_cons; [by left|]. right. split; [by right|].
      intros <-. apply Hk'. apply list_elem_of_fmap. by exists e.
    + intros [->|He]%elem_of_cons.
      * right. split; [left|done].
      * destruct (IH Hm He) as [->|[? ?]]; [by left|right].
        split; [by right|done].
Qed.

Lemma elem_of_set_new k v m : (k, v) ∈ JSMap.set k v m.
Proof.
  induction m as [|[k' v'] m IH]; simpl; [left|].
  destruct (decide (k' = k)); [left|by right].
Qed.

Lemma elem_of_delete e k m :
  NoDup (JSMap.keys m) ->
  e ∈ JSMap.delete k m <-> e ∈ m /\ e.1 ≠ k.
Proof.
  unfold JSMap.keys.
  induction m as [|[k' v'] m IH]; simpl.
  - intros _. split; [by intros ?%elem_of_nil|by intros [?%elem_of_nil _]].
  - intros [Hk' Hm]%NoDup_cons. destruct (decide (k' = k)) as [->|Hne].
    + split.
      * intros He. split; [by right|]. intros <-. apply Hk'.
        apply list_elem_of_fmap. by exists e.
      * intros [[->|He]%elem_of_cons Hne]; [done|done].
    + rewrite !elem_of_cons, (IH Hm). split.
      * intros [->|[? ?]]; [split; [by left|done]|split; [by right|done]].
      * intros [[->|?] ?]; [by left|by right].
Qed.

Lemma keys_delete_sublist k m :
  JSMap.keys (JSMap.delete k m) `sublist_of` JSMap.keys m.
Proof.
  unfold JSMap.keys.
  induction m as [|[k' v'] m IH]; simpl; [done|].
  destruct (decide (k' = k)); simpl; [by apply sublist_cons|by apply sublist_skip].
Qed.

Lemma delete_sublist k m : JSMap.delete k m `sublist_of` m.
Proof.
  induction m as [|[k' v'] m IH]; simpl; [done|].
  destruct (decide (k' = k)); simpl; [by apply sublist_cons|by apply sublist_skip].
Qed.

Lemma not_elem_of_keys_delete k m :
  NoDup (JSMap.keys m) -> k ∉ JSMap.keys (JSMap.delete k m).
Proof.
  intros Hm Hk. unfold JSMap.keys in Hk.
  apply list_elem_of_fmap in Hk as [e [-> He]].
  apply elem_of_delete in He as [_ Hne]; done.
Qed.

Lemma get_Some k v m : JSMap.get k m = Some v -> (k, v) ∈ m.
Proof.
  induction m as [|[k' v'] m IH]; simpl; [done|].
  destruct (decide (k' = k)) as [->|Hne].
  - intros [= ->]. left.
  - intros Hg. right. by apply IH.
Qed.

Lemma get_None k m : JSMap.get k m = None <-> k ∉ JSMap.keys m.
Proof.
  unfold JSMap.keys.
  induction m as [|[k' v'] m IH]; simpl.
  - split; [intros _; apply not_elem_of_nil|done].
  - destruct (decide (k' = k)) as [->|Hne].
    + split; [done|]. intros Hk. exfalso. apply Hk. left.
    + rewrite IH, not_elem_of_cons. naive_solver.
Qed.

Lemma delete_absent k m : k ∉ JSMap.keys m -> JSMap.delete k m = m.
Proof.
  unfold JSMap.keys.
  induction m as [|[k' v'] m IH]; simpl; [done|].
  intros [Hne Hk]%not_elem_of_cons.
  rewrite decide_False by done. by rewrite IH.
Qed.
End JSMapFacts.
End JSMapFacts.

(** ** The correlation engine *)
Module SessionProofs.
Import Session JSMapFacts Samples.

(** *** The promise store *)

Lemma settle_length p st ps : length (settle p st ps) = length ps.
Proof. unfold settle. repeat case_match; try done. by rewrite length_insert. Qed.

Lemma settle_lookup_ne p q st ps : p ≠ q -> settle q st ps !! p = ps !! p.
Proof.
  intros Hne. unfold settle. repeat case_match; try done.
  by rewrite list_lookup_insert_ne.
Qed.

Lemma settle_pending q st ps r :
  ps !! q = Some {| state := Pending; role := r |} ->
  settle q st ps !! q = Some {| state := st; role := r |}.
Proof.
  intros Hq. unfold settle. rewrite Hq. simpl.
  apply list_lookup_insert_eq. by eapply lookup_lt_Some.
Qed.

Lemma settle_settled q st ps pr :
  ps !! q = Some pr -> state pr ≠ Pending -> settle q st ps = ps.
Proof. intros Hq Hs. unfold settle. rewrite Hq. by destruct (state pr). Qed.

(** Settling keeps every role, and keeps every promise that is settled. *)
Lemma settle_lookup p q st ps pr :
  ps !! p = Some pr ->
  exists pr', settle q st ps !! p = Some pr' /\ role pr' = role pr
              /\ (state pr ≠ Pending -> pr' = pr).
Proof.
  intros Hp. destruct (decide (p = q)) as [->|Hne].
  - destruct pr as [[] r].
    + exists {| state := st; role := r |}. split; [by apply settle_pending|done].
    + erewrite settle_settled by (by eauto). by exists {| state := Fulfilled v; role := r |}.
    + erewrite settle_settled by (by eauto). by exists {| state := Rejected e; role := r |}.
  - exists pr. by rewrite settle_lookup_ne.
Qed.

Lemma ack_ok_app ps l entry :
  ack_promise_ok ps entry -> ack_promise_ok (ps ++ l) entry.
Proof. intros (pr & Hp & Hr). exists pr. split; [by apply lookup_app_l_Some|done]. Qed.

Lemma ack_ok_settle q st ps entry :
  ack_promise_ok ps entry -> ack_promise_ok (settle q st ps) entry.
Proof.
  intros (pr & Hp & Hr). destruct (settle_lookup _ q st _ _ Hp) as (pr' & ? & Hr' & _).
  exists pr'. split; [done|]. by rewrite Hr'.
Qed.

Lemma awaiting_app ps l p :
  awaiting_response ps p -> awaiting_response (ps ++ l) p.
Proof. unfold awaiting_response. apply lookup_app_l_Some. Qed.

Lemma awaiting_settle_ne q st ps p :
  p ≠ q -> awaiting_response ps p -> awaiting_response (settle q st ps) p.
Proof. unfold awaiting_response. intros Hne Hp. by rewrite settle_lookup_ne. Qed.

Lemma awaiting_lt ps p : awaiting_response ps p -> p < length ps.
Proof. unfold awaiting_response. apply lookup_lt_Some. Qed.

(** A promise with the role of an ack is not the promise of a timer. *)
Lemma ack_not_awaiting ps p pr q :
  ps !! p = Some pr -> role pr ≠ Response -> awaiting_response ps q -> q ≠ p.
Proof. unfold awaiting_response. intros Hp Hr Hq ->. rewrite Hp in Hq. by simplify_eq. Qed.

Lemma fmap_inj_on {A B} (f : A -> B) (l : list A) x y :
  NoDup (f <$> l) -> x ∈ l -> y ∈ l -> f x = f y -> x = y.
Proof.
  induction l as [|a l IH]; simpl; [by intros _ ?%elem_of_nil|].
  intros [Ha Hl]%NoDup_cons [->|Hx]%elem_of_cons [->|Hy]%elem_of_cons Hf; try done.
  - exfalso. apply Ha. rewrite Hf. apply list_elem_of_fmap. by exists y.
  - exfalso. apply Ha. rewrite <- Hf. apply list_elem_of_fmap. by exists x.
  - by apply IH.
Qed.

Lemma Forall_sublist {A} (P : A -> Prop) (l1 l2 : list A) :
  l1 `sublist_of` l2 -> Forall P l2 -> Forall P l1.
Proof. rewrite !Forall_forall. eauto using elem_of_sublist. Qed.

Lemma StronglySorted_sublist {A} (R : relation A) (l1 l2 : list A) :
  l1 `sublist_of` l2 -> StronglySorted R l2 -> StronglySorted R l1.
Proof.
  induction 1 as [|x l1 l2 Hsub IH|x l1 l2 Hsub IH]; [done| |].
  - rewrite !StronglySorted_cons. intros [Hx Hl]. split; [|by apply IH].
    by eapply Forall_sublist.
  - rewrite StronglySorted_cons. intros [_ Hl]. by apply IH.
Qed.

Lemma sorted_lt_NoDup (l : list nat) : StronglySorted lt l -> NoDup l.
Proof.
  induction l as [|x l IH]; [constructor|].
  rewrite StronglySorted_cons, NoDup_cons. intros [Hx Hl]. split; [|by apply IH].
  intros Hin. rewrite Forall_forall in Hx. apply Hx in Hin. lia.
Qed.

(** *** The invariant is kept by every segment *)

Lemma wf_new r : wf (new_Session r).
Proof.
  split; simpl; try by constructor.
Qed.

Lemma wf_with_connection v s : wf s -> wf (with_connection v s).
Proof. intros []. by split. Qed.

Lemma wf_ensureConnected s : wf s -> wf (ensureConnected s).1.
Proof. intros Hs. unfold ensureConnected. case_match; [done|by apply wf_with_connection]. Qed.

Lemma ack_keys_fresh s : wf s -> S (ackCounter s) ∉ JSMap.keys (pendingAcks s).
Proof.
  intros Hs Hin. pose proof (wf_ack_bound s Hs) as Hb.
  rewrite Forall_forall in Hb. apply Hb in Hin. simpl in *. lia.
Qed.

Lemma wf_settle_ack p st s :
  (exists pr, promises s !! p = Some pr /\ role pr ≠ Response) ->
  wf s -> wf (settle_in p st s).
Proof.
  intros (pr & Hp & Hr) []. split; simpl; try done.
  - eapply Forall_impl; [exact wf_ack_role0|]. intros e. apply ack_ok_settle.
  - eapply Forall_impl; [exact wf_timer_pending0|]. intros t Ht. simpl in Ht.
    apply awaiting_settle_ne; [|done]. by eapply ack_not_awaiting.
Qed.

Lemma wf_sendAndWaitForAck r payload open s :
  r ≠ Response -> wf s -> wf (sendAndWaitForAck r payload open s).1.
Proof.
  intros Hr Hs.
  assert (wf (with_pendingAcks
                (JSMap.set (S (ackCounter s)) {| a_promise := length (promises s) |}
                   (pendingAcks s))
                (with_promises (promises s ++ [{| state := Pending; role := r |}])
                   (with_ackCounter (S (ackCounter s)) s)))) as Hs3.
  { pose proof (ack_keys_fresh s Hs) as Hfresh. destruct Hs.
    split; simpl; try done.
    - rewrite keys_set, decide_False by done.
      apply StronglySorted_app_2; [|done|repeat constructor].
      intros x1 x2 Hx1 ->%list_elem_of_singleton.
      rewrite Forall_forall in wf_ack_bound0. apply wf_ack_bound0 in Hx1. simpl in *. lia.
    - rewrite keys_set, decide_False by done.
      apply Forall_app. split; [|by repeat constructor].
      eapply Forall_impl; [exact wf_ack_bound0|]. intros ??; simpl in *; lia.
    - rewrite set_fresh by done. apply Forall_app. split.
      + eapply Forall_impl; [exact wf_ack_role0|]. intros e. apply ack_ok_app.
      + repeat constructor. eexists. split; [apply list_lookup_middle; done|done].
    - eapply Forall_impl; [exact wf_timer_pending0|]. intros t. apply awaiting_app. }
  unfold sendAndWaitForAck. destruct open; simpl; [done|].
  apply wf_settle_ack; [|done]. simpl.
  eexists. split; [apply list_lookup_middle; done|done].
Qed.

Lemma wf_await_response messageId timeout s :
  wf s -> wf (await_response messageId timeout s).1.
Proof.
  intros []. unfold await_response. split; simpl; try done.
  - eapply Forall_impl; [exact wf_ack_role0|]. intros e. apply ack_ok_app.
  - by apply set_NoDup.
  - apply Forall_forall. intros e He.
    apply elem_of_set in He; [|done]. destruct He as [->|[He Hne]].
    + eexists. split; [apply elem_of_app; right; by apply list_elem_of_singleton|done].
    + rewrite Forall_forall in wf_question_timer0.
      destruct (wf_question_timer0 e He) as (t & Ht & ?).
      exists t. split; [apply elem_of_app; by left|done].
  - rewrite fmap_app. apply NoDup_app. split_and!; [done| |apply NoDup_singleton].
    intros x Hx ->%list_elem_of_singleton.
    apply list_elem_of_fmap in Hx as (t & Hid & Ht).
    rewrite Forall_forall in wf_timer_fresh0. apply wf_timer_fresh0 in Ht. simpl in *. lia.
  - apply Forall_app. split; [|repeat constructor; simpl; lia].
    eapply Forall_impl; [exact wf_timer_fresh0|]. intros ??; simpl in *; lia.
  - rewrite fmap_app. apply NoDup_app. split_and!; [done| |apply NoDup_singleton].
    intros x Hx ->%list_elem_of_singleton.
    apply list_elem_of_fmap in Hx as (t & Hid & Ht).
    rewrite Forall_forall in wf_timer_pending0. apply wf_timer_pending0 in Ht.
    apply awaiting_lt in Ht. simpl in *. lia.
  - apply Forall_app. split.
    + eapply Forall_impl; [exact wf_timer_pending0|]. intros t. apply awaiting_app.
    + repeat constructor. simpl. unfold awaiting_response.
      by apply list_lookup_middle.
Qed.

Lemma wf_resolve_ack k pending messageId s :
  ack_promise_ok (promises s) (k, pending) ->
  wf s -> wf (resolve_ack pending messageId s).1.
Proof.
  intros (pr & Hp & Hr) Hs. simpl in Hp. unfold resolve_ack. rewrite Hp.
  destruct pr as [[] r]; simpl; try done.
  assert (wf (settle_in (a_promise pending)
                (Fulfilled (JString (units messageId))) s)) as Hs1.
  { apply wf_settle_ack; [|done]. by eexists. }
  destruct r; try done. by apply wf_await_response.
Qed.

Lemma wf_delete_ack k s :
  wf s -> wf (with_pendingAcks (JSMap.delete k (pendingAcks s)) s).
Proof.
  intros []. split; simpl; try done.
  - eapply StronglySorted_sublist; [|done]. apply keys_delete_sublist.
  - eapply Forall_sublist; [|exact wf_ack_bound0]. apply keys_delete_sublist.
  - eapply Forall_sublist; [|exact wf_ack_role0]. apply delete_sublist.
Qed.

Lemma wf_onMessageAck data_id s : wf s -> wf (onMessageAck data_id s).1.
Proof.
  intros Hs. unfold onMessageAck.
  destruct (decide (0 < JSMap.size (pendingAcks s))); [|done].
  destruct (JSMap.first_key (pendingAcks s)) as [firstKey|]; [|done].
  destruct (JSMap.get firstKey (pendingAcks s)) as [pending|] eqn:Hg; [|done].
  pose proof (wf_resolve_ack firstKey pending data_id
                (with_pendingAcks (JSMap.delete firstKey (pendingAcks s)) s)) as H.
  destruct (resolve_ack pending data_id _) as [s2 fx]. simpl in *.
  apply H; [|by apply wf_delete_ack].
  apply get_Some in Hg. pose proof (wf_ack_role s Hs) as Hr.
  rewrite Forall_forall in Hr. by apply Hr.
Qed.

Lemma find_timer_Some t ts tm :
  find_timer t ts = Some tm -> tm ∈ ts /\ timer_id tm = t.
Proof.
  unfold find_timer. intros Hh. apply head_Some_elem_of in Hh.
  apply list_elem_of_filter in Hh. naive_solver.
Qed.

Lemma find_timer_None t ts : find_timer t ts = None -> t ∉ timer_id <$> ts.
Proof.
  unfold find_timer. intros Hh Hin. apply head_None in Hh.
  apply list_elem_of_fmap in Hin as (tm & -> & Htm).
  assert (tm ∈ filter (fun x => timer_id x = timer_id tm) ts) as Hf
    by (by apply list_elem_of_filter).
  rewrite Hh in Hf. by apply elem_of_nil in Hf.
Qed.

(** Retiring a timer: it is unscheduled, the entry under its message id
    is deleted, its promise is settled. *)
Lemma wf_retire tm st s :
  wf s -> tm ∈ timers s ->
  wf (settle_in (timer_promise tm) st
        (with_pendingQuestions
           (JSMap.delete (timer_messageId tm)
              (pendingQuestions (clearTimeout (timer_id tm) s)))
           (clearTimeout (timer_id tm) s))).
Proof.
  intros [] Htm. split; simpl; try done.
  - eapply Forall_impl; [exact wf_ack_role0|]. intros e. apply ack_ok_settle.
  - eapply sublist_NoDup; [exact wf_question_keys0|]. apply keys_delete_sublist.
  - apply Forall_forall. intros e He.
    apply elem_of_delete in He as [He Hne]; [|done].
    rewrite Forall_forall in wf_question_timer0.
    destruct (wf_question_timer0 e He) as (t' & Ht' & Hid & Hp & Hm).
    exists t'. split; [|done]. apply list_elem_of_filter. split; [|done].
    intros Heq. apply Hne. rewrite <- Hm.
    by rewrite (fmap_inj_on timer_id (timers s) t' tm).
  - eapply sublist_NoDup; [exact wf_timer_ids0|]. apply fmap_sublist, sublist_filter.
  - eapply Forall_sublist; [apply sublist_filter|exact wf_timer_fresh0].
  - eapply sublist_NoDup; [exact wf_timer_promises0|]. apply fmap_sublist, sublist_filter.
  - apply Forall_forall. intros t' [Hne Ht']%list_elem_of_filter.
    rewrite Forall_forall in wf_timer_pending0.
    apply awaiting_settle_ne; [|by apply wf_timer_pending0].
    intros Heq. apply Hne.
    by rewrite (fmap_inj_on timer_promise (timers s) t' tm).
Qed.

Lemma wf_handleResponse message s : wf s -> wf (handleResponse message s).1.
Proof.
  intros Hs. unfold handleResponse.
  destruct (JSMap.get (msg_id message) (pendingQuestions s)) as [pending|] eqn:Hg;
    [|done].
  apply get_Some in Hg. pose proof (wf_question_timer s Hs) as Ht.
  rewrite Forall_forall in Ht.
  destruct (Ht _ Hg) as (tm & Htm & Hid & Hp & Hm). simpl in *.
  rewrite <- Hid, <- Hp, <- Hm. by apply wf_retire.
Qed.

Lemma wf_onMessageUpdated raw s : wf s -> wf (onMessageUpdated raw s).1.
Proof.
  intros Hs. unfold onMessageUpdated. repeat case_match; try done.
  by apply wf_handleResponse.
Qed.

Lemma wf_timeout_fires t s : wf s -> wf (timeout_fires t s).1.
Proof.
  intros Hs. unfold timeout_fires.
  destruct (find_timer t (timers s)) as [tm|] eqn:Hf; [|done].
  apply find_timer_Some in Hf as [Htm <-]. by apply wf_retire.
Qed.

(** *** The loops of the session-expired handler and of [close] *)

Lemma settle_all_lookup_notin qs st ps p :
  p ∉ qs -> settle_all qs st ps !! p = ps !! p.
Proof.
  revert ps. induction qs as [|q qs IH]; intros ps Hp; simpl; [done|].
  apply not_elem_of_cons in Hp as [Hne Hp].
  unfold settle_all in *. simpl. rewrite IH by done. by apply settle_lookup_ne.
Qed.

Lemma settle_all_settled qs st ps p pr :
  ps !! p = Some pr -> state pr ≠ Pending -> settle_all qs st ps !! p = Some pr.
Proof.
  revert ps. induction qs as [|q qs IH]; intros ps Hp Hs; simpl; [done|].
  unfold settle_all in *. simpl. apply IH; [|done].
  destruct (settle_lookup p q st ps pr Hp) as (pr' & Hl & _ & Heq).
  by rewrite Hl, (Heq Hs).
Qed.

Lemma settle_all_hit qs st ps p r :
  st ≠ Pending ->
  p ∈ qs -> ps !! p = Some {| state := Pending; role := r |} ->
  settle_all qs st ps !! p = Some {| state := st; role := r |}.
Proof.
  intros Hst. revert ps. induction qs as [|q qs IH]; intros ps Hp Hl.
  { by apply elem_of_nil in Hp. }
  unfold settle_all in *. simpl. destruct (decide (p = q)) as [->|Hne].
  - apply (settle_all_settled qs st); [by apply settle_pending|done].
  - apply elem_of_cons in Hp as [?|Hp]; [done|].
    apply IH; [done|]. by rewrite settle_lookup_ne.
Qed.

Lemma settle_all_role qs st ps p pr :
  ps !! p = Some pr ->
  exists pr', settle_all qs st ps !! p = Some pr' /\ role pr' = role pr.
Proof.
  revert ps pr. induction qs as [|q qs IH]; intros ps pr Hp; [by exists pr|].
  unfold settle_all in *. simpl.
  destruct (settle_lookup p q st ps pr Hp) as (pr1 & Hl & Hr & _).
  destruct (IH _ _ Hl) as (pr2 & ? & ?). exists pr2. split; [done|congruence].
Qed.

Lemma ack_ok_settle_all qs st ps entry :
  ack_promise_ok ps entry -> ack_promise_ok (settle_all qs st ps) entry.
Proof.
  intros (pr & Hp & Hr). destruct (settle_all_role qs st ps _ _ Hp) as (pr' & ? & Hr').
  exists pr'. split; [done|by rewrite Hr'].
Qed.

(** The state after the loop over the pending questions. *)
Lemma reject_questions_fold e qs s :
  let s' := foldl (reject_question e) s qs in
  connection s' = connection s
  /\ pendingQuestions s' = pendingQuestions s
  /\ pendingAcks s' = pendingAcks s
  /\ ackCounter s' = ackCounter s
  /\ recipients s' = recipients s
  /\ nextTimer s' = nextTimer s
  /\ promises s' = settle_all ((fun x => q_promise x.2) <$> qs) (Rejected e) (promises s)
  /\ timers s' `sublist_of` timers s
  /\ (forall t, t ∈ timers s' <->
        t ∈ timers s /\ timer_id t ∉ (fun x => timeoutId x.2) <$> qs).
Proof.
  cbv zeta. revert s. induction qs as [|q qs IH]; intros s; simpl.
  { split_and!; try done. intros t. split; [|naive_solver].
    intros Ht. split; [done|apply not_elem_of_nil]. }
  destruct (IH (reject_question e s q)) as (H1 & H2 & H3 & H4 & H5 & H6 & H7 & H8 & H9).
  split_and!; try done.
  - etrans; [done|]. apply sublist_filter.
  - intros t. rewrite H9. simpl. rewrite list_elem_of_filter, not_elem_of_cons.
    naive_solver.
Qed.

Lemma reject_acks_fold e qs s :
  let s' := foldl (reject_ack e) s qs in
  connection s' = connection s
  /\ pendingQuestions s' = pendingQuestions s
  /\ pendingAcks s' = pendingAcks s
  /\ ackCounter s' = ackCounter s
  /\ recipients s' = recipients s
  /\ nextTimer s' = nextTimer s
  /\ timers s' = timers s
  /\ promises s' = settle_all ((fun x => a_promise x.2) <$> qs) (Rejected e) (promises s).
Proof.
  cbv zeta. revert s. induction qs as [|q qs IH]; intros s; simpl; [done|].
  destruct (IH (reject_ack e s q)) as (H1 & H2 & H3 & H4 & H5 & H6 & H7 & H8).
  split_and!; done.
Qed.

Lemma wf_reject_questions e s : wf s -> wf (reject_questions e s).1.
Proof.
  intros Hs. unfold reject_questions. simpl.
  destruct (reject_questions_fold e (pendingQuestions s) s)
    as (H1 & H2 & H3 & H4 & H5 & H6 & H7 & H8 & H9).
  pose proof Hs as [].
  split; simpl; rewrite ?H3, ?H4, ?H6, ?H7; try done; try by constructor.
  - eapply Forall_impl; [exact wf_ack_role0|]. intros x. apply ack_ok_settle_all.
  - eapply sublist_NoDup; [exact wf_timer_ids0|]. by apply fmap_sublist.
  - eapply Forall_sublist; [exact H8|exact wf_timer_fresh0].
  - eapply sublist_NoDup; [exact wf_timer_promises0|]. by apply fmap_sublist.
  - apply Forall_forall. intros t [Ht Hnot]%H9.
    rewrite Forall_forall in wf_timer_pending0.
    unfold awaiting_response. rewrite settle_all_lookup_notin; [by apply wf_timer_pending0|].
    intros Hin. apply Hnot.
    apply list_elem_of_fmap in Hin as (x & Hx & Hxin).
    rewrite Forall_forall in wf_question_timer0.
    destruct (wf_question_timer0 x Hxin) as (tx & Htx & Hid & Hp & Hm).
    apply list_elem_of_fmap. exists x. split; [|done].
    rewrite <- Hid. f_equal.
    apply (fmap_inj_on timer_promise (timers s)); [done..|congruence].
Qed.

Lemma wf_reject_acks e s : wf s -> wf (reject_acks e s).1.
Proof.
  intros Hs. unfold reject_acks. simpl.
  destruct (reject_acks_fold e (pendingAcks s) s)
    as (H1 & H2 & H3 & H4 & H5 & H6 & H7 & H8).
  pose proof Hs as [].
  split; simpl; rewrite ?H2, ?H4, ?H6, ?H7, ?H8; try done; try by constructor.
  apply Forall_forall. intros t Ht.
  rewrite Forall_forall in wf_timer_pending0.
  unfold awaiting_response. rewrite settle_all_lookup_notin; [by apply wf_timer_pending0|].
  intros Hin. apply list_elem_of_fmap in Hin as (x & Hx & Hxin).
  rewrite Forall_forall in wf_ack_role0.
  destruct (wf_ack_role0 x Hxin) as (pr & Hp & Hr).
  apply wf_timer_pending0 in Ht. simpl in Ht.
  eapply ack_not_awaiting; [exact Hp|exact Hr|exact Ht|done].
Qed.

Lemma wf_onDisconnected code s : wf s -> wf (onDisconnected code s).1.
Proof.
  intros Hs. unfold onDisconnected. case_decide; [|done].
  pose proof (wf_reject_questions SessionExpired s Hs) as H1.
  destruct (reject_questions SessionExpired s) as [s1 fx1].
  pose proof (wf_reject_acks SessionExpired s1 H1) as H2.
  by destruct (reject_acks SessionExpired s1) as [s2 fx2].
Qed.

Lemma wf_close s : wf s -> wf (close s).1.
Proof.
  intros Hs. unfold close.
  pose proof (wf_reject_questions (PlainError "Session closed") s Hs) as H1.
  destruct (reject_questions _ s) as [s1 fx1].
  pose proof (wf_reject_acks (PlainError "Session closed") s1 H1) as H2.
  destruct (reject_acks _ s1) as [s2 fx2]. simpl in *.
  case_match; [by apply wf_with_connection|done].
Qed.

Lemma wf_step s ev : wf s -> wf (step s ev).1.
Proof.
  intros Hs. destruct ev; simpl.
  - by apply wf_ensureConnected.
  - by apply wf_sendAndWaitForAck.
  - unfold ask_begin. case_decide; [done|].
    pose proof (wf_ensureConnected s Hs). by destruct (ensureConnected s).
  - by apply wf_sendAndWaitForAck.
  - by apply wf_onMessageAck.
  - by apply wf_onMessageUpdated.
  - by apply wf_onDisconnected.
  - by apply wf_timeout_fires.
  - by apply wf_close.
Qed.

Lemma wf_run evs s : wf s -> wf (run s evs).1.
Proof.
  revert s. induction evs as [|ev evs IH]; intros s Hs; simpl; [done|].
  pose proof (wf_step s ev Hs) as H1. destruct (step s ev) as [s1 fx1].
  specialize (IH s1 H1). by destruct (run s1 evs).
Qed.

(** Every session reached from a new one is well formed. *)
Lemma wf_reachable r evs : wf (run (new_Session r) evs).1.
Proof. apply wf_run, wf_new. Qed.

(** *** Acknowledgments leave [pendingAcks] in the order of the sends *)

Lemma onMessageAck_empty data_id s :
  pendingAcks s = [] -> onMessageAck data_id s = (s, []).
Proof.
  intros H. unfold onMessageAck. rewrite H. unfold JSMap.size. simpl.
  destruct (decide (0 < 0)); [lia|done].
Qed.

Lemma onMessageAck_head data_id s k pending rest :
  pendingAcks s = (k, pending) :: rest ->
  onMessageAck data_id s
  = ((resolve_ack pending data_id (with_pendingAcks rest s)).1,
     AckResolve k data_id
     :: (resolve_ack pending data_id (with_pendingAcks rest s)).2).
Proof.
  intros H. unfold onMessageAck. rewrite H. unfold JSMap.size. simpl.
  destruct (decide (0 < S (length rest))); [|lia].
  rewrite !decide_True by done.
  by destruct (resolve_ack pending data_id _).
Qed.

Lemma await_response_frame messageId timeout s :
  let r := await_response messageId timeout s in
  pendingAcks r.1 = pendingAcks s /\ ackCounter r.1 = ackCounter s
  /\ departures r.2 = [] /\ (forall p, settlements p r.2 = 0)
  /\ promises r.1 = promises s ++ [{| state := Pending; role := Response |}].
Proof. done. Qed.

Lemma resolve_ack_frame pending messageId s :
  let r := resolve_ack pending messageId s in
  pendingAcks r.1 = pendingAcks s /\ ackCounter r.1 = ackCounter s
  /\ departures r.2 = [] /\ (forall p, settlements p r.2 = 0).
Proof.
  cbv zeta. unfold resolve_ack. repeat case_match; simplify_eq/=; done.
Qed.

Lemma departures_app fx1 fx2 :
  departures (fx1 ++ fx2) = departures fx1 ++ departures fx2.
Proof. apply omap_app. Qed.

Lemma acknowledged_app fx1 fx2 :
  acknowledged (fx1 ++ fx2) = acknowledged fx1 ++ acknowledged fx2.
Proof. apply omap_app. Qed.

Lemma acknowledged_sublist fx : acknowledged fx `sublist_of` departures fx.
Proof.
  induction fx as [|e fx IH]; [done|].
  destruct e; simpl; try done; unfold acknowledged, departures in *; simpl.
  - by apply sublist_skip.
  - by apply sublist_cons.
Qed.

Lemma departures_reject_questions e qs :
  departures
    (flat_map (fun entry : string * PendingQuestion =>
                 [ClearTimeout (timeoutId entry.2);
                  QuestionReject (q_promise entry.2) e]) qs) = [].
Proof. induction qs as [|q qs IH]; [done|]. simpl. exact IH. Qed.

Lemma departures_reject_acks e (qs : list (nat * PendingAck)) :
  departures (map (fun entry => AckReject entry.1 e) qs) = JSMap.keys qs.
Proof.
  induction qs as [|q qs IH]; [done|].
  unfold departures, JSMap.keys in *. simpl. by f_equal.
Qed.

Lemma reject_all_queue e s :
  let r1 := reject_questions e s in
  let r2 := reject_acks e r1.1 in
  pendingAcks r2.1 = [] /\ ackCounter r2.1 = ackCounter s
  /\ departures (r1.2 ++ r2.2) = JSMap.keys (pendingAcks s).
Proof.
  cbv zeta. unfold reject_questions, reject_acks, JSMap.clear. simpl.
  destruct (reject_questions_fold e (pendingQuestions s) s)
    as (H1 & H2 & H3 & H4 & H5 & H6 & H7 & H8 & H9).
  destruct (reject_acks_fold e (pendingAcks s)
              (with_pendingQuestions [] (foldl (reject_question e) s (pendingQuestions s))))
    as (G1 & G2 & G3 & G4 & G5 & G6 & G7 & G8).
  simpl in *. rewrite H3. split_and!; [done|by rewrite G4|].
  by rewrite departures_app, departures_reject_questions, departures_reject_acks.
Qed.

(** One segment: what was pending, then what was sent, is what left, then
    what is pending. *)
Lemma step_queue s ev :
  wf s ->
  ackCounter s <= ackCounter (step s ev).1
  /\ JSMap.keys (pendingAcks s)
     ++ seq (S (ackCounter s)) (ackCounter (step s ev).1 - ackCounter s)
     = departures (step s ev).2 ++ JSMap.keys (pendingAcks (step s ev).1).
Proof.
  intros Hs.
  assert (forall r payload open,
    let x := sendAndWaitForAck r payload open s in
    ackCounter s <= ackCounter x.1
    /\ JSMap.keys (pendingAcks s)
       ++ seq (S (ackCounter s)) (ackCounter x.1 - ackCounter s)
       = departures x.2 ++ JSMap.keys (pendingAcks x.1)) as Hsend.
  { intros r payload open. cbv zeta. unfold sendAndWaitForAck.
    pose proof (ack_keys_fresh s Hs) as Hfresh.
    destruct open; simpl; (split; [lia|]);
      rewrite keys_set, decide_False by done;
      replace (S (ackCounter s) - ackCounter s) with 1 by lia; done. }
  assert (forall e,
    let r1 := reject_questions e s in
    let r2 := reject_acks e r1.1 in
    ackCounter s <= ackCounter r2.1
    /\ JSMap.keys (pendingAcks s)
       ++ seq (S (ackCounter s)) (ackCounter r2.1 - ackCounter s)
       = departures (r1.2 ++ r2.2) ++ JSMap.keys (pendingAcks r2.1)) as Hall.
  { intros e. cbv zeta. destruct (reject_all_queue e s) as (H1 & H2 & H3).
    rewrite H1, H2, H3, Nat.sub_diag. simpl. split; [lia|].
    by rewrite !app_nil_r. }
  destruct ev; simpl.
  - unfold log_begin, ensureConnected. case_match; simpl;
      rewrite Nat.sub_diag; simpl; by rewrite app_nil_r.
  - apply Hsend.
  - unfold ask_begin, ensureConnected. repeat case_match; simplify_eq/=;
      rewrite Nat.sub_diag; simpl; by rewrite app_nil_r.
  - apply Hsend.
  - destruct (pendingAcks s) as [|[k pending] rest] eqn:Hq.
    + rewrite onMessageAck_empty by done. simpl. rewrite Hq, Nat.sub_diag.
      simpl. done.
    + rewrite (onMessageAck_head _ _ _ _ _ Hq). simpl.
      destruct (resolve_ack_frame pending data_id (with_pendingAcks rest s))
        as (H1 & H2 & H3 & _). simpl in *.
      unfold departures in *. simpl. rewrite H1, H2, H3, Nat.sub_diag. simpl.
      split; [lia|]. by rewrite app_nil_r.
  - unfold onMessageUpdated, handleResponse. repeat case_match; simplify_eq/=;
      rewrite Nat.sub_diag; simpl; by rewrite app_nil_r.
  - unfold onDisconnected. case_decide.
    + specialize (Hall SessionExpired). cbv zeta in Hall.
      destruct (reject_questions SessionExpired s) as [s1 fx1].
      change ((s1, fx1).1) with s1 in *. change ((s1, fx1).2) with fx1 in *.
      by destruct (reject_acks SessionExpired s1) as [s2 fx2].
    + simpl. rewrite Nat.sub_diag. simpl. by rewrite app_nil_r.
  - unfold timeout_fires. repeat case_match; simplify_eq/=;
      rewrite Nat.sub_diag; simpl; by rewrite app_nil_r.
  - unfold close. specialize (Hall (PlainError "Session closed")).
    cbv zeta in Hall.
    destruct (reject_questions _ s) as [s1 fx1].
    change ((s1, fx1).1) with s1 in *. change ((s1, fx1).2) with fx1 in *.
    destruct (reject_acks _ s1) as [s2 fx2]. simpl in *.
    case_match; simpl; [|done].
    destruct Hall as [Hle Hq]. split; [done|].
    rewrite app_assoc, departures_app, Hq. unfold departures at 2. simpl.
    by rewrite app_nil_r.
Qed.

Lemma run_queue evs s :
  wf s ->
  ackCounter s <= ackCounter (run s evs).1
  /\ JSMap.keys (pendingAcks s)
     ++ seq (S (ackCounter s)) (ackCounter (run s evs).1 - ackCounter s)
     = departures (run s evs).2 ++ JSMap.keys (pendingAcks (run s evs).1).
Proof.
  revert s. induction evs as [|ev evs IH]; intros s Hs; simpl.
  { rewrite Nat.sub_diag. simpl. by rewrite app_nil_r. }
  destruct (step_queue s ev Hs) as [Hle Hq].
  pose proof (wf_step s ev Hs) as Hs1.
  destruct (step s ev) as [s1 fx1]. simpl in *.
  destruct (IH s1 Hs1) as [Hle' Hq'].
  destruct (run s1 evs) as [s2 fx2]. simpl in *.
  split; [lia|].
  replace (ackCounter s2 - ackCounter s)
    with ((ackCounter s1 - ackCounter s) + (ackCounter s2 - ackCounter s1)) by lia.
  rewrite seq_app, app_assoc, Hq, <- app_assoc.
  replace (S (ackCounter s) + (ackCounter s1 - ackCounter s)) with (S (ackCounter s1)) by lia.
  by rewrite Hq', departures_app, app_assoc.
Qed.

Lemma seq_sorted a n : StronglySorted lt (seq a n).
Proof.
  revert a. induction n as [|n IH]; intros a; simpl; [constructor|].
  apply StronglySorted_cons. split; [|apply IH].
  apply Forall_forall. intros x Hx%elem_of_seq. lia.
Qed.

Lemma run_acknowledged_sorted evs s :
  wf s -> StronglySorted lt (acknowledged (run s evs).2).
Proof.
  intros Hs. destruct (run_queue evs s Hs) as [_ Hq].
  eapply StronglySorted_sublist; [apply acknowledged_sublist|].
  eapply StronglySorted_app_1_l. rewrite <- Hq.
  apply StronglySorted_app_2; [|by apply wf_ack_sorted|apply seq_sorted].
  intros x1 x2 Hx1 Hx2%elem_of_seq.
  pose proof (wf_ack_bound s Hs) as Hb. rewrite Forall_forall in Hb.
  apply Hb in Hx1. simpl in *. lia.
Qed.

Lemma resolve_ack_fulfils pending messageId s rl :
  promises s !! a_promise pending = Some {| state := Pending; role := rl |} ->
  promises (resolve_ack pending messageId s).1 !! a_promise pending
  = Some {| state := Fulfilled (JString (units messageId)); role := rl |}.
Proof.
  intros Hp. unfold resolve_ack. rewrite Hp.
  pose proof (settle_pending _ (Fulfilled (JString (units messageId))) _ _ Hp) as Hl.
  destruct rl; simpl; try done. by apply lookup_app_l_Some.
Qed.

(** C1. The [messageAck] handler does nothing when no ack is pending;
    otherwise it removes the oldest entry (the first in insertion order,
    which has the smallest sequence number) and invokes its [resolve] with
    the id of the event, fulfilling its promise if still pending. Along any
    run, whatever other events are interleaved, the entries that were
    pending followed by the entries of the sends of the run are the entries
    that left the map, in order, followed by those still pending; so the
    keys resolved by acks come in strictly increasing order of send. *)
Theorem acks_resolve_in_send_order (s : Session) :
  wf s ->
  (forall data_id, pendingAcks s = [] -> onMessageAck data_id s = (s, []))
  /\ (forall data_id k pending rest,
        pendingAcks s = (k, pending) :: rest ->
        let r := onMessageAck data_id s in
        pendingAcks r.1 = rest
        /\ head r.2 = Some (AckResolve k data_id)
        /\ departures r.2 = [k]
        /\ Forall (fun k' => k < k') (JSMap.keys rest)
        /\ (forall rl,
              promises s !! a_promise pending
              = Some {| state := Pending; role := rl |} ->
              promises r.1 !! a_promise pending
              = Some {| state := Fulfilled (JString (units data_id));
                        role := rl |}))
  /\ (forall evs,
        let r := run s evs in
        JSMap.keys (pendingAcks s)
        ++ seq (S (ackCounter s)) (ackCounter r.1 - ackCounter s)
        = departures r.2 ++ JSMap.keys (pendingAcks r.1)
        /\ StronglySorted lt (acknowledged r.2)).
Proof.
  intros Hs. split_and!.
  - intros data_id. apply onMessageAck_empty.
  - intros data_id k pending rest Hq. cbv zeta.
    rewrite (onMessageAck_head _ _ _ _ _ Hq). simpl.
    destruct (resolve_ack_frame pending data_id (with_pendingAcks rest s))
      as (H1 & H2 & H3 & _). simpl in *.
    split_and!; try done.
    + unfold departures in *. simpl. by rewrite H3.
    + pose proof (wf_ack_sorted s Hs) as Hsorted. rewrite Hq in Hsorted.
      simpl in Hsorted. by apply StronglySorted_cons in Hsorted as [? _].
    + intros rl Hp. by apply resolve_ack_fulfils.
  - intros evs. cbv zeta. split; [by apply run_queue|by apply run_acknowledged_sorted].
Qed.

Lemma acks_resolve_in_send_order_witness :
  acknowledged
    (run sample_session
       [ResumeLog "a" no_log_options true;
        ResumeAsk "Deploy?" sample_ask_options true;
        MessageAck "m1";
        ResumeLog "b" no_log_options true;
        MessageUpdated (response "m9" "yes");
        MessageAck "m2"; TimerFires 7; MessageAck "m3"; MessageAck "m4"]).2
  = [1; 2; 3]
  /\ StronglySorted lt [1; 2; 3].
Proof.
  destruct (acks_resolve_in_send_order sample_session) as (_ & _ & H).
  - apply wf_new.
  - split; [reflexivity|].
    exact (proj2 (H [ResumeLog "a" no_log_options true;
                     ResumeAsk "Deploy?" sample_ask_options true;
                     MessageAck "m1";
                     ResumeLog "b" no_log_options true;
                     MessageUpdated (response "m9" "yes");
                     MessageAck "m2"; TimerFires 7; MessageAck "m3";
                     MessageAck "m4"])).
Defined.

(** *** A pending ack waits for an ack, an invalidation or a close *)

Lemma send_no_timer r payload open s :
  let x := sendAndWaitForAck r payload open s in
  timers x.1 = timers s /\ nextTimer x.1 = nextTimer s
  /\ forall t ms, SetTimeout t ms ∉ x.2.
Proof.
  cbv zeta. unfold sendAndWaitForAck. destruct open; simpl;
    split_and!; try done; intros t ms; set_solver.
Qed.

Lemma departures_flat_map_nil e qs k :
  k ∉ departures
        (flat_map (fun entry : string * PendingQuestion =>
                     [ClearTimeout (timeoutId entry.2);
                      QuestionReject (q_promise entry.2) e]) qs).
Proof. rewrite departures_reject_questions. apply not_elem_of_nil. Qed.

Lemma step_departure s ev k :
  k ∈ departures (step s ev).2 -> releases_acks ev = true.
Proof.
  destruct ev; simpl; try done.
  all: unfold log_begin, log_resume, ask_begin, ask_resume, ensureConnected,
         sendAndWaitForAck, onMessageUpdated, handleResponse, onDisconnected,
         timeout_fires, departures.
  all: repeat case_match; simplify_eq/=; try (by intros ?%elem_of_nil).
  all: try done.
  all: intros _; by apply bool_decide_eq_true.
Qed.

Lemma step_keeps_ack s ev entry :
  wf s -> releases_acks ev = false -> entry ∈ pendingAcks s ->
  entry ∈ pendingAcks (step s ev).1
  /\ promises (step s ev).1 !! a_promise entry.2
     = promises s !! a_promise entry.2.
Proof.
  intros Hs Hev Hin.
  pose proof (wf_ack_role s Hs) as Hrole. rewrite Forall_forall in Hrole.
  destruct (Hrole entry Hin) as (pr & Hp & Hr).
  assert (forall q, awaiting_response (promises s) q ->
            a_promise entry.2 ≠ q) as Hne.
  { intros q Hq Heq. rewrite Heq in Hp. unfold awaiting_response in Hq.
    rewrite Hp in Hq. by simplify_eq. }
  assert (forall r payload open,
    entry ∈ pendingAcks (sendAndWaitForAck r payload open s).1
    /\ promises (sendAndWaitForAck r payload open s).1 !! a_promise entry.2
       = promises s !! a_promise entry.2) as Hsend.
  { intros r payload open. unfold sendAndWaitForAck.
    pose proof (ack_keys_fresh s Hs) as Hfresh.
    pose proof (lookup_lt_Some _ _ _ Hp) as Hlt.
    destruct open; simpl.
    - rewrite set_fresh by done. split; [apply elem_of_app; by left|].
      by apply lookup_app_l.
    - rewrite set_fresh by done. split; [apply elem_of_app; by left|].
      rewrite settle_lookup_ne by lia. by apply lookup_app_l. }
  pose proof (wf_timer_pending s Hs) as Hpend. rewrite Forall_forall in Hpend.
  destruct ev; simpl in *; try done.
  - unfold log_begin, ensureConnected. by case_match.
  - apply Hsend.
  - unfold ask_begin, ensureConnected. repeat case_match; simplify_eq/=; done.
  - apply Hsend.
  - unfold onMessageUpdated, handleResponse.
    repeat case_match; simplify_eq/=; try done. split; [done|].
    apply settle_lookup_ne. apply Hne.
    match goal with H : JSMap.get _ _ = Some _ |- _ => apply get_Some in H; rename H into Hg end.
    pose proof (wf_question_timer s Hs) as Hqt. rewrite Forall_forall in Hqt.
    destruct (Hqt _ Hg) as (t & Ht & _ & Hqp & _). simpl in Hqp.
    rewrite <- Hqp. by apply Hpend.
  - unfold onDisconnected. rewrite decide_False; [done|].
    intros ->. by rewrite bool_decide_eq_false in Hev.
  - unfold timeout_fires.
    destruct (find_timer t (timers s)) as [tm|] eqn:Hf; [|done]. simpl.
    split; [done|]. apply settle_lookup_ne. apply Hne.
    apply find_timer_Some in Hf as [Htm _]. by apply Hpend.
Qed.

Lemma run_keeps_ack evs s entry :
  wf s -> Forall (fun ev => releases_acks ev = false) evs ->
  entry ∈ pendingAcks s ->
  entry ∈ pendingAcks (run s evs).1
  /\ promises (run s evs).1 !! a_promise entry.2
     = promises s !! a_promise entry.2.
Proof.
  revert s. induction evs as [|ev evs IH]; intros s Hs Hevs Hin; simpl; [done|].
  apply Forall_cons in Hevs as [Hev Hevs].
  destruct (step_keeps_ack s ev entry Hs Hev Hin) as [Hin1 Hp1].
  pose proof (wf_step s ev Hs) as Hs1.
  destruct (step s ev) as [s1 fx1]. simpl in *.
  destruct (IH s1 Hs1 Hevs Hin1) as [Hin2 Hp2].
  destruct (run s1 evs) as [s2 fx2]. simpl in *. split; [done|congruence].
Qed.

(** C10. An entry of [pendingAcks] has no deadline. Recording it
    schedules no timer; [resolve] or [reject] of an entry is invoked only
    by the handler of an ack, by the handler of the session-expired close
    code, or by [close]; along any run without these three events, timers
    firing included, the entry stays in the map and its promise keeps the
    state it had. (A [send] that throws has rejected the promise while the
    entry was being recorded, before any caller waited on it.) *)
Theorem pending_ack_has_no_deadline (s : Session) :
  wf s ->
  (forall r payload open,
     let x := sendAndWaitForAck r payload open s in
     timers x.1 = timers s /\ nextTimer x.1 = nextTimer s
     /\ forall t ms, SetTimeout t ms ∉ x.2)
  /\ (forall ev k, k ∈ departures (step s ev).2 -> releases_acks ev = true)
  /\ (forall evs entry,
        Forall (fun ev => releases_acks ev = false) evs ->
        entry ∈ pendingAcks s ->
        entry ∈ pendingAcks (run s evs).1
        /\ promises (run s evs).1 !! a_promise entry.2
           = promises s !! a_promise entry.2)
  /\ (forall t,
        pendingAcks (step s (TimerFires t)).1 = pendingAcks s
        /\ departures (step s (TimerFires t)).2 = []).
Proof.
  intros Hs. split_and!.
  - intros r payload open. apply send_no_timer.
  - intros ev k. apply step_departure.
  - intros evs entry Hevs Hin. by apply run_keeps_ack.
  - intros t. simpl. unfold timeout_fires, departures. by repeat case_match.
Qed.

Lemma pending_ack_has_no_deadline_witness :
  (1, {| a_promise := 0 |})
  ∈ pendingAcks
      (run one_log_pending
         [TimerFires 0; MessageUpdated (response "m1" "yes");
          Disconnected (Some 1006%Z); TimerFires 1]).1.
Proof.
  destruct (pending_ack_has_no_deadline one_log_pending) as (_ & _ & H & _).
  - apply wf_run, wf_new.
  - apply (H [TimerFires 0; MessageUpdated (response "m1" "yes");
              Disconnected (Some 1006%Z); TimerFires 1]
             (1, {| a_promise := 0 |})).
    + repeat constructor.
    + vm_compute. left.
Defined.

(** *** Session invalidation *)

Lemma settlements_app p fx1 fx2 :
  settlements p (fx1 ++ fx2) = settlements p fx1 + settlements p fx2.
Proof. unfold settlements. by rewrite List.filter_app, length_app. Qed.

Lemma settlements_reject_acks p e (qs : list (nat * PendingAck)) :
  settlements p (map (fun entry => AckReject entry.1 e) qs) = 0.
Proof. induction qs as [|q qs IH]; [done|]. exact IH. Qed.

Lemma settlements_reject_questions p e qs :
  NoDup ((fun x : string * PendingQuestion => q_promise x.2) <$> qs) ->
  settlements p
    (flat_map (fun entry : string * PendingQuestion =>
                 [ClearTimeout (timeoutId entry.2);
                  QuestionReject (q_promise entry.2) e]) qs)
  = if decide (p ∈ (fun x : string * PendingQuestion => q_promise x.2) <$> qs)
    then 1 else 0.
Proof.
  induction qs as [|q qs IH]; [done|]. rewrite fmap_cons.
  intros [Hq Hqs]%NoDup_cons.
  change (flat_map ?f (q :: qs)) with (f q ++ flat_map f qs).
  rewrite settlements_app, (IH Hqs). unfold settlements. simpl.
  destruct (decide (q_promise q.2 = p)) as [Heq|Hne].
  - rewrite bool_decide_eq_true_2 by done. simpl. subst p.
    rewrite decide_False by done. rewrite decide_True by left. done.
  - rewrite bool_decide_eq_false_2 by done. simpl.
    destruct (decide (p ∈ _ <$> qs)) as [Hin|Hnin].
    + rewrite decide_True by (by right). done.
    + rewrite decide_False; [done|]. intros [?|?]%elem_of_cons; done.
Qed.

(** In a well-formed session the pending questions have distinct promises
    and distinct timers, and each of them is still awaited. *)
Lemma question_awaiting s entry :
  wf s -> entry ∈ pendingQuestions s ->
  awaiting_response (promises s) (q_promise entry.2).
Proof.
  intros Hs Hin. pose proof (wf_question_timer s Hs) as Hqt.
  rewrite Forall_forall in Hqt. destruct (Hqt _ Hin) as (t & Ht & _ & Hp & _).
  pose proof (wf_timer_pending s Hs) as Hpend. rewrite Forall_forall in Hpend.
  rewrite <- Hp. by apply Hpend.
Qed.

Lemma question_promises_NoDup s :
  wf s ->
  NoDup ((fun x : string * PendingQuestion => q_promise x.2) <$> pendingQuestions s).
Proof.
  intros Hs. pose proof Hs as [].
  apply NoDup_fmap_2_strong; [|by eapply NoDup_fmap_1].
  intros x y Hx Hy Heq.
  rewrite Forall_forall in wf_question_timer0.
  destruct (wf_question_timer0 x Hx) as (tx & Htx & _ & Hpx & Hmx).
  destruct (wf_question_timer0 y Hy) as (ty & Hty & _ & Hpy & Hmy).
  assert (tx = ty) as ->.
  { apply (fmap_inj_on timer_promise (timers s)); [done..|congruence]. }
  apply (fmap_inj_on fst (pendingQuestions s)); [done..|congruence].
Qed.

Lemma reject_all_state e s :
  let r1 := reject_questions e s in
  let r2 := reject_acks e r1.1 in
  pendingQuestions r2.1 = [] /\ pendingAcks r2.1 = []
  /\ promises r2.1
     = settle_all ((fun x => a_promise x.2) <$> pendingAcks s) (Rejected e)
         (settle_all ((fun x => q_promise x.2) <$> pendingQuestions s)
            (Rejected e) (promises s))
  /\ (forall t, t ∈ timers r2.1 <->
        t ∈ timers s
        /\ timer_id t ∉ (fun x => timeoutId x.2) <$> pendingQuestions s)
  /\ r1.2 ++ r2.2
     = flat_map (fun entry => [ClearTimeout (timeoutId entry.2);
                               QuestionReject (q_promise entry.2) e])
         (pendingQuestions s)
       ++ map (fun entry => AckReject entry.1 e) (pendingAcks s).
Proof.
  cbv zeta. unfold reject_questions, reject_acks, JSMap.clear. simpl.
  destruct (reject_questions_fold e (pendingQuestions s) s)
    as (H1 & H2 & H3 & H4 & H5 & H6 & H7 & H8 & H9).
  destruct (reject_acks_fold e (pendingAcks s)
              (with_pendingQuestions [] (foldl (reject_question e) s (pendingQuestions s))))
    as (G1 & G2 & G3 & G4 & G5 & G6 & G7 & G8).
  simpl in *. rewrite H3. split_and!; try done.
  - by rewrite G8, H7.
  - intros t. by rewrite G7, H9.
Qed.

Lemma reject_all_outcome e s :
  wf s ->
  let r1 := reject_questions e s in
  let r2 := reject_acks e r1.1 in
  (forall entry, entry ∈ pendingQuestions s ->
     settlements (q_promise entry.2) (r1.2 ++ r2.2) = 1
     /\ (timeoutId entry.2 ∉ timer_id <$> timers r2.1)
     /\ awaiting_response (promises s) (q_promise entry.2)
     /\ promises r2.1 !! q_promise entry.2
        = Some {| state := Rejected e; role := Response |})
  /\ (forall entry rl, entry ∈ pendingAcks s ->
        promises s !! a_promise entry.2
        = Some {| state := Pending; role := rl |} ->
        promises r2.1 !! a_promise entry.2
        = Some {| state := Rejected e; role := rl |}).
Proof.
  intros Hs. cbv zeta.
  destruct (reject_all_state e s) as (_ & _ & Hp & Ht & Hfx).
  cbv zeta in *. rewrite Hfx, Hp. split.
  - intros entry Hin. pose proof (question_awaiting s entry Hs Hin) as Haw.
    split_and!; [| |done|].
    + rewrite settlements_app, settlements_reject_acks,
        settlements_reject_questions by (by apply question_promises_NoDup).
      rewrite decide_True; [done|]. apply list_elem_of_fmap. by exists entry.
    + intros (t & Hid & Hin')%list_elem_of_fmap. apply Ht in Hin' as [_ Hnot].
      apply Hnot. apply list_elem_of_fmap. by exists entry.
    + apply settle_all_settled; [|done]. apply settle_all_hit; [done| |done].
      apply list_elem_of_fmap. by exists entry.
  - intros entry rl Hin Hpend.
    apply settle_all_hit; [done|apply list_elem_of_fmap; by exists entry|].
    rewrite settle_all_lookup_notin; [done|].
    intros (x & Hx & Hxin)%list_elem_of_fmap.
    pose proof (question_awaiting s x Hs Hxin) as Haw.
    pose proof (wf_ack_role s Hs) as Hrole. rewrite Forall_forall in Hrole.
    destruct (Hrole entry Hin) as (pr & Hpr & Hr).
    unfold awaiting_response in Haw. rewrite <- Hx, Hpr in Haw. by simplify_eq.
Qed.

(** C4. On the session-expired close code the handler invokes, for every
    pending question, [clearTimeout] of its timer and [reject] with
    [SessionExpiredError], once; it invokes [reject] of every pending ack
    with [SessionExpiredError], once; it does nothing else, and both maps
    end empty. Every promise that was still pending ends rejected with
    [SessionExpiredError], and no timer of a pending question stays
    scheduled. On any other close code the handler does nothing. *)
Theorem session_expiry_rejects_all_pending (s : Session) :
  wf s ->
  let r := onDisconnected (Some SESSION_EXPIRED_CLOSE_CODE) s in
  pendingQuestions r.1 = [] /\ pendingAcks r.1 = []
  /\ r.2 = flat_map (fun entry => [ClearTimeout (timeoutId entry.2);
                                   QuestionReject (q_promise entry.2)
                                     SessionExpired])
             (pendingQuestions s)
           ++ map (fun entry => AckReject entry.1 SessionExpired)
                (pendingAcks s)
  /\ departures r.2 = JSMap.keys (pendingAcks s)
  /\ NoDup (JSMap.keys (pendingAcks s))
  /\ (forall entry, entry ∈ pendingQuestions s ->
        settlements (q_promise entry.2) r.2 = 1
        /\ (timeoutId entry.2 ∉ timer_id <$> timers r.1)
        /\ awaiting_response (promises s) (q_promise entry.2)
        /\ promises r.1 !! q_promise entry.2
           = Some {| state := Rejected SessionExpired; role := Response |})
  /\ (forall entry rl, entry ∈ pendingAcks s ->
        promises s !! a_promise entry.2
        = Some {| state := Pending; role := rl |} ->
        promises r.1 !! a_promise entry.2
        = Some {| state := Rejected SessionExpired; role := rl |})
  /\ (forall code, code ≠ Some SESSION_EXPIRED_CLOSE_CODE ->
        onDisconnected code s = (s, [])).
Proof.
  intros Hs. cbv zeta. unfold onDisconnected at 1 2 3 4 5 6 7 8.
  rewrite decide_True by done.
  destruct (reject_all_state SessionExpired s) as (H1 & H2 & _ & _ & H5).
  destruct (reject_all_queue SessionExpired s) as (_ & _ & H6).
  destruct (reject_all_outcome SessionExpired s Hs) as (H7 & H8).
  cbv zeta in *.
  destruct (reject_questions SessionExpired s) as [s1 fx1].
  change ((s1, fx1).1) with s1 in *. change ((s1, fx1).2) with fx1 in *.
  destruct (reject_acks SessionExpired s1) as [s2 fx2]. simpl in *.
  split_and!; try done.
  - by apply sorted_lt_NoDup, wf_ack_sorted.
  - intros code Hc. unfold onDisconnected. by rewrite decide_False.
Qed.

Lemma session_expiry_rejects_all_pending_witness :
  pendingQuestions
    (onDisconnected (Some SESSION_EXPIRED_CLOSE_CODE) one_question_one_ack).1
  = []
  /\ departures
       (onDisconnected (Some SESSION_EXPIRED_CLOSE_CODE) one_question_one_ack).2
     = [2].
Proof.
  destruct (session_expiry_rejects_all_pending one_question_one_ack)
    as (H1 & _ & _ & H4 & _).
  - apply wf_run, wf_new.
  - split; [exact H1|exact H4].
Defined.

(** *** Deadlines of questions *)

Lemma find_timer_elem tm ts :
  NoDup (timer_id <$> ts) -> tm ∈ ts -> find_timer (timer_id tm) ts = Some tm.
Proof.
  intros Hnd Hin. unfold find_timer.
  destruct (head (filter (fun x => timer_id x = timer_id tm) ts)) as [tm'|] eqn:Hh.
  - apply head_Some_elem_of in Hh. apply list_elem_of_filter in Hh as [Hid Hin'].
    f_equal. by apply (fmap_inj_on timer_id ts).
  - apply head_None in Hh.
    assert (tm ∈ filter (fun x => timer_id x = timer_id tm) ts) as Hf
      by (by apply list_elem_of_filter).
    rewrite Hh in Hf. by apply elem_of_nil in Hf.
Qed.

Lemma handleResponse_absent message s :
  msg_id message ∉ JSMap.keys (pendingQuestions s) ->
  handleResponse message s = (s, []).
Proof. intros Hk%get_None. unfold handleResponse. by rewrite Hk. Qed.

Lemma transformMessage_id raw message :
  transformMessage raw = Some message -> msg_id message = api_id raw.
Proof. unfold transformMessage. repeat case_match; by intros [= <-]. Qed.

Lemma onMessageUpdated_absent raw s :
  api_id raw ∉ JSMap.keys (pendingQuestions s) ->
  onMessageUpdated raw s = (s, []).
Proof.
  intros Hk. unfold onMessageUpdated.
  destruct (transformMessage raw) as [message|] eqn:Ht; [|done].
  apply transformMessage_id in Ht. repeat case_match; try done.
  apply handleResponse_absent. by rewrite Ht.
Qed.

Lemma timeout_fires_scheduled tm s :
  wf s -> tm ∈ timers s ->
  let e := TimeoutError
             ("Ask timed out after " +:+ pretty (timer_ms tm) +:+ "ms") in
  let r := timeout_fires (timer_id tm) s in
  (timer_messageId tm ∉ JSMap.keys (pendingQuestions r.1))
  /\ (timer_id tm ∉ timer_id <$> timers r.1)
  /\ r.2 = [QuestionReject (timer_promise tm) e]
  /\ awaiting_response (promises s) (timer_promise tm)
  /\ promises r.1 !! timer_promise tm
     = Some {| state := Rejected e; role := Response |}.
Proof.
  intros Hs Hin. cbv zeta. unfold timeout_fires.
  rewrite (find_timer_elem tm (timers s)) by (done || by apply wf_timer_ids).
  simpl. pose proof (wf_timer_pending s Hs) as Hpend.
  rewrite Forall_forall in Hpend. specialize (Hpend tm Hin). simpl in Hpend.
  split_and!; try done.
  - apply not_elem_of_keys_delete. by apply wf_question_keys.
  - intros (t & Hid & [Hne _]%list_elem_of_filter)%list_elem_of_fmap. done.
  - by apply settle_pending.
Qed.

(** *** A question is settled at most once *)

Lemma evolves_refl ps : evolves ps ps.
Proof. intros p pr Hp. by exists pr. Qed.

Lemma evolves_trans ps1 ps2 ps3 :
  evolves ps1 ps2 -> evolves ps2 ps3 -> evolves ps1 ps3.
Proof.
  intros H12 H23 p pr Hp. destruct (H12 p pr Hp) as (pr2 & Hp2 & Hr2 & Hs2).
  destruct (H23 p pr2 Hp2) as (pr3 & Hp3 & Hr3 & Hs3).
  exists pr3. split_and!; [done|congruence|].
  intros Hst. specialize (Hs2 Hst). subst pr2. by apply Hs3.
Qed.

Lemma evolves_app ps l : evolves ps (ps ++ l).
Proof. intros p pr Hp. exists pr. split; [by apply lookup_app_l_Some|done]. Qed.

Lemma evolves_settle q st ps : evolves ps (settle q st ps).
Proof. intros p pr Hp. by apply settle_lookup. Qed.

Lemma evolves_settle_all qs st ps : evolves ps (settle_all qs st ps).
Proof.
  revert ps. induction qs as [|q qs IH]; intros ps; [apply evolves_refl|].
  unfold settle_all in *. simpl.
  eapply evolves_trans; [apply evolves_settle|apply IH].
Qed.

Lemma resolve_ack_evolves pending messageId s :
  evolves (promises s) (promises (resolve_ack pending messageId s).1).
Proof.
  unfold resolve_ack. repeat case_match; simplify_eq/=;
    try apply evolves_refl; try apply evolves_settle.
  eapply evolves_trans; [apply evolves_settle|apply evolves_app].
Qed.

Lemma step_evolves s ev : evolves (promises s) (promises (step s ev).1).
Proof.
  assert (forall r payload open,
    evolves (promises s) (promises (sendAndWaitForAck r payload open s).1)) as Hsend.
  { intros r payload open. unfold sendAndWaitForAck. destruct open; simpl.
    - apply evolves_app.
    - eapply evolves_trans; [apply evolves_app|apply evolves_settle]. }
  assert (forall e,
    evolves (promises s) (promises (reject_acks e (reject_questions e s).1).1)) as Hall.
  { intros e. destruct (reject_all_state e s) as (_ & _ & Hp & _).
    cbv zeta in Hp. rewrite Hp.
    eapply evolves_trans; apply evolves_settle_all. }
  destruct ev; simpl.
  - unfold log_begin, ensureConnected. case_match; apply evolves_refl.
  - apply Hsend.
  - unfold ask_begin, ensureConnected. repeat case_match; simplify_eq/=;
      apply evolves_refl.
  - apply Hsend.
  - unfold onMessageAck. repeat case_match; simplify_eq/=; try apply evolves_refl.
    match goal with H : resolve_ack ?a ?b ?c = _ |- _ =>
      pose proof (resolve_ack_evolves a b c) as He; rewrite H in He end.
    exact He.
  - unfold onMessageUpdated, handleResponse. repeat case_match; simplify_eq/=;
      try apply evolves_refl; apply evolves_settle.
  - unfold onDisconnected. case_decide; [|apply evolves_refl].
    specialize (Hall SessionExpired).
    destruct (reject_questions SessionExpired s) as [s1 fx1].
    change ((s1, fx1).1) with s1 in *.
    by destruct (reject_acks SessionExpired s1) as [s2 fx2].
  - unfold timeout_fires. repeat case_match; simplify_eq/=;
      try apply evolves_refl; apply evolves_settle.
  - unfold close. specialize (Hall (PlainError "Session closed")).
    destruct (reject_questions _ s) as [s1 fx1].
    change ((s1, fx1).1) with s1 in *.
    destruct (reject_acks _ s1) as [s2 fx2]. simpl in *. by case_match.
Qed.

(** A promise that is in the store and is not awaited stays so. *)
Lemma evolves_not_awaiting ps ps' p :
  evolves ps ps' -> p < length ps -> ~ awaiting_response ps p ->
  p < length ps' /\ ~ awaiting_response ps' p.
Proof.
  intros Hev Hlt Hna. destruct (lookup_lt_is_Some_2 ps p Hlt) as [pr Hp].
  destruct (Hev p pr Hp) as (pr' & Hp' & Hr & Hst).
  split; [by eapply lookup_lt_Some|].
  unfold awaiting_response in *. rewrite Hp'. intros [= Heq].
  destruct pr as [st r]. destruct st.
  - simpl in *. apply Hna. rewrite Hp. subst pr'. simpl in *. by subst r.
  - specialize (Hst ltac:(done)). by subst pr'.
  - specialize (Hst ltac:(done)). by subst pr'.
Qed.

Ltac no_settlement := unfold settlements; simpl; split; [lia|done].

(** One segment invokes [resolve] or [reject] of a question at most once,
    and only while its promise is awaited; afterwards it is not. *)
Lemma step_settlements s ev p :
  wf s ->
  settlements p (step s ev).2 <= 1
  /\ (settlements p (step s ev).2 = 1 ->
      awaiting_response (promises s) p
      /\ ~ awaiting_response (promises (step s ev).1) p).
Proof.
  intros Hs.
  assert (forall r payload open,
    settlements p (sendAndWaitForAck r payload open s).2 = 0) as Hsend.
  { intros r payload open. unfold sendAndWaitForAck. by destruct open. }
  assert (forall e,
    let r1 := reject_questions e s in
    let r2 := reject_acks e r1.1 in
    settlements p (r1.2 ++ r2.2) <= 1
    /\ (settlements p (r1.2 ++ r2.2) = 1 ->
        awaiting_response (promises s) p
        /\ ~ awaiting_response (promises r2.1) p)) as Hall.
  { intros e. cbv zeta.
    destruct (reject_all_state e s) as (_ & _ & _ & _ & Hfx).
    destruct (reject_all_outcome e s Hs) as (Hq & _). cbv zeta in *.
    rewrite Hfx in *.
    rewrite settlements_app, settlements_reject_acks,
      settlements_reject_questions by (by apply question_promises_NoDup).
    case_decide as Hin; [|split; [lia|done]].
    split; [lia|]. intros _.
    apply list_elem_of_fmap in Hin as (entry & -> & Hin).
    destruct (Hq entry Hin) as (_ & _ & Haw & Hrej).
    split; [done|]. unfold awaiting_response. by rewrite Hrej. }
  destruct ev; simpl.
  - unfold log_begin, ensureConnected. case_match; simpl; no_settlement.
  - unfold log_resume. rewrite Hsend. no_settlement.
  - unfold ask_begin, ensureConnected. repeat case_match; simplify_eq/=;
      no_settlement.
  - unfold ask_resume. rewrite Hsend. no_settlement.
  - destruct (pendingAcks s) as [|[k pending] rest] eqn:Hq.
    + rewrite onMessageAck_empty by done. simpl. no_settlement.
    + rewrite (onMessageAck_head _ _ _ _ _ Hq). simpl.
      destruct (resolve_ack_frame pending data_id (with_pendingAcks rest s))
        as (_ & _ & _ & H0).
      change (settlements p (AckResolve k data_id :: ?l))
        with (settlements p l).
      rewrite H0. no_settlement.
  - unfold onMessageUpdated.
    destruct (transformMessage raw) as [message|]; [|no_settlement].
    destruct (msg_type message); [no_settlement|].
    destruct (responseContent message) as [rc|] eqn:Hrc;
      [|no_settlement].
    unfold handleResponse.
    destruct (JSMap.get (msg_id message) (pendingQuestions s)) as [pending|] eqn:Hg;
      [|no_settlement].
    apply get_Some in Hg. pose proof (question_awaiting s _ Hs Hg) as Haw.
    simpl in *. unfold settlements. simpl.
    destruct (decide (q_promise pending = p)) as [<-|Hne].
    + rewrite bool_decide_eq_true_2 by done. simpl. split; [lia|]. intros _.
      split; [done|]. unfold awaiting_response.
      by erewrite settle_pending by exact Haw.
    + rewrite bool_decide_eq_false_2 by done. simpl. no_settlement.
  - unfold onDisconnected. case_decide; [|no_settlement].
    specialize (Hall SessionExpired). cbv zeta in Hall.
    destruct (reject_questions SessionExpired s) as [s1 fx1].
    change ((s1, fx1).1) with s1 in *. change ((s1, fx1).2) with fx1 in *.
    by destruct (reject_acks SessionExpired s1) as [s2 fx2].
  - unfold timeout_fires.
    destruct (find_timer t (timers s)) as [tm|] eqn:Hf;
      [|no_settlement].
    apply find_timer_Some in Hf as [Htm _].
    pose proof (wf_timer_pending s Hs) as Hpend. rewrite Forall_forall in Hpend.
    specialize (Hpend tm Htm). simpl in *. unfold settlements. simpl.
    destruct (decide (timer_promise tm = p)) as [<-|Hne].
    + rewrite bool_decide_eq_true_2 by done. simpl. split; [lia|]. intros _.
      split; [done|]. unfold awaiting_response.
      by erewrite settle_pending by exact Hpend.
    + rewrite bool_decide_eq_false_2 by done. simpl. no_settlement.
  - unfold close. specialize (Hall (PlainError "Session closed")).
    cbv zeta in Hall.
    destruct (reject_questions _ s) as [s1 fx1].
    change ((s1, fx1).1) with s1 in *. change ((s1, fx1).2) with fx1 in *.
    destruct (reject_acks _ s1) as [s2 fx2]. simpl in *.
    case_match; simpl; [|done].
    rewrite app_assoc, settlements_app.
    change (settlements p [ConnectionClose]) with 0. by rewrite Nat.add_0_r.
Qed.

Lemma run_settlements_settled evs s p :
  wf s -> p < length (promises s) -> ~ awaiting_response (promises s) p ->
  settlements p (run s evs).2 = 0.
Proof.
  revert s. induction evs as [|ev evs IH]; intros s Hs Hlt Hna; simpl; [done|].
  destruct (step_settlements s ev p Hs) as [Hle Hone].
  pose proof (step_evolves s ev) as Hev.
  pose proof (wf_step s ev Hs) as Hs1.
  destruct (evolves_not_awaiting _ _ p Hev Hlt Hna) as [Hlt1 Hna1].
  destruct (step s ev) as [s1 fx1]. simpl in *.
  specialize (IH s1 Hs1 Hlt1 Hna1).
  destruct (run s1 evs) as [s2 fx2]. simpl in *.
  rewrite settlements_app, IH.
  destruct (decide (settlements p fx1 = 1)) as [H1|H1]; [|lia].
  by destruct (Hone H1).
Qed.

Lemma run_settlements evs s p :
  wf s -> settlements p (run s evs).2 <= 1.
Proof.
  revert s. induction evs as [|ev evs IH]; intros s Hs; simpl;
    [unfold settlements; simpl; lia|].
  destruct (step_settlements s ev p Hs) as [Hle Hone].
  pose proof (wf_step s ev Hs) as Hs1.
  pose proof (step_evolves s ev) as Hev.
  pose proof (run_settlements_settled evs (step s ev).1 p Hs1) as Hz.
  destruct (step s ev) as [s1 fx1]. simpl in *.
  specialize (IH s1 Hs1).
  destruct (run s1 evs) as [s2 fx2]. simpl in *.
  rewrite settlements_app.
  destruct (decide (settlements p fx1 = 1)) as [H1|H1]; [|lia].
  destruct (Hone H1) as [Haw Hna].
  rewrite Hz; [lia| |done].
  destruct (Hev p _ Haw) as (pr' & Hp' & _). by eapply lookup_lt_Some.
Qed.

(** C5. When the deadline of a pending question elapses, that is when its
    timer fires while still scheduled, the entry under its message id is
    removed from [pendingQuestions] and [reject] is invoked with a
    [TimeoutError], which rejects the promise, still pending until then. A
    response-bearing update for a message id that is not in the map, such
    as one that arrives after this removal, changes nothing and invokes
    nothing. Along any run [resolve] or [reject] of a question is invoked
    at most once. *)
Theorem question_deadline (s : Session) :
  wf s ->
  (forall tm, tm ∈ timers s ->
     let e := TimeoutError
                ("Ask timed out after " +:+ pretty (timer_ms tm) +:+ "ms") in
     let r := timeout_fires (timer_id tm) s in
     (timer_messageId tm ∉ JSMap.keys (pendingQuestions r.1))
     /\ r.2 = [QuestionReject (timer_promise tm) e]
     /\ error_code e = Some TIMEOUT
     /\ awaiting_response (promises s) (timer_promise tm)
     /\ promises r.1 !! timer_promise tm
        = Some {| state := Rejected e; role := Response |}
     /\ (forall raw, api_id raw = timer_messageId tm ->
           onMessageUpdated raw r.1 = (r.1, [])))
  /\ (forall entry, entry ∈ pendingQuestions s -> has_timer (timers s) entry)
  /\ (forall raw, api_id raw ∉ JSMap.keys (pendingQuestions s) ->
        onMessageUpdated raw s = (s, []))
  /\ (forall evs p, settlements p (run s evs).2 <= 1).
Proof.
  intros Hs. split_and!.
  - intros tm Htm. cbv zeta.
    destruct (timeout_fires_scheduled tm s Hs Htm) as (H1 & H2 & H3 & H4 & H5).
    split_and!; try done.
    intros raw Hraw. apply onMessageUpdated_absent. by rewrite Hraw.
  - intros entry Hin. pose proof (wf_question_timer s Hs) as Hqt.
    rewrite Forall_forall in Hqt. by apply Hqt.
  - intros raw. apply onMessageUpdated_absent.
  - intros evs p. by apply run_settlements.
Qed.

Lemma question_deadline_witness :
  (timeout_fires 0 one_question_pending).2
  = [QuestionReject 1 (TimeoutError "Ask timed out after 300000ms")]
  /\ settlements 1
       (run one_question_pending
          [TimerFires 0; MessageUpdated (response "m1" "yes"); CallClose]).2
     <= 1.
Proof.
  destruct (question_deadline one_question_pending) as (H1 & _ & _ & H4).
  - apply wf_run, wf_new.
  - split.
    + refine (proj1 (proj2 (H1 {| timer_id := 0; timer_messageId := "m1";
                                  timer_promise := 1;
                                  timer_ms := 300000 |} _))).
      vm_compute. left.
    + apply H4.
Defined.

(** *** Asking without recipients *)

(** C9. With an empty recipient list [ask] throws a [BadRequestError]
    (code [BAD_REQUEST], status 400), the SDK's error for a request that
    is not valid, before [ensureConnected] is reached: the session is
    unchanged, so the pending maps and the ack counter are, no connection
    is created or connected, and nothing is sent. *)
Theorem ask_without_recipients (s : Session) :
  recipients s = [] ->
  exists e,
    ask_begin s = (s, [], Some e)
    /\ e = BadRequestError
             "Cannot ask without recipients. Add recipients when creating or resuming the session."
    /\ error_code e = Some BAD_REQUEST
    /\ error_status e = Some 400%Z
    /\ step s CallAsk = (s, []).
Proof.
  intros Hr. eexists. unfold step, ask_begin. rewrite Hr. simpl.
  split_and!; reflexivity.
Qed.

Lemma ask_without_recipients_witness :
  step (new_Session None) CallAsk = (new_Session None, []).
Proof.
  destruct (ask_without_recipients (new_Session None)) as (e & _ & _ & _ & _ & H).
  - reflexivity.
  - exact H.
Defined.

(** *** Decoding the response of a question *)

Lemma decode_parsed rc v : JSON_parse rc = Some v -> decode rc = v.
Proof. intros H. unfold decode. by rewrite H. Qed.

Lemma decode_raw rc : JSON_parse rc = None -> decode rc = JString (units rc).
Proof. intros H. unfold decode. by rewrite H. Qed.

(** C2, as the code has it. [handleResponse] resolves a pending question
    with what [JSON.parse] returns for the payload, whatever its shape, and
    with the raw text when [JSON.parse] throws; the descriptors of the
    question play no part. It invokes [clearTimeout] and [resolve] and
    nothing else, so nothing is raised to the caller, and the promise,
    if still pending, is fulfilled with the decoded value. *)
Theorem response_decoding (s : Session) (message : Message)
  (pending : PendingQuestion) (rc : string) :
  JSMap.get (msg_id message) (pendingQuestions s) = Some pending ->
  responseContent message = Some rc ->
  let r := handleResponse message s in
  r.2 = [ClearTimeout (timeoutId pending);
         QuestionResolve (q_promise pending) (decode rc)]
  /\ (forall v, JSON_parse rc = Some v -> decode rc = v)
  /\ (forall T v, JSON_parse rc = Some v -> Inputs.conforms T v = true ->
        decode rc = v)
  /\ (JSON_parse rc = None -> decode rc = JString (units rc))
  /\ (awaiting_response (promises s) (q_promise pending) ->
      promises r.1 !! q_promise pending
      = Some {| state := Fulfilled (decode rc); role := Response |}).
Proof.
  intros Hg Hrc. cbv zeta. unfold handleResponse. rewrite Hg, Hrc. simpl.
  split_and!; [done|apply decode_parsed| |apply decode_raw|].
  - intros T v Hv _. by apply decode_parsed.
  - intros Haw. by apply settle_pending.
Qed.

Lemma response_decoding_witness :
  (handleResponse (answer "yes") one_question_pending).2
  = [ClearTimeout 0; QuestionResolve 1 (JString (units "yes"))]
  /\ (handleResponse
        (answer ("{" +:+ quoted "approved" +:+ ":true," +:+ quoted "notes"
                 +:+ ":" +:+ quoted "ok" +:+ "}"))
        one_question_pending).2
     = [ClearTimeout 0;
        QuestionResolve 1
          (JObject [(units "approved", JBool true);
                    (units "notes", JString (units "ok"))])].
Proof.
  split.
  - exact (proj1 (response_decoding one_question_pending (answer "yes")
                    {| q_promise := 1; timeoutId := 0 |} "yes"
                    eq_refl eq_refl)).
  - exact (proj1 (response_decoding one_question_pending
                    (answer ("{" +:+ quoted "approved" +:+ ":true,"
                             +:+ quoted "notes" +:+ ":" +:+ quoted "ok"
                             +:+ "}"))
                    {| q_promise := 1; timeoutId := 0 |} _
                    eq_refl eq_refl)).
Defined.

(** C2, as stated, fails. The question of [one_question_pending] declares
    a confirm [approved] and a text [notes]. The payload 42, and the
    object whose property [approved] is the string maybe, are JSON and do
    not conform to the derived shape; the caller receives the number 42
    and the object, not the raw text. *)
Lemma nonconforming_payload_is_returned_parsed :
  (onMessageUpdated (response "m1" "42") one_question_pending).2
  = [ClearTimeout 0; QuestionResolve 1 (JNumber "42")]
  /\ Inputs.conforms sample_inputs (JNumber "42") = false
  /\ JNumber "42" ≠ JString (units "42")
  /\ let payload := "{" +:+ quoted "approved" +:+ ":" +:+ quoted "maybe" +:+ "}" in
     let parsed := JObject [(units "approved", JString (units "maybe"))] in
     (onMessageUpdated (response "m1" payload) one_question_pending).2
     = [ClearTimeout 0; QuestionResolve 1 parsed]
     /\ Inputs.conforms sample_inputs parsed = false
     /\ parsed ≠ JString (units payload).
Proof. vm_compute. split_and!; (reflexivity || discriminate). Qed.

End SessionProofs.

(** ** JS numbers *)
Module NumberFacts.
Import SpecFloat Number.













End NumberFacts.

(** ** The connection manager *)
Module ConnectionProofs.
Import Number NumberFacts Connection Samples.

Ltac unfold_handlers :=
  unfold step, on_channel, onmessage, handleMessage, onclose, onerror,
    reconnect_fires, close, send, connect, scheduleReconnect, setStatus,
    settle, set_socket in *.

Ltac split_cases :=
  repeat (case_match; simplify_eq/=); simplify_eq/=.


Lemma coherent_new opts : coherent (new_WebSocketConnection opts).
Proof. split; simpl; [done|discriminate]. Qed.

Lemma step_coherent c ev : coherent c -> coherent (step c ev).1.
Proof.
  intros [H1 H2]. destruct ev; unfold_handlers; split_cases; split; simpl;
    try done; try congruence.
  all: try (rewrite H1; symmetry; apply bool_decide_eq_false; by apply dec_stable).
  all: try (rewrite H1; symmetry; apply bool_decide_eq_false; congruence).
  all: try (intros; congruence).
  all: intros Hc; specialize (H2 Hc); congruence.
Qed.

Lemma run_coherent evs c : coherent c -> coherent (run c evs).1.
Proof.
  revert c. induction evs as [|ev evs IH]; intros c Hc; simpl; [done|].
  pose proof (step_coherent c ev Hc) as H1.
  destruct (step c ev) as [c1 fx1]. specialize (IH c1 H1).
  destruct (run c1 evs) as [c2 fx2]. done.
Qed.

Lemma reachable_coherent opts c : reachable opts c -> coherent c.
Proof. intros [evs <-]. apply run_coherent, coherent_new. Qed.






(** C6, on the run that shows the defect. The handlers of a channel stay
    attached when [connect()] starts a new attempt after an [error] event.
    The later [close] event of the old channel runs [onclose], which sets
    [ws] to [null] and clears [connectPromise], although both belong to the
    new attempt by then. From there the new attempt is still in flight, its
    promise waiting and its channel connecting, and yet [connect()] opens
    one more channel and returns another promise; so does the retry that
    [onclose] scheduled. The two promises then have different outcomes: the
    handshake on the last channel completes the last promise and leaves the
    earlier one waiting. Before the [close] event the same call returned the
    promise of the attempt in flight and opened nothing. *)
Theorem stale_close_forgets_attempt_in_flight :
  let before := (run sample_connection
                   [CallConnect None; WsMessage 0 (Some connected_event);
                    WsError 0 "read ECONNRESET"; CallConnect None]).1 in
  let c := (step before (WsClose 0 1006 EmptyString (dyadic 1 (-1)))).1 in
  connect None before = (before, 1, [])
  /\ promises c !! 1 = Some Waiting
  /\ sockets c !! 1
     = Some {| readyState := CONNECTING; attached := true;
               socket_promise := 1 |}
  /\ connectPromise c = None /\ ws c = None
  /\ (connect None c).1.2 = 2
  /\ (connect None c).2
     = [Emit (emit_statusChange connecting); NewWebSocket 2]
  /\ (step c (TimerFires 0 None)).2
     = [Emit (emit_statusChange connecting); NewWebSocket 2]
  /\ (let c' := (connect None c).1.1 in
      let done := (step c' (WsMessage 2 (Some connected_event))).1 in
      promises c' !! 1 = Some Waiting /\ promises c' !! 2 = Some Waiting
      /\ promises done !! 1 = Some Waiting
      /\ promises done !! 2 = Some Completed).
Proof. vm_compute. repeat split; reflexivity. Qed.

(** *** Reconnection *)

Lemma close_schedules c channel sock code reason rnd :
  sockets c !! channel = Some sock -> attached sock = true ->
  manualClose c = false -> autoReconnect (options c) = true ->
  (reconnectAttempts c < maxReconnectAttempts (options c))%Z ->
  let r := step c (WsClose channel code reason rnd) in
  let delay :=
    backoff_delay (reconnectDelay (options c)) (reconnectAttempts c) rnd in
  timers r.1 = timers c ++ [(nextTimer c, delay)]
  /\ SetTimeout (nextTimer c) delay ∈ r.2
  /\ reconnectAttempts r.1 = reconnectAttempts c.
Proof.
  intros Hs Ha Hm Hauto Hlt. cbv zeta.
  unfold_handlers; split_cases; try lia.
  all: try (repeat split; set_solver).
  all: rewrite Hm, Hauto in *; done.
Qed.











(** With the default options and [Math.random()] at the number nearest to
    one tenth, [setTimeout] is handed exactly 1100. *)
Example backoff_delay_one_tenth :
  backoff_delay (of_Z 1000) 0
    (SpecFloat.S754_finite false 7205759403792794 (-56))
  = of_Z 1100.
Proof. vm_compute. reflexivity. Qed.



(** *** Explicit close *)

(** What [close] does to the connection it is called on. *)
Lemma close_spec c :
  let r := close c in
  manualClose r.1 = true
  /\ reconnectTimeout r.1 = None
  /\ ws r.1 = None
  /\ connectPromise r.1 = None
  /\ _status r.1 = disconnected
  /\ (forall t, reconnectTimeout c = Some t ->
        (t ∉ (timers r.1).*1) /\ ClearTimeout t ∈ r.2)
  /\ (forall channel sock,
        ws c = Some channel -> sockets c !! channel = Some sock ->
        (exists sock', sockets r.1 !! channel = Some sock'
                       /\ attached sock' = false)
        /\ exists before after,
             r.2 = before ++ [Detach channel; ChannelClose channel] ++ after).
Proof.
  cbv zeta. unfold close, setStatus, set_socket.
  destruct (reconnectTimeout c) as [t|] eqn:Ht; simpl;
    destruct (ws c) as [channel|] eqn:Hw; simpl.
  all: repeat (case_match; simplify_eq/=); simplify_eq/=.
  all: split_and!; try done; try (by apply dec_stable).
  all: try (intros t' [= <-]; split; [|set_solver];
            rewrite list_elem_of_fmap; intros [[t2 q] [Heq Hin]];
            simpl in Heq; subst t2;
            apply list_elem_of_filter in Hin as [Hne _]; by apply Hne).
  all: intros ch sk [= <-] Hsk; simplify_eq; split.
  all: try (eexists; split;
            [apply list_lookup_insert_eq; by eapply lookup_lt_Some|done]).
  all: first [ by eexists [ClearTimeout _], [_]
             | by eexists [ClearTimeout _], []
             | by eexists [], [_]
             | by eexists [], [] ].
Qed.

(** After an explicit close the flag stays set and no event schedules a
    retry. *)
Lemma manualClose_stable c ev :
  manualClose c = true -> manualClose (step c ev).1 = true.
Proof. intros H. destruct ev; unfold_handlers; split_cases; done. Qed.

Lemma no_schedule_after_close c ev t d :
  manualClose c = true -> SetTimeout t d ∉ (step c ev).2.
Proof.
  intros H. destruct ev; unfold_handlers; split_cases; try set_solver.
  all: rewrite H in *; done.
Qed.

(** C8, on the run that shows the defect. A channel drops and a retry is
    scheduled (timer 0); before it fires the caller connects again, that
    attempt fails and schedules a second retry (timer 1), whose handle
    replaces the first in [reconnectTimeout]. [close()] then clears timer 1
    only: timer 0 is still scheduled, and when it fires the connection
    opens a third channel although the manual-close flag is set. *)
Theorem close_misses_earlier_retry :
  let c := (run sample_connection
              [CallConnect None; WsMessage 0 (Some connected_event);
               WsClose 0 1006 EmptyString (dyadic 1 (-1));
               CallConnect None;
               WsClose 1 1006 EmptyString (dyadic 1 (-2));
               CallClose]).1 in
  manualClose c = true
  /\ _status c = disconnected
  /\ (timers c).*1 = [0]
  /\ (step c (TimerFires 0 None)).2
     = [Emit (emit_statusChange connecting); NewWebSocket 2]
  /\ _status (step c (TimerFires 0 None)).1 = connecting
  /\ ws (step c (TimerFires 0 None)).1 = Some 2.
Proof. vm_compute. repeat split; reflexivity. Qed.

End ConnectionProofs.

(** ** More of JS [Map] *)
Module JSMapLaws.
Section JSMapLaws.
Context {K V : Type} `{EqDecision K}.
Implicit Types (m : list (K * V)) (k : K) (v : V).

Lemma get_set_eq k v m :
  JSMap.get k (JSMap.set k v m) = Some v.
Proof.
  induction m as [|[k' v'] m IH]; simpl.
  - by rewrite decide_True.
  - destruct (decide (k' = k)) as [->|Hne]; simpl.
    + by rewrite decide_True.
    + by rewrite decide_False.
Qed.

Lemma get_set_other k k' v m :
  k ≠ k' -> JSMap.get k' (JSMap.set k v m) = JSMap.get k' m.
Proof.
  intros Hne. induction m as [|[k0 v0] m IH]; simpl.
  - by rewrite decide_False.
  - destruct (decide (k0 = k)) as [->|Hne0]; simpl.
    + by rewrite !decide_False.
    + destruct (decide (k0 = k')); [done|]. apply IH.
Qed.

Lemma set_set k v v' m :
  JSMap.set k v' (JSMap.set k v m) = JSMap.set k v' m.
Proof.
  induction m as [|[k0 v0] m IH]; simpl.
  - by rewrite decide_True.
  - destruct (decide (k0 = k)) as [->|Hne]; simpl.
    + by rewrite decide_True.
    + rewrite decide_False by done. by rewrite IH.
Qed.

Lemma delete_set_fresh k v m :
  k ∉ JSMap.keys m -> JSMap.delete k (JSMap.set k v m) = m.
Proof.
  unfold JSMap.keys. induction m as [|[k' v'] m IH]; simpl.
  - intros _. by rewrite decide_True.
  - intros [Hne Hk]%not_elem_of_cons. rewrite decide_False by done. simpl.
    rewrite decide_False by done. by rewrite IH.
Qed.

Lemma elem_of_set_other (e : K * V) k v m :
  e ∈ m -> e.1 ≠ k -> e ∈ JSMap.set k v m.
Proof.
  induction m as [|[k' v'] m IH]; simpl; [by intros ?%elem_of_nil|].
  intros [->|He]%elem_of_cons Hne.
  - simpl in Hne. rewrite decide_False by done. left.
  - destruct (decide (k' = k)); [by right|]. right. by apply IH.
Qed.
End JSMapLaws.
End JSMapLaws.

(** ** The life of a session *)
Module SessionLifecycleProofs.
Import Session JSMapFacts JSMapLaws Samples SessionProofs SessionRuns Transform.

Lemma with_pendingQuestions_same s :
  pendingQuestions s = [] -> with_pendingQuestions [] s = s.
Proof. destruct s; simpl; by intros ->. Qed.

Lemma with_pendingAcks_same s :
  pendingAcks s = [] -> with_pendingAcks [] s = s.
Proof. destruct s; simpl; by intros ->. Qed.

Lemma reject_all_fields e s :
  let r1 := reject_questions e s in
  let r2 := reject_acks e r1.1 in
  connection r2.1 = connection s /\ ackCounter r2.1 = ackCounter s
  /\ recipients r2.1 = recipients s /\ nextTimer r2.1 = nextTimer s.
Proof.
  cbv zeta. unfold reject_questions, reject_acks, JSMap.clear. simpl.
  destruct (reject_questions_fold e (pendingQuestions s) s)
    as (H1 & H2 & H3 & H4 & H5 & H6 & _).
  destruct (reject_acks_fold e (pendingAcks s)
              (with_pendingQuestions []
                 (foldl (reject_question e) s (pendingQuestions s))))
    as (G1 & G2 & G3 & G4 & G5 & G6 & _).
  simpl in *. rewrite H3. split_and!; congruence.
Qed.

(** X1. [Session.close()] calls, for every pending question,
    [clearTimeout] of its timer and [reject] with the plain
    [Error("Session closed")], once, then [reject] of every pending ack
    with the same error, then [connection.close()] if there is a
    connection, and nothing else. Both maps end empty, the connection is
    dropped, [ackCounter] is not reset, no timer of a pending question
    stays scheduled, and every promise that was pending ends rejected with
    that error. *)
Theorem close_rejects_all_pending (s : Session) :
  wf s ->
  let r := close s in
  let e := PlainError "Session closed" in
  pendingQuestions r.1 = [] /\ pendingAcks r.1 = []
  /\ connection r.1 = None
  /\ ackCounter r.1 = ackCounter s
  /\ r.2 = flat_map (fun entry => [ClearTimeout (timeoutId entry.2);
                                   QuestionReject (q_promise entry.2) e])
             (pendingQuestions s)
           ++ map (fun entry => AckReject entry.1 e) (pendingAcks s)
           ++ match connection s with
              | Some _ => [ConnectionClose]
              | None => []
              end
  /\ (forall entry, entry ∈ pendingQuestions s ->
        settlements (q_promise entry.2) r.2 = 1
        /\ (timeoutId entry.2 ∉ timer_id <$> timers r.1)
        /\ promises r.1 !! q_promise entry.2
           = Some {| state := Rejected e; role := Response |})
  /\ (forall entry rl, entry ∈ pendingAcks s ->
        promises s !! a_promise entry.2
        = Some {| state := Pending; role := rl |} ->
        promises r.1 !! a_promise entry.2
        = Some {| state := Rejected e; role := rl |}).
Proof.
  intros Hs. cbv zeta. unfold close.
  destruct (reject_all_state (PlainError "Session closed") s)
    as (H1 & H2 & _ & _ & H5).
  destruct (reject_all_fields (PlainError "Session closed") s)
    as (F1 & F2 & _).
  destruct (reject_all_outcome (PlainError "Session closed") s Hs) as (H7 & H8).
  cbv zeta in *.
  destruct (reject_questions (PlainError "Session closed") s) as [s1 fx1].
  change ((s1, fx1).1) with s1 in *. change ((s1, fx1).2) with fx1 in *.
  destruct (reject_acks (PlainError "Session closed") s1) as [s2 fx2].
  simpl in *. rewrite F1.
  assert (Hq : forall entry, entry ∈ pendingQuestions s ->
            forall tail, settlements (q_promise entry.2) tail = 0 ->
            settlements (q_promise entry.2) (fx1 ++ fx2 ++ tail) = 1).
  { intros entry Hin tail Ht. destruct (H7 entry Hin) as (Hn & _).
    rewrite app_assoc, settlements_app, Hn, Ht. lia. }
  destruct (connection s); simpl.
  - split_and!; try done.
    + by rewrite app_assoc, H5, <- app_assoc.
    + intros entry Hin. destruct (H7 entry Hin) as (? & ? & _ & ?).
      split_and!; [by apply Hq|done..].
  - split_and!; try done.
    + by rewrite H5, app_nil_r.
    + intros entry Hin. destruct (H7 entry Hin) as (? & ? & _ & ?). done.
Qed.

Lemma close_rejects_all_pending_witness :
  pendingQuestions (close one_question_one_ack).1 = []
  /\ pendingAcks (close one_question_one_ack).1 = [].
Proof.
  destruct (close_rejects_all_pending one_question_one_ack)
    as (H1 & H2 & _).
  - apply wf_run, wf_new.
  - split; [exact H1|exact H2].
Defined.

(** X2. After [close()] the session is at rest and still usable: a
    second [close()], a late acknowledgment, a late update and a close
    signal of any code, the session-expired one included, change nothing and
    call nothing; the next [log()] makes a new connection. *)
Theorem closed_session_ignores_late_events (s : Session) :
  let s' := (close s).1 in
  close s' = (s', [])
  /\ (forall data_id, onMessageAck data_id s' = (s', []))
  /\ (forall raw, onMessageUpdated raw s' = (s', []))
  /\ (forall code, onDisconnected code s' = (s', []))
  /\ step s' CallLog
     = (with_connection (Some ()) s', [CreateConnection; ConnectionConnect]).
Proof.
  cbv zeta.
  destruct (reject_all_state (PlainError "Session closed") s)
    as (H1 & H2 & _).
  destruct (reject_all_fields (PlainError "Session closed") s) as (F1 & _).
  assert (Hc : pendingQuestions (close s).1 = [] /\ pendingAcks (close s).1 = []
               /\ connection (close s).1 = None).
  { cbv zeta in *. unfold close.
    destruct (reject_questions (PlainError "Session closed") s) as [s1 fx1].
    change ((s1, fx1).1) with s1 in *.
    destruct (reject_acks (PlainError "Session closed") s1) as [s2 fx2].
    simpl in *. destruct (connection s2) eqn:E; simpl; split_and!; done. }
  destruct Hc as (Q & A & C). generalize dependent (close s).1. clear.
  intros s' Q A C.
  assert (Hq : forall e, reject_questions e s' = (s', [])).
  { intros e. unfold reject_questions, JSMap.clear. rewrite Q.
    cbn [foldl flat_map]. by rewrite with_pendingQuestions_same. }
  assert (Ha : forall e, reject_acks e s' = (s', [])).
  { intros e. unfold reject_acks, JSMap.clear. rewrite A.
    cbn [foldl map]. by rewrite with_pendingAcks_same. }
  split_and!.
  - unfold close. rewrite Hq, Ha, C. done.
  - intros data_id. unfold onMessageAck, JSMap.size. rewrite A. done.
  - intros raw. unfold onMessageUpdated, handleResponse.
    repeat case_match; try done. rewrite Q in *. done.
  - intros code. unfold onDisconnected. case_decide; [|done].
    by rewrite Hq, Ha.
  - simpl. unfold log_begin, ensureConnected. by rewrite C.
Qed.

(** X3. [ackCounter] counts the calls of [sendAndWaitForAck]: over any
    run it grows by one for each send, whether the send went out or threw,
    and by nothing else; neither [close()] nor session expiry resets it, so
    a key of [pendingAcks] is never used twice. *)
Theorem ackCounter_counts_sends (s : Session) (evs : list Event) :
  ackCounter (run s evs).1 = ackCounter s + sends evs.
Proof.
  revert s. induction evs as [|ev evs IH]; intros s; simpl; [unfold sends; simpl; lia|].
  assert (Hstep : ackCounter (step s ev).1
                  = ackCounter s + (if is_send ev then 1 else 0)).
  { destruct ev; simpl.
    - unfold log_begin, ensureConnected. case_match; simpl; lia.
    - unfold log_resume, sendAndWaitForAck. case_match; simpl; lia.
    - unfold ask_begin, ensureConnected. repeat case_match; simplify_eq/=; lia.
    - unfold ask_resume, sendAndWaitForAck. case_match; simpl; lia.
    - unfold onMessageAck. repeat case_match; simplify_eq/=; try lia.
      match goal with H : resolve_ack _ _ _ = _ |- _ =>
        pose proof (resolve_ack_frame p data_id
          (with_pendingAcks (JSMap.delete n (pendingAcks s)) s)) as Hf;
        rewrite H in Hf end.
      simpl in Hf. destruct Hf as (_ & Hc & _). lia.
    - unfold onMessageUpdated, handleResponse. repeat case_match; simpl; lia.
    - unfold onDisconnected. case_decide; [|simpl; lia].
      destruct (reject_all_fields SessionExpired s) as (_ & F & _).
      cbv zeta in F.
      destruct (reject_questions SessionExpired s) as [s1 fx1].
      change ((s1, fx1).1) with s1 in *.
      destruct (reject_acks SessionExpired s1) as [s2 fx2]. simpl in *. lia.
    - unfold timeout_fires. case_match; simpl; lia.
    - unfold close.
      destruct (reject_all_fields (PlainError "Session closed") s) as (_ & F & _).
      cbv zeta in F.
      destruct (reject_questions _ s) as [s1 fx1].
      change ((s1, fx1).1) with s1 in *.
      destruct (reject_acks _ s1) as [s2 fx2]. simpl in *.
      case_match; simpl; lia. }
  destruct (step s ev) as [s1 fx1]. specialize (IH s1).
  destruct (run s1 evs) as [s2 fx2]. simpl in *. rewrite IH, Hstep.
  unfold sends. simpl. destruct (is_send ev); simpl; lia.
Qed.

Lemma filter_fresh_timer (ts : list Timer) tm :
  Forall (fun t => timer_id t < timer_id tm) ts ->
  filter (fun x => timer_id x ≠ timer_id tm) (ts ++ [tm]) = ts.
Proof.
  intros Hf. rewrite filter_app, filter_cons_False, filter_nil, app_nil_r.
  - induction Hf as [|t ts Ht Hf IH]; [done|].
    rewrite filter_cons_True by lia. by rewrite IH.
  - by intros ?.
Qed.

Lemma settle_last ps r st :
  settle (length ps) st (ps ++ [{| state := Pending; role := r |}])
  = ps ++ [{| state := st; role := r |}].
Proof.
  unfold settle. rewrite lookup_app_r by lia. rewrite Nat.sub_diag. simpl.
  rewrite insert_app_r_alt by lia. by rewrite Nat.sub_diag.
Qed.

(** A send on an open channel with no older ack pending, then the next
    acknowledgment. *)
Lemma sent_then_acked r payload id s :
  pendingAcks s = [] ->
  let s1 := with_pendingAcks []
              (with_promises
                 (promises s ++ [{| state := Fulfilled (JString (units id));
                                    role := r |}])
                 (with_ackCounter (S (ackCounter s)) s)) in
  onMessageAck id (sendAndWaitForAck r payload true s).1
  = match r with
    | AckOfAsk timeout =>
        ((await_response id timeout s1).1,
         AckResolve (S (ackCounter s)) id :: (await_response id timeout s1).2)
    | _ => (s1, [AckResolve (S (ackCounter s)) id])
    end.
Proof.
  intros Ha s1.
  rewrite (onMessageAck_head id _ (S (ackCounter s))
             {| a_promise := length (promises s) |} []).
  2:{ unfold sendAndWaitForAck. simpl. by rewrite Ha. }
  unfold resolve_ack, sendAndWaitForAck. simpl.
  rewrite lookup_app_r by lia. rewrite Nat.sub_diag. simpl.
  unfold settle_in. simpl. rewrite settle_last.
  destruct r; done.
Qed.

(** X4. A [log] sent on an open channel while no older ack is pending
    completes at the next acknowledgment: its payload goes out with
    [persist] defaulting to [true], the ack fulfils its promise with the
    message id, and no question is recorded and no timer set. *)
Theorem log_completes_at_its_ack (s : Session) (message : string)
    (options : LogOptions) (id : string) :
  pendingAcks s = [] ->
  let r := run s [ResumeLog message options true; MessageAck id] in
  r.2 = [ConnectionSend
           {| payload_role := role_agent; payload_type := type_log;
              payload_content := message; payload_inputs := None;
              payload_persist := Some (default true (log_persist options)) |};
         AckResolve (S (ackCounter s)) id]
  /\ promises r.1
     = promises s ++ [{| state := Fulfilled (JString (units id));
                         role := AckOfLog |}]
  /\ pendingAcks r.1 = []
  /\ pendingQuestions r.1 = pendingQuestions s
  /\ timers r.1 = timers s.
Proof.
  intros Ha. cbv zeta. cbn [run step]. unfold log_resume.
  pose proof (sent_then_acked AckOfLog
    {| payload_role := role_agent; payload_type := type_log;
       payload_content := message; payload_inputs := None;
       payload_persist := Some (default true (log_persist options)) |}
    id s Ha) as H.
  cbv zeta in H.
  destruct (sendAndWaitForAck AckOfLog _ true s) as [s1 fx1] eqn:Hsend.
  change ((s1, fx1).1) with s1 in H. rewrite H.
  unfold sendAndWaitForAck in Hsend. simplify_eq/=. done.
Qed.

Lemma log_completes_at_its_ack_witness :
  pendingAcks
    (run sample_session [ResumeLog "a" no_log_options true; MessageAck "m1"]).1
  = [].
Proof.
  destruct (log_completes_at_its_ack sample_session "a" no_log_options "m1")
    as (_ & _ & H & _); [reflexivity|exact H].
Defined.

(** X5. An [ask] from send to answer. Sent on an open channel while no
    older ack is pending, it is recorded at the next acknowledgment under
    the message id of that ack, with a deadline of [options.timeout], or
    five minutes when none is given. The update that answers that id then
    clears the timer and fulfils the promise of [ask] with the decoded
    response, and the pending questions, the pending acks and the scheduled
    timers are again what they were before the call. *)
Theorem ask_round_trip (s : Session) (question : string)
    (options : AskOptions) (raw : ApiMessage) (rc : string) :
  wf s -> pendingAcks s = [] ->
  api_id raw ∉ JSMap.keys (pendingQuestions s) ->
  api_type raw = type_ask -> response_content raw = Some rc ->
  transformMessage raw ≠ None ->
  let timeout := default DEFAULT_ASK_TIMEOUT (ask_timeout options) in
  let a := length (promises s) in
  let sent := ResumeAsk question options true in
  let asked := run s [sent; MessageAck (api_id raw)] in
  let r := run s [sent; MessageAck (api_id raw); MessageUpdated raw] in
  pendingQuestions asked.1
  = pendingQuestions s
    ++ [(api_id raw, {| q_promise := S a; timeoutId := nextTimer s |})]
  /\ timers asked.1
     = timers s ++ [{| timer_id := nextTimer s;
                       timer_messageId := api_id raw;
                       timer_promise := S a; timer_ms := timeout |}]
  /\ r.2 = [ConnectionSend
              {| payload_role := role_agent; payload_type := type_ask;
                 payload_content := question;
                 payload_inputs := Some (ask_inputs options);
                 payload_persist := Some (default true (ask_persist options)) |};
            AckResolve (S (ackCounter s)) (api_id raw);
            SetTimeout (nextTimer s) timeout;
            ClearTimeout (nextTimer s);
            QuestionResolve (S a) (decode rc)]
  /\ promises r.1
     = promises s
       ++ [{| state := Fulfilled (JString (units (api_id raw)));
              role := AckOfAsk timeout |};
           {| state := Fulfilled (decode rc); role := Response |}]
  /\ pendingQuestions r.1 = pendingQuestions s
  /\ pendingAcks r.1 = []
  /\ timers r.1 = timers s.
Proof.
  intros Hs Ha Hk Hty Hrc Htr. cbv zeta.
  destruct (transformMessage raw) as [m|] eqn:Hm; [clear Htr|done].
  assert (Hid : msg_id m = api_id raw) by (by apply transformMessage_id).
  assert (Hmt : msg_type m = type_ask /\ responseContent m = Some rc).
  { unfold transformMessage in Hm. repeat case_match; simplify_eq/=; done. }
  destruct Hmt as [Hmt Hmr].
  cbn [run step]. unfold ask_resume.
  set (timeout := default DEFAULT_ASK_TIMEOUT (ask_timeout options)).
  set (payload := {| payload_role := role_agent; payload_type := type_ask;
                     payload_content := question;
                     payload_inputs := Some (ask_inputs options);
                     payload_persist := Some (default true (ask_persist options)) |}).
  pose proof (sent_then_acked (AckOfAsk timeout) payload (api_id raw) s Ha) as H.
  cbv zeta in H.
  destruct (sendAndWaitForAck (AckOfAsk timeout) payload true s)
    as [s1 fx1] eqn:Hsend.
  change ((s1, fx1).1) with s1 in H. rewrite H.
  unfold sendAndWaitForAck in Hsend. simplify_eq/=.
  rewrite set_fresh by done. rewrite length_app. simpl.
  replace (length (promises s) + 1) with (S (length (promises s))) by lia.
  split; [done|]. split; [done|].
  unfold onMessageUpdated. rewrite Hm, Hmt, Hmr.
  unfold handleResponse. simpl. rewrite Hid.
  rewrite <- (set_fresh (api_id raw)
                {| q_promise := S (length (promises s));
                   timeoutId := nextTimer s |}) by done.
  rewrite get_set_eq. simpl. rewrite Hmr.
  rewrite delete_set_fresh by done.
  pose proof (filter_fresh_timer (timers s)
    {| timer_id := nextTimer s; timer_messageId := api_id raw;
       timer_promise := S (length (promises s));
       timer_ms := timeout |}
    (wf_timer_fresh s Hs)) as Hf.
  simpl in Hf. rewrite Hf.
  split_and!; try done.
  pose proof (settle_last
    (promises s ++ [{| state := Fulfilled (JString (units (api_id raw)));
                       role := AckOfAsk timeout |}])
    Response (Fulfilled (decode rc))) as Hl.
  rewrite length_app in Hl. simpl in Hl.
  replace (length (promises s) + 1) with (S (length (promises s))) in Hl by lia.
  rewrite Hl. by rewrite <- app_assoc.
Qed.

Lemma ask_round_trip_witness :
  promises
    (run sample_session
       [ResumeAsk "Deploy?" sample_ask_options true; MessageAck "m1";
        MessageUpdated (response "m1" "yes")]).1
  = [{| state := Fulfilled (JString (units "m1"));
        role := AckOfAsk DEFAULT_ASK_TIMEOUT |};
     {| state := Fulfilled (JString (units "yes")); role := Response |}].
Proof.
  destruct (ask_round_trip sample_session "Deploy?" sample_ask_options
              (response "m1" "yes") "yes")
    as (_ & _ & _ & H & _); try done.
  - apply wf_new.
  - apply not_elem_of_nil.
Defined.

(** X6. A segment retires or replaces only the pending questions whose
    message id it addresses: every other pending question is still in the
    map afterwards, with its timer scheduled and its promise pending, and
    neither [resolve] nor [reject] of it was called. *)
Theorem other_questions_stay_pending (s : Session) (ev : Event)
    (entry : string * PendingQuestion) :
  wf s -> entry ∈ pendingQuestions s -> entry.1 ∉ addressed s ev ->
  let r := step s ev in
  entry ∈ pendingQuestions r.1
  /\ has_timer (timers r.1) entry
  /\ awaiting_response (promises r.1) (q_promise entry.2)
  /\ settlements (q_promise entry.2) r.2 = 0.
Proof.
  intros Hs Hin Hev. cbv zeta.
  pose proof (wf_step s ev Hs) as Hs'.
  pose proof (wf_question_keys s Hs) as Hnd.
  assert (Hin' : entry ∈ pendingQuestions (step s ev).1).
  { destruct ev; simpl in *.
    - unfold log_begin, ensureConnected. by case_match.
    - unfold log_resume, sendAndWaitForAck. by case_match.
    - unfold ask_begin, ensureConnected. repeat case_match; simplify_eq/=; done.
    - unfold ask_resume, sendAndWaitForAck. by case_match.
    - apply not_elem_of_cons in Hev as [Hne _].
      unfold onMessageAck, resolve_ack, await_response.
      repeat case_match; simplify_eq/=; try done.
      by apply elem_of_set_other.
    - apply not_elem_of_cons in Hev as [Hne _].
      unfold onMessageUpdated, handleResponse.
      destruct (transformMessage raw) as [m|] eqn:Hm; [|done].
      apply transformMessage_id in Hm.
      repeat case_match; simplify_eq/=; try done.
      apply elem_of_delete; [done|]. split; [done|congruence].
    - unfold onDisconnected. case_decide; [|done]. exfalso. apply Hev.
      apply list_elem_of_fmap. by exists entry.
    - unfold timeout_fires.
      destruct (find_timer t (timers s)) as [tm|] eqn:Htm; [|done]. simpl.
      apply not_elem_of_cons in Hev as [Hne _].
      apply elem_of_delete; [done|]. done.
    - exfalso. apply Hev. apply list_elem_of_fmap. by exists entry. }
  pose proof (question_awaiting _ entry Hs' Hin') as Haw.
  pose proof (wf_question_timer _ Hs') as Hqt.
  rewrite Forall_forall in Hqt. split_and!; [done|by apply Hqt|done|].
  destruct (step_settlements s ev (q_promise entry.2) Hs) as [Hle Hone].
  destruct (settlements (q_promise entry.2) (step s ev).2) as [|[|n]];
    [done| |lia].
  by destruct Hone as [_ Hnot].
Qed.

Lemma other_questions_stay_pending_witness :
  ("m1", {| q_promise := 1; timeoutId := 0 |})
  ∈ pendingQuestions
      (step one_question_pending (MessageUpdated (response "m2" "yes"))).1.
Proof.
  destruct (other_questions_stay_pending one_question_pending
              (MessageUpdated (response "m2" "yes"))
              ("m1", {| q_promise := 1; timeoutId := 0 |})) as [H _].
  - apply wf_run, wf_new.
  - vm_compute. left.
  - simpl. apply not_elem_of_cons. split; [discriminate|apply not_elem_of_nil].
  - exact H.
Defined.

Lemma transformMessage_None raw :
  transformMessage raw = None
  <-> exists txt, api_inputs raw = Some txt /\ txt ≠ EmptyString
                  /\ JSON_parse txt = None.
Proof.
  unfold transformMessage. split.
  - repeat case_match; try done. intros _. eexists. split; [done|]. done.
  - intros (txt & -> & Hne & ->). by destruct txt.
Qed.

(** X7. The [messageUpdated] listener acts exactly when the update is of
    type [ask], carries a response, names a pending question, and its
    [inputs] are absent, empty or valid JSON: then it clears the timer of
    that question and resolves it with the decoded response. In every other
    case, an update with malformed [inputs] for a pending question
    included, the session is left as it is. *)
Theorem update_is_acted_on_iff (s : Session) (raw : ApiMessage) :
  let r := onMessageUpdated raw s in
  (r.2 ≠ [] <->
     api_type raw = type_ask /\ response_content raw ≠ None
     /\ api_id raw ∈ JSMap.keys (pendingQuestions s)
     /\ ~ (exists txt, api_inputs raw = Some txt /\ txt ≠ EmptyString
                       /\ JSON_parse txt = None))
  /\ (r.2 = [] -> r.1 = s)
  /\ (forall pending rc,
        r.2 ≠ [] -> JSMap.get (api_id raw) (pendingQuestions s) = Some pending ->
        response_content raw = Some rc ->
        r.2 = [ClearTimeout (timeoutId pending);
               QuestionResolve (q_promise pending) (decode rc)]).
Proof.
  cbv zeta. rewrite <- transformMessage_None. unfold onMessageUpdated.
  destruct (transformMessage raw) as [m|] eqn:Hm; simpl.
  2:{ split_and!; [|done|done]. split; [done|]. by intros (_ & _ & _ & ?). }
  pose proof (transformMessage_id _ _ Hm) as Hid.
  assert (Hf : msg_type m = api_type raw
               /\ responseContent m = response_content raw).
  { unfold transformMessage in Hm. repeat case_match; simplify_eq/=; done. }
  destruct Hf as [Hf1 Hf2]. rewrite Hf1, Hf2.
  destruct (api_type raw); simpl.
  { split_and!; [|done|done]. split; [done|]. by intros (? & _). }
  destruct (response_content raw) as [rc|] eqn:Hrc.
  2:{ split_and!; [|done|done]. split; [done|]. by intros (_ & ? & _). }
  unfold handleResponse. rewrite Hid.
  destruct (JSMap.get (api_id raw) (pendingQuestions s)) as [pending|] eqn:Hg.
  - simpl. split_and!; [|done|].
    + split; [|done]. intros _. split_and!; try done.
      apply get_Some in Hg. apply list_elem_of_fmap.
      by exists (api_id raw, pending).
    + intros p rc' _ [= <-] [= <-]. by rewrite Hf2.
  - simpl. split_and!; [|done|done]. split; [done|].
    intros (_ & _ & Hk & _). by apply get_None in Hg.
Qed.

(** X8. When [connection.send] throws, the promise of
    [sendAndWaitForAck] is rejected with [WebSocketError] but its entry
    stays in [pendingAcks]. The next acknowledgment is spent on that entry,
    whose promise is settled already, and the send that the acknowledgment
    answers stays pending. *)
Theorem failed_send_keeps_its_slot (s : Session) (r : Role)
    (payload : WebSocketSendPayload) (message : string)
    (options : LogOptions) (id : string) :
  pendingAcks s = [] ->
  let e := WebSocketError "WebSocket is not connected" in
  let p := length (promises s) in
  let failed := sendAndWaitForAck r payload false s in
  let later := run failed.1 [ResumeLog message options true; MessageAck id] in
  failed.2 = [ExecutorThrow p e]
  /\ pendingAcks failed.1 = [(S (ackCounter s), {| a_promise := p |})]
  /\ promises failed.1
     = promises s ++ [{| state := Rejected e; role := r |}]
  /\ acknowledged later.2 = [S (ackCounter s)]
  /\ pendingAcks later.1 = [(S (S (ackCounter s)), {| a_promise := S p |})]
  /\ promises later.1
     = promises s ++ [{| state := Rejected e; role := r |};
                      {| state := Pending; role := AckOfLog |}]
  /\ pendingQuestions later.1 = pendingQuestions s
  /\ timers later.1 = timers s.
Proof.
  intros Ha. cbv zeta.
  assert (Hf : sendAndWaitForAck r payload false s
               = (with_pendingAcks
                    [(S (ackCounter s), {| a_promise := length (promises s) |})]
                    (with_promises
                       (promises s ++
                        [{| state := Rejected
                                       (WebSocketError "WebSocket is not connected");
                            role := r |}])
                       (with_ackCounter (S (ackCounter s)) s)),
                  [ExecutorThrow (length (promises s))
                     (WebSocketError "WebSocket is not connected")])).
  { unfold sendAndWaitForAck, settle_in. simpl. rewrite Ha. simpl.
    by rewrite settle_last. }
  rewrite Hf. simpl. split_and!; try done.
  all: unfold log_resume, sendAndWaitForAck; simpl.
  all: rewrite decide_False by lia; simpl.
  all: unfold onMessageAck, JSMap.size; simpl.
  all: unfold JSMap.first_key; simpl.
  all: rewrite !decide_True by done; simpl.
  all: rewrite ?decide_False by lia; simpl.
  all: unfold resolve_ack; simpl.
  all: rewrite length_app; simpl.
  all: rewrite lookup_app_l by (rewrite length_app; simpl; lia).
  all: rewrite lookup_app_r by lia; rewrite Nat.sub_diag; simpl.
  all: try done.
  all: try (by rewrite <- app_assoc).
  all: f_equal; f_equal; f_equal; lia.
Qed.

Lemma failed_send_keeps_its_slot_witness :
  acknowledged
    (run (sendAndWaitForAck AckOfLog
            {| payload_role := role_agent; payload_type := type_log;
               payload_content := "a"; payload_inputs := None;
               payload_persist := None |} false sample_session).1
       [ResumeLog "b" no_log_options true; MessageAck "m1"]).2
  = [1].
Proof.
  destruct (failed_send_keeps_its_slot sample_session AckOfLog
              {| payload_role := role_agent; payload_type := type_log;
                 payload_content := "a"; payload_inputs := None;
                 payload_persist := None |} "b" no_log_options "m1")
    as (_ & _ & _ & H & _); [reflexivity|exact H].
Defined.

Lemma step_recipients s ev : recipients (step s ev).1 = recipients s.
Proof.
  destruct ev; simpl.
  - unfold log_begin, ensureConnected. by case_match.
  - unfold log_resume, sendAndWaitForAck. by case_match.
  - unfold ask_begin, ensureConnected. repeat case_match; simplify_eq/=; done.
  - unfold ask_resume, sendAndWaitForAck. by case_match.
  - unfold onMessageAck, resolve_ack, await_response.
    repeat case_match; simplify_eq/=; done.
  - unfold onMessageUpdated, handleResponse. by repeat case_match.
  - unfold onDisconnected. case_decide; [|done].
    destruct (reject_all_fields SessionExpired s) as (_ & _ & F & _).
    cbv zeta in F.
    destruct (reject_questions SessionExpired s) as [s1 fx1].
    change ((s1, fx1).1) with s1 in *.
    by destruct (reject_acks SessionExpired s1) as [s2 fx2].
  - unfold timeout_fires. by case_match.
  - unfold close.
    destruct (reject_all_fields (PlainError "Session closed") s)
      as (_ & _ & F & _).
    cbv zeta in F.
    destruct (reject_questions _ s) as [s1 fx1].
    change ((s1, fx1).1) with s1 in *.
    destruct (reject_acks _ s1) as [s2 fx2]. simpl in *.
    by case_match.
Qed.

Lemma run_recipients s evs : recipients (run s evs).1 = recipients s.
Proof.
  revert s. induction evs as [|ev evs IH]; intros s; simpl; [done|].
  pose proof (step_recipients s ev) as H.
  destruct (step s ev) as [s1 fx1]. specialize (IH s1).
  destruct (run s1 evs) as [s2 fx2]. simpl in *. congruence.
Qed.

(** X9. What holds of a session after any run from its construction:
    the keys of [pendingAcks] increase strictly and are at most
    [ackCounter]; the pending questions have distinct ids, distinct
    promises and distinct timers; each has its own timer scheduled and its
    promise pending; every scheduled timer belongs to a promise that is
    still pending, so no timer outlives the settlement of its question;
    and [recipients] is what the constructor stored. *)
Theorem session_invariants (data_recipients : option (list Recipient))
    (evs : list Event) :
  let s := (run (new_Session data_recipients) evs).1 in
  StronglySorted lt (JSMap.keys (pendingAcks s))
  /\ Forall (fun k => k <= ackCounter s) (JSMap.keys (pendingAcks s))
  /\ NoDup (JSMap.keys (pendingQuestions s))
  /\ NoDup ((fun x => q_promise x.2) <$> pendingQuestions s)
  /\ NoDup ((fun x => timeoutId x.2) <$> pendingQuestions s)
  /\ (forall entry, entry ∈ pendingQuestions s ->
        has_timer (timers s) entry
        /\ awaiting_response (promises s) (q_promise entry.2))
  /\ (forall t, t ∈ timers s ->
        awaiting_response (promises s) (timer_promise t))
  /\ NoDup (timer_id <$> timers s)
  /\ recipients s = default [] data_recipients.
Proof.
  cbv zeta. pose proof (wf_reachable data_recipients evs) as Hs.
  pose proof Hs as [].
  rewrite Forall_forall in wf_question_timer0.
  rewrite Forall_forall in wf_timer_pending0.
  split_and!; try done.
  - by apply question_promises_NoDup.
  - apply NoDup_fmap_2_strong; [|by eapply NoDup_fmap_1].
    intros x y Hx Hy Heq.
    destruct (wf_question_timer0 x Hx) as (tx & Htx & Hix & Hpx & Hmx).
    destruct (wf_question_timer0 y Hy) as (ty & Hty & Hiy & Hpy & Hmy).
    assert (tx = ty) as ->.
    { apply (fmap_inj_on timer_id
               (timers (run (new_Session data_recipients) evs).1));
        [done..|congruence]. }
    apply (fmap_inj_on fst
             (pendingQuestions (run (new_Session data_recipients) evs).1));
      [done..|congruence].
  - intros entry Hin. split; [by apply wf_question_timer0|].
    by apply question_awaiting.
  - by rewrite run_recipients.
Qed.

(** X10. A session made by [create] or [resume] holds the recipients of
    the response of the API in the SDK format, none if the response has no
    [recipients]; [ask] is refused exactly when the response had none or
    an empty list, and that does not change over the life of the
    session. *)
Theorem ask_gate_follows_api_recipients (apiResponse : ApiSessionData) :
  let s := session_of_response apiResponse in
  recipients s
  = transformRecipient <$> default [] (api_recipients apiResponse)
  /\ ((exists e, (ask_begin s).2 = Some e)
      <-> api_recipients apiResponse = None
          \/ api_recipients apiResponse = Some [])
  /\ (forall evs, (exists e, (ask_begin (run s evs).1).2 = Some e)
                  <-> (exists e, (ask_begin s).2 = Some e)).
Proof.
  cbv zeta. unfold session_of_response, transformSessionData. simpl.
  split_and!.
  - by destruct (api_recipients apiResponse).
  - unfold ask_begin. simpl.
    destruct (api_recipients apiResponse) as [[|r rs]|]; simpl.
    + split; [by right|by eexists].
    + split; [by intros [? ?]|by intros [?|?]].
    + split; [by left|by eexists].
  - intros evs. unfold ask_begin. rewrite run_recipients.
    repeat case_decide; try done.
    all: repeat (destruct (ensureConnected _) as [? ?]); simpl; try done.
Qed.

End SessionLifecycleProofs.

(** ** The life of a connection *)
Module ConnectionLifecycleProofs.
Import Number Connection Samples ConnectionProofs ConnectionRuns.

Lemma chain_app a l1 b l2 c :
  chain a l1 b -> chain b l2 c -> chain a (l1 ++ l2) c.
Proof.
  revert a. induction l1 as [|x l1 IH]; intros a; simpl.
  - by intros ->.
  - intros [Hne H1] H2. split; [done|]. by apply IH.
Qed.

Lemma chain_spec a l b :
  chain a l b -> last (a :: l) = Some b /\ no_stutter (a :: l).
Proof.
  revert a. induction l as [|x l IH]; intros a.
  - simpl. by intros ->.
  - intros [Hne H]. destruct (IH x H) as [H1 H2]. split; [|done].
    by rewrite last_cons_cons.
Qed.

Lemma step_chain c ev :
  chain (_status c) (status_changes (step c ev).2) (_status (step c ev).1).
Proof.
  destruct ev; unfold_handlers; split_cases; simpl; try done.
  all: try (split; done).
  all: try (by apply dec_stable).
  all: try congruence.
Qed.

Lemma status_changes_app fx1 fx2 :
  status_changes (fx1 ++ fx2) = status_changes fx1 ++ status_changes fx2.
Proof. apply omap_app. Qed.

Lemma run_chain evs c :
  chain (_status c) (status_changes (run c evs).2) (_status (run c evs).1).
Proof.
  revert c. induction evs as [|ev evs IH]; intros c; simpl; [done|].
  pose proof (step_chain c ev) as H1.
  destruct (step c ev) as [c1 fx1]. specialize (IH c1).
  destruct (run c1 evs) as [c2 fx2]. simpl in *.
  rewrite status_changes_app. by eapply chain_app.
Qed.

(** X11. The [statusChange] listeners see every change of the status
    and nothing else: over any run the statuses handed to them, after the
    status at the start, never repeat the one before, and the last of them
    is the status at the end. *)
Theorem status_changes_follow_the_status (c : WebSocketConnection)
    (evs : list Event) :
  let r := run c evs in
  let seen := _status c :: status_changes r.2 in
  last seen = Some (_status r.1) /\ no_stutter seen.
Proof. cbv zeta. apply chain_spec, run_chain. Qed.

(** X12. In every reachable state [isConnected] is true exactly when
    the status is [connected], and then no attempt is recorded in
    [connectPromise]; the status becomes [connected] only through the
    handshake frame on a channel whose handlers are attached. *)
Theorem connected_only_by_handshake opts (c : WebSocketConnection)
    (ev : Event) :
  reachable opts c ->
  (_connected c = true <-> _status c = connected)
  /\ (_status c = connected -> connectPromise c = None)
  /\ (_status c ≠ connected -> _status (step c ev).1 = connected ->
      exists channel sock,
        ev = WsMessage channel (Some connected_event)
        /\ sockets c !! channel = Some sock /\ attached sock = true).
Proof.
  intros Hr. destruct (reachable_coherent opts c Hr) as [H1 H2].
  split_and!.
  - rewrite H1. apply bool_decide_eq_true.
  - intros Hc. apply H2. rewrite H1. by apply bool_decide_eq_true.
  - clear. intros Hne. destruct ev.
    all: unfold_handlers; split_cases; simpl; intros; try done.
    all: eauto 10.
Qed.

Lemma connected_only_by_handshake_witness :
  _connected connected_sample = true <-> _status connected_sample = connected.
Proof.
  destruct (connected_only_by_handshake (default_options "key")
              connected_sample CallClose) as [H _]; [|exact H].
  exists [CallConnect None; WsMessage 0 (Some connected_event)].
  vm_compute. reflexivity.
Defined.

(** The connection after [close()], when it held a channel. *)
Lemma closed_state c channel :
  ws c = Some channel ->
  let c' := (close c).1 in
  ws c' = None /\ connectPromise c' = None /\ reconnectTimeout c' = None
  /\ _status c' = disconnected
  /\ manualClose c' = true
  /\ reconnectAttempts c' = reconnectAttempts c
  /\ promises c' = promises c
  /\ (forall sock, sockets c' !! channel = Some sock -> attached sock = false).
Proof.
  intros Hw. cbv zeta. unfold close, setStatus, set_socket. simpl.
  destruct (reconnectTimeout c) eqn:Ht; simpl; rewrite Hw; simpl.
  all: destruct (sockets c !! channel) eqn:Hs; simpl.
  all: case_decide as Hst; simpl.
  all: split_and!; try done; try (by apply dec_stable).
  all: intros sock Hsock; try congruence.
  all: rewrite list_lookup_insert_eq in Hsock by (by eapply lookup_lt_Some).
  all: by simplify_eq.
Qed.

(** X13. After [close()] the channel the connection held is silent: an
    open, message, error or close event of that channel emits nothing and
    leaves the status, [ws], [connectPromise], the retry handle, the
    counter, the promises and the timers as they are, and [send] throws
    [WebSocketError("WebSocket is not connected")]. *)
Theorem closed_channel_is_silent (c : WebSocketConnection) (channel : nat)
    (ev : Event) :
  ws c = Some channel -> channel_of ev = Some channel ->
  let c' := (close c).1 in
  let r := step c' ev in
  r.2 = []
  /\ _status r.1 = disconnected /\ _connected r.1 = _connected c'
  /\ ws r.1 = None /\ connectPromise r.1 = None
  /\ reconnectTimeout r.1 = None
  /\ reconnectAttempts r.1 = reconnectAttempts c
  /\ promises r.1 = promises c /\ timers r.1 = timers c'
  /\ (forall data,
        send data r.1
        = (r.1, [Throw (WebSocketError "WebSocket is not connected")])).
Proof.
  intros Hw Hev. cbv zeta.
  destruct (closed_state c channel Hw)
    as (C1 & C2 & C3 & C4 & C5 & C6 & C7 & C8).
  cbv zeta in *. generalize dependent (close c).1. intros c' C1 C2 C3 C4 C5 C6 C7 C8.
  destruct ev; simpl in Hev; simplify_eq.
  all: unfold step, on_channel, set_socket, send.
  all: destruct (sockets c' !! channel) as [sock|] eqn:Hs; simpl.
  all: try (rewrite (C8 sock eq_refl)); simpl; rewrite ?C1; simpl.
  all: rewrite ?list_lookup_insert_eq by (by eapply lookup_lt_Some).
  all: split_and!; try done.
Qed.

Lemma closed_channel_is_silent_witness :
  (step (close connected_sample).1
     (WsClose 0 1006 EmptyString (of_Z 0))).2 = [].
Proof.
  destruct (closed_channel_is_silent connected_sample 0
              (WsClose 0 1006 EmptyString (of_Z 0))) as [H _];
    [vm_compute; reflexivity|reflexivity|exact H].
Defined.

Lemma no_schedule_Forall (fx : list Effect) :
  (forall t d, SetTimeout t d ∉ fx) ->
  Forall (fun e => schedules_retry e = false) fx.
Proof.
  intros H. apply Forall_forall. intros e He.
  destruct e; try done. by apply H in He.
Qed.

(** X14. Once [close()] was called the manual-close flag stays set for
    good, also through later calls of [connect()], and no segment schedules
    a retry any more. *)
Theorem no_retry_is_scheduled_after_close (c : WebSocketConnection)
    (evs : list Event) :
  manualClose c = true ->
  manualClose (run c evs).1 = true
  /\ Forall (fun e => schedules_retry e = false) (run c evs).2.
Proof.
  revert c. induction evs as [|ev evs IH]; intros c Hc; simpl; [done|].
  pose proof (manualClose_stable c ev Hc) as H1.
  pose proof (no_schedule_Forall _ (fun t d => no_schedule_after_close c ev t d Hc))
    as H2.
  destruct (step c ev) as [c1 fx1]. destruct (IH c1 H1) as [H3 H4].
  destruct (run c1 evs) as [c2 fx2]. simpl in *.
  split; [done|]. by apply Forall_app.
Qed.

Lemma no_retry_is_scheduled_after_close_witness :
  manualClose
    (run (close connected_sample).1
       [CallConnect None; WsClose 1 1006 EmptyString (of_Z 0)]).1 = true.
Proof.
  destruct (no_retry_is_scheduled_after_close (close connected_sample).1
              [CallConnect None; WsClose 1 1006 EmptyString (of_Z 0)])
    as [H _]; [vm_compute; reflexivity|exact H].
Defined.

(** X15. When [new WebSocket] throws in the first [connect()], the
    promise is rejected with [WebSocketError], the status is [error], and
    the rejected promise is left in [connectPromise]: the assignment of the
    new promise follows the executor that cleared the field. Until
    [close()] is called, every later [connect()] returns that rejected
    promise and no event or timer opens a channel. *)
Theorem failed_constructor_is_remembered (opts : ResolvedWebSocketOptions)
    (message : string) (evs : list Event) :
  Forall (fun ev => is_close ev = false) evs ->
  let failed := connect (Some message) (new_WebSocketConnection opts) in
  let c := failed.1.1 in
  failed.1.2 = 0
  /\ promises c = [Failed (WebSocketError message)]
  /\ connectPromise c = Some 0 /\ _status c = error
  /\ (run c evs).1 = c
  /\ Forall (fun e => opens_channel e = false) (run c evs).2
  /\ (forall throws, connect throws (run c evs).1 = (c, 0, [])).
Proof.
  intros Hev. cbv zeta.
  set (c := (connect (Some message) (new_WebSocketConnection opts)).1.1).
  assert (Hstep : forall ev, is_close ev = false ->
            (step c ev).1 = c
            /\ Forall (fun e => opens_channel e = false) (step c ev).2).
  { intros ev Hne. destruct ev; try done; vm_compute; split; try done.
    all: repeat constructor. }
  assert (Hrun : (run c evs).1 = c
                 /\ Forall (fun e => opens_channel e = false) (run c evs).2).
  { induction Hev as [|ev evs Hne Hev IH]; simpl; [done|].
    destruct (Hstep ev Hne) as [H1 H2].
    destruct (step c ev) as [c1 fx1]. simpl in H1. subst c1.
    destruct (run c evs) as [c2 fx2]. simpl in *.
    destruct IH as [-> H3]. split; [done|]. by apply Forall_app. }
  destruct Hrun as [Hr1 Hr2]. rewrite Hr1. split_and!; done.
Qed.

Lemma failed_constructor_is_remembered_witness :
  let c := (connect (Some "Invalid URL") sample_connection).1.1 in
  (run c [CallConnect None; TimerFires 0 None; CallConnect None]).1 = c.
Proof.
  intros c.
  destruct (failed_constructor_is_remembered (default_options "key")
              "Invalid URL"
              [CallConnect None; TimerFires 0 None; CallConnect None])
    as (_ & _ & _ & _ & H & _); [repeat constructor|exact H].
Defined.

(** X16. A retry that fires while an attempt is recorded in
    [connectPromise] opens no channel and emits nothing, yet it counts: the
    attempt counter grows by one. *)
Theorem retry_during_an_attempt_opens_nothing (c : WebSocketConnection)
    (t : TimerId) (throws : option string) (p : PromiseId) :
  t ∈ (timers c).*1 -> connectPromise c = Some p ->
  let r := step c (TimerFires t throws) in
  r.2 = [] /\ sockets r.1 = sockets c /\ ws r.1 = ws c
  /\ connectPromise r.1 = Some p /\ promises r.1 = promises c
  /\ reconnectAttempts r.1 = (reconnectAttempts c + 1)%Z
  /\ (t ∉ (timers r.1).*1).
Proof.
  intros Ht Hp. cbv zeta. unfold step, reconnect_fires, connect.
  rewrite decide_True by done. simpl. rewrite Hp. simpl.
  split_and!; try done.
  intros ([t' d] & Heq & Hin)%list_elem_of_fmap. simpl in Heq. subst t'.
  by apply list_elem_of_filter in Hin as [Hne _].
Qed.

Lemma retry_during_an_attempt_opens_nothing_witness :
  let c := (run sample_connection
              [CallConnect None; WsMessage 0 (Some connected_event);
               WsClose 0 1006 EmptyString (of_Z 0); CallConnect None]).1 in
  (step c (TimerFires 0 None)).2 = []
  /\ reconnectAttempts (step c (TimerFires 0 None)).1 = 1%Z.
Proof.
  intros c.
  destruct (retry_during_an_attempt_opens_nothing c 0 None 1)
    as (H1 & _ & _ & _ & _ & H6 & _).
  - vm_compute. left.
  - vm_compute. reflexivity.
  - split; [exact H1|exact H6].
Defined.

Lemma step_no_retry c ev :
  autoReconnect (options c) = false
  \/ (maxReconnectAttempts (options c) <= 0 /\ 0 <= reconnectAttempts c)%Z ->
  (autoReconnect (options (step c ev).1) = false
   \/ (maxReconnectAttempts (options (step c ev).1) <= 0
       /\ 0 <= reconnectAttempts (step c ev).1)%Z)
  /\ Forall (fun e => schedules_retry e = false) (step c ev).2.
Proof.
  intros H. destruct ev; unfold_handlers; split_cases.
  all: split; [simpl; try done; try lia|repeat constructor].
  all: try (destruct H as [H|H]; [by left|right; lia]).
  all: try (destruct H as [H|H]; [congruence|lia]).
  all: exfalso.
  all: match goal with
       | Hb : negb _ && autoReconnect _ = true |- _ =>
           apply andb_prop in Hb as [_ Hb]
       end.
  all: destruct H as [H|H]; [congruence|lia].
Qed.

(** X17. A connection made by [createWebSocketConnection] with
    [autoReconnect: false], or with [maxReconnectAttempts] zero or less,
    never schedules a retry: [??] keeps the given [false] or [0]. *)
Theorem no_retry_without_auto_reconnect (client : ResolvedClientOptions)
    (sessionId : string) (wsOptions : WebSocketOptions) (evs : list Event) :
  ws_autoReconnect wsOptions = Some false
  \/ (exists m, ws_maxReconnectAttempts wsOptions = Some m /\ (m <= 0)%Z) ->
  let c := (createWebSocketConnection client sessionId wsOptions).2 in
  Forall (fun e => schedules_retry e = false) (run c evs).2.
Proof.
  intros H. cbv zeta.
  assert (Hc : autoReconnect
                 (options (createWebSocketConnection client sessionId wsOptions).2)
               = false
               \/ (maxReconnectAttempts
                     (options (createWebSocketConnection client sessionId wsOptions).2)
                   <= 0
                   /\ 0 <= reconnectAttempts
                             (createWebSocketConnection client sessionId wsOptions).2)%Z).
  { simpl. destruct H as [->|(m & -> & Hm)]; [by left|right]. simpl. lia. }
  generalize dependent (createWebSocketConnection client sessionId wsOptions).2.
  intros c Hc. revert c Hc.
  induction evs as [|ev evs IH]; intros c Hc; simpl; [constructor|].
  destruct (step_no_retry c ev Hc) as [H1 H2].
  destruct (step c ev) as [c1 fx1]. specialize (IH c1 H1).
  destruct (run c1 evs) as [c2 fx2]. simpl in *. by apply Forall_app.
Qed.

Lemma no_retry_without_auto_reconnect_witness :
  Forall (fun e => schedules_retry e = false)
    (run (createWebSocketConnection
            {| apiKey := "key"; baseUrl := "https://api.justack.dev/v1" |}
            "ses_1"
            {| ws_autoReconnect := Some false;
               ws_maxReconnectAttempts := None;
               ws_reconnectDelay := None |}).2
       [CallConnect None; WsClose 0 1006 EmptyString (of_Z 0)]).2.
Proof.
  apply (no_retry_without_auto_reconnect
           {| apiKey := "key"; baseUrl := "https://api.justack.dev/v1" |}
           "ses_1"
           {| ws_autoReconnect := Some false;
              ws_maxReconnectAttempts := None;
              ws_reconnectDelay := None |}).
  left. reflexivity.
Defined.
End ConnectionLifecycleProofs.

(** ** The event dispatcher *)
Module DispatcherProofs.
Import JSMapFacts JSMapLaws Dispatcher.

Lemma listeners_of_on event callback l event' :
  listeners_of event' (on event callback l).1
  = if decide (event = event')
    then Set_add callback (listeners_of event l)
    else listeners_of event' l.
Proof.
  unfold on, listeners_of. simpl.
  destruct (JSMap.get event l) as [set|] eqn:Hg.
  - rewrite Hg. simpl. case_decide as He.
    + subst. by rewrite get_set_eq.
    + by rewrite get_set_other.
  - rewrite get_set_eq. simpl. case_decide as He.
    + subst. by rewrite get_set_eq.
    + by rewrite !get_set_other.
Qed.

Lemma listeners_of_off event callback l event' :
  listeners_of event' (off event callback l)
  = if decide (event = event')
    then Set_delete callback (listeners_of event l)
    else listeners_of event' l.
Proof.
  unfold off, listeners_of.
  destruct (JSMap.get event l) as [set|] eqn:Hg; simpl.
  - case_decide as He.
    + subst. by rewrite get_set_eq.
    + by rewrite get_set_other.
  - case_decide as He; [|done]. subst. by rewrite Hg.
Qed.

Lemma elem_of_Set_add x callback set :
  x ∈ Set_add callback set <-> x = callback \/ x ∈ set.
Proof.
  unfold Set_add. case_decide.
  - naive_solver.
  - rewrite elem_of_app, list_elem_of_singleton. naive_solver.
Qed.

Lemma elem_of_Set_delete x callback set :
  x ∈ Set_delete callback set <-> x ∈ set /\ x ≠ callback.
Proof. unfold Set_delete. rewrite list_elem_of_filter. naive_solver. Qed.

Lemma Set_add_NoDup callback set : NoDup set -> NoDup (Set_add callback set).
Proof.
  intros Hs. unfold Set_add. case_decide; [done|].
  apply NoDup_app. split_and!; [done| |apply NoDup_singleton].
  by intros x Hx ->%list_elem_of_singleton.
Qed.

Lemma Set_delete_NoDup callback set :
  NoDup set -> NoDup (Set_delete callback set).
Proof. apply NoDup_filter. Qed.

Lemma called_emit event throws l :
  called <$> emit event throws l = listeners_of event l.
Proof.
  unfold emit, listeners_of. destruct (JSMap.get event l) as [set|]; [|done].
  simpl. induction set as [|x set IH]; simpl; [done|].
  f_equal; [by destruct (throws x)|exact IH].
Qed.

Lemma ops_NoDup ops l event :
  (forall e, NoDup (listeners_of e l)) ->
  NoDup (listeners_of event (foldl apply_op l ops)).
Proof.
  revert l. induction ops as [|op ops IH]; intros l Hl; simpl; [done|].
  apply IH. intros e. destruct op as [ev cb|ev cb]; cbn [apply_op].
  - rewrite listeners_of_on. case_decide; [|done]. by apply Set_add_NoDup.
  - rewrite listeners_of_off. case_decide; [|done]. by apply Set_delete_NoDup.
Qed.

Lemma op_subscribed op l event callback :
  bool_decide (callback ∈ listeners_of event (apply_op l op))
  = match op with
    | On e c =>
        if decide (e = event /\ c = callback) then true
        else bool_decide (callback ∈ listeners_of event l)
    | Off e c =>
        if decide (e = event /\ c = callback) then false
        else bool_decide (callback ∈ listeners_of event l)
    end.
Proof.
  destruct op as [ev cb|ev cb]; cbn [apply_op].
  - rewrite listeners_of_on.
    destruct (decide (ev = event /\ cb = callback)) as [[-> ->]|Hne].
    + rewrite decide_True by done. apply bool_decide_eq_true.
      apply elem_of_Set_add. by left.
    + case_decide as He; [|done]. subst ev. apply bool_decide_ext.
      rewrite elem_of_Set_add. naive_solver.
  - rewrite listeners_of_off.
    destruct (decide (ev = event /\ cb = callback)) as [[-> ->]|Hne].
    + rewrite decide_True by done. apply bool_decide_eq_false.
      rewrite elem_of_Set_delete. naive_solver.
    + case_decide as He; [|done]. subst ev. apply bool_decide_ext.
      rewrite elem_of_Set_delete. naive_solver.
Qed.

Lemma ops_subscribed ops l event callback :
  callback ∈ listeners_of event (foldl apply_op l ops)
  <-> subscribed event callback ops
        (bool_decide (callback ∈ listeners_of event l)) = true.
Proof.
  revert l. induction ops as [|op ops IH]; intros l; simpl.
  - by rewrite bool_decide_eq_true.
  - rewrite IH, op_subscribed. by destruct op.
Qed.

(** X19. After any sequence of [on], [off] and unsubscribe calls on a
    new connection, [emit] calls exactly the callbacks whose last call for
    that event was [on], each of them once; a callback that throws is
    logged and the others are called all the same, whichever throw. *)
Theorem emit_calls_the_subscribed_once (ops : list Op) (event : EventName)
    (throws : Callback -> bool) :
  let calls := emit event throws (foldl apply_op [] ops) in
  NoDup (called <$> calls)
  /\ (forall callback,
        callback ∈ called <$> calls
        <-> subscribed event callback ops false = true)
  /\ (forall callback,
        Logged callback ∈ calls
        <-> callback ∈ called <$> calls /\ throws callback = true)
  /\ (forall throws',
        called <$> emit event throws' (foldl apply_op [] ops)
        = called <$> calls).
Proof.
  cbv zeta. rewrite called_emit. split_and!.
  - apply ops_NoDup. intros e. apply NoDup_nil_2.
  - intros callback. rewrite ops_subscribed.
    replace (bool_decide (callback ∈ listeners_of event [])) with false; [done|].
    symmetry. apply bool_decide_eq_false. apply not_elem_of_nil.
  - intros callback. unfold emit, listeners_of.
    destruct (JSMap.get event (foldl apply_op [] ops)) as [set|]; simpl.
    + rewrite list_elem_of_fmap. split.
      * intros (x & Hx & Hin). destruct (throws x) eqn:Ht; simplify_eq. done.
      * intros [Hin Ht]. exists callback. by rewrite Ht.
    + split; [by intros ?%elem_of_nil|by intros [?%elem_of_nil _]].
  - intros throws'. by rewrite called_emit.
Qed.

Lemma get_on_other event callback l event' :
  event ≠ event' ->
  JSMap.get event' (on event callback l).1 = JSMap.get event' l.
Proof.
  intros Hne. unfold on. simpl.
  destruct (JSMap.get event l) as [set|] eqn:Hg.
  - rewrite Hg. by rewrite get_set_other.
  - rewrite get_set_eq. by rewrite !get_set_other.
Qed.

Lemma get_off_other event callback l event' :
  event ≠ event' ->
  JSMap.get event' (off event callback l) = JSMap.get event' l.
Proof.
  intros Hne. unfold off.
  destruct (JSMap.get event l) as [set|]; [|done]. by rewrite get_set_other.
Qed.

Lemma off_off event callback l :
  off event callback (off event callback l) = off event callback l.
Proof.
  unfold off. destruct (JSMap.get event l) as [set|] eqn:Hg.
  - rewrite get_set_eq, set_set. f_equal. unfold Set_delete.
    clear Hg. induction set as [|x set IH]; [done|].
    rewrite (filter_cons _ x set). case_decide; [|exact IH].
    rewrite filter_cons_True by done. by rewrite IH.
  - by rewrite Hg.
Qed.

(** X20. [on] puts a new callback after those registered for the event
    and leaves one that is registered where it is; the listeners of other
    events are untouched; the function [on] returns removes the callback
    from that event only, and calling it again changes nothing. *)
Theorem on_appends_and_unsubscribe_removes (event : EventName)
    (callback : Callback) (l : Listeners) (throws : Callback -> bool) :
  let r := on event callback l in
  called <$> emit event throws r.1
  = (if decide (callback ∈ listeners_of event l)
     then called <$> emit event throws l
     else (called <$> emit event throws l) ++ [callback])
  /\ (forall event', event' ≠ event ->
        emit event' throws r.1 = emit event' throws l
        /\ emit event' throws (r.2 r.1) = emit event' throws l)
  /\ called <$> emit event throws (r.2 r.1)
     = filter (fun x => x ≠ callback) (called <$> emit event throws l)
  /\ r.2 (r.2 r.1) = r.2 r.1.
Proof.
  cbv zeta. change ((on event callback l).2) with (off event callback).
  rewrite !called_emit. split_and!.
  - rewrite listeners_of_on, decide_True by done. unfold Set_add.
    by case_decide.
  - intros event' Hne. unfold emit.
    rewrite get_off_other, get_on_other by done. done.
  - rewrite listeners_of_off, decide_True by done.
    rewrite listeners_of_on, decide_True by done.
    unfold Set_delete, Set_add. case_decide; [done|].
    rewrite filter_app, filter_cons_False, app_nil_r; [done|]. by intros ?.
  - apply off_off.
Qed.
End DispatcherProofs.

(** ** The session on its connection *)
Module WiringProofs.
Import Number Connection Samples ConnectionProofs Wiring.

Lemma close_reaches_session c s channel sock code reason rnd :
  sockets c !! channel = Some sock -> attached sock = true ->
  deliver (step c (WsClose channel code reason rnd)).2 s
  = Session.run s [Session.Disconnected (Some code)].
Proof.
  intros Hs Ha. unfold deliver.
  replace (omap emitted (step c (WsClose channel code reason rnd)).2)
    with [Session.Disconnected (Some code)]; [done|].
  unfold_handlers. rewrite Hs, Ha. simpl.
  repeat case_match; simplify_eq/=; done.
Qed.

(** X21. What the session hears of its connection. On a channel whose
    handlers are attached, a [message_ack] frame runs the [messageAck]
    listener of the session, a [message_updated] frame the
    [messageUpdated] listener, a close event the [disconnected] listener
    with the code of the event; every other frame, a malformed one
    included, and every other event or call of the connection, [close()]
    included, reaches no listener of the session. *)
Theorem frames_reach_the_session (c : WebSocketConnection)
    (s : Session.Session) (channel : nat) (sock : Socket) :
  sockets c !! channel = Some sock -> attached sock = true ->
  (forall id,
     deliver (step c (WsMessage channel (Some (message_ack_event id)))).2 s
     = Session.run s [Session.MessageAck id])
  /\ (forall data,
        deliver (step c (WsMessage channel
                           (Some (message_updated_event data)))).2 s
        = Session.run s [Session.MessageUpdated data])
  /\ (forall code reason rnd,
        deliver (step c (WsClose channel code reason rnd)).2 s
        = Session.run s [Session.Disconnected (Some code)])
  /\ (forall frame,
        (forall id, frame ≠ Some (message_ack_event id)) ->
        (forall data, frame ≠ Some (message_updated_event data)) ->
        deliver (step c (WsMessage channel frame)).2 s = (s, []))
  /\ (forall ev,
        match ev with
        | WsMessage _ _ | WsClose _ _ _ _ => False
        | _ => True
        end ->
        deliver (step c ev).2 s = (s, [])).
Proof.
  intros Hs Ha. unfold deliver. split_and!.
  - intros id. unfold_handlers. by rewrite Hs, Ha.
  - intros data. unfold_handlers. by rewrite Hs, Ha.
  - intros code reason rnd. fold (deliver
      (step c (WsClose channel code reason rnd)).2 s).
    by eapply close_reaches_session.
  - intros frame H1 H2.
    replace (omap emitted (step c (WsMessage channel frame)).2)
      with (@nil Session.Event); [done|].
    unfold_handlers. rewrite Hs, Ha.
    destruct frame as [[]|]; simpl; repeat case_match; simplify_eq/=;
      try done.
    + by destruct (H2 data).
    + by destruct (H1 id).
  - intros ev Hev.
    replace (omap emitted (step c ev).2) with (@nil Session.Event); [done|].
    destruct ev; try done.
    all: unfold_handlers; split_cases; done.
Qed.

(** Nothing reaches the session from a channel whose handlers were
    detached, or from a channel that does not exist. *)
Lemma detached_channel_is_mute (c : WebSocketConnection)
    (s : Session.Session) (ev : Event) (channel : nat) :
  ConnectionRuns.channel_of ev = Some channel ->
  (forall sock, sockets c !! channel = Some sock -> attached sock = false) ->
  deliver (step c ev).2 s = (s, []).
Proof.
  intros Hev Hd. unfold deliver.
  replace (omap emitted (step c ev).2) with (@nil Session.Event); [done|].
  destruct ev; simpl in Hev; simplify_eq.
  all: unfold step, on_channel.
  all: destruct (sockets c !! channel) as [sock|] eqn:Hs; [|done].
  all: by rewrite (Hd sock eq_refl).
Qed.

Lemma frames_reach_the_session_witness :
  deliver
    (step connected_sample
       (WsMessage 0 (Some (message_ack_event "m1")))).2 one_log_pending
  = Session.run one_log_pending [Session.MessageAck "m1"].
Proof.
  destruct (frames_reach_the_session connected_sample one_log_pending 0
              {| readyState := CONNECTING; attached := true;
                 socket_promise := 0 |}) as (H & _);
    [vm_compute; reflexivity|reflexivity|exact (H "m1")].
Defined.

(** X22. When the channel closes with the session-expired code, the
    session rejects everything that is pending but keeps its connection and
    does not close it, and the connection, with auto-reconnect enabled and
    attempts left, schedules a retry as for any other code. *)
Theorem expired_session_still_reconnects (c : WebSocketConnection)
    (s : Session.Session) (channel : nat) (sock : Socket) (reason : string)
    (rnd : double) :
  sockets c !! channel = Some sock -> attached sock = true ->
  manualClose c = false -> autoReconnect (options c) = true ->
  (reconnectAttempts c < maxReconnectAttempts (options c))%Z ->
  let r := step c (WsClose channel Session.SESSION_EXPIRED_CLOSE_CODE
                     reason rnd) in
  let d := deliver r.2 s in
  Session.pendingQuestions d.1 = [] /\ Session.pendingAcks d.1 = []
  /\ Session.connection d.1 = Session.connection s
  /\ (Session.ConnectionClose ∉ d.2)
  /\ manualClose r.1 = false
  /\ timers r.1
     = timers c ++ [(nextTimer c,
                     backoff_delay (reconnectDelay (options c))
                       (reconnectAttempts c) rnd)]
  /\ SetTimeout (nextTimer c)
       (backoff_delay (reconnectDelay (options c)) (reconnectAttempts c) rnd)
     ∈ r.2.
Proof.
  intros Hs Ha Hm Hauto Hlt. cbv zeta.
  rewrite (close_reaches_session c s channel sock _ reason rnd Hs Ha).
  destruct (close_schedules c channel sock Session.SESSION_EXPIRED_CLOSE_CODE
              reason rnd Hs Ha Hm Hauto Hlt) as (H1 & H2 & _).
  assert (H3 : manualClose
                 (step c (WsClose channel Session.SESSION_EXPIRED_CLOSE_CODE
                            reason rnd)).1 = false).
  { clear H1 H2. unfold_handlers. rewrite Hs, Ha. simpl.
    repeat case_match; simplify_eq/=; done. }
  cbn [Session.run Session.step]. unfold Session.onDisconnected.
  rewrite decide_True by done.
  destruct (SessionProofs.reject_all_state SessionExpired s)
    as (Q1 & Q2 & _ & _ & Q5).
  destruct (SessionLifecycleProofs.reject_all_fields SessionExpired s)
    as (F1 & _).
  cbv zeta in *.
  destruct (Session.reject_questions SessionExpired s) as [s1 fx1].
  change ((s1, fx1).1) with s1 in *. change ((s1, fx1).2) with fx1 in *.
  destruct (Session.reject_acks SessionExpired s1) as [s2 fx2].
  simpl in Q1, Q2, Q5, F1. simpl. rewrite app_nil_r, Q5.
  split_and!; try done.
  rewrite elem_of_app, list_elem_of_fmap.
  intros [Hin|(x & Hx & Hin)]; [|done].
  revert Hin. clear.
  induction (Session.pendingQuestions s) as [|q qs IH]; simpl.
  - by intros ?%elem_of_nil.
  - rewrite !elem_of_cons. intros [Hin|[Hin|Hin]]; [done|done|by apply IH].
Qed.

Lemma expired_session_still_reconnects_witness :
  Session.pendingQuestions
    (deliver
       (step connected_sample
          (WsClose 0 Session.SESSION_EXPIRED_CLOSE_CODE EmptyString
             (of_Z 0))).2
       one_question_one_ack).1 = []
  /\ (timers (step connected_sample
                (WsClose 0 Session.SESSION_EXPIRED_CLOSE_CODE EmptyString
                   (of_Z 0))).1).*1 = [0].
Proof.
  destruct (expired_session_still_reconnects connected_sample
              one_question_one_ack 0
              {| readyState := CONNECTING; attached := true;
                 socket_promise := 0 |} EmptyString (of_Z 0))
    as (H1 & _ & _ & _ & _ & H6 & _);
    [vm_compute; reflexivity|reflexivity|reflexivity|reflexivity
    |vm_compute; reflexivity|].
  split; [exact H1|]. rewrite H6. vm_compute. reflexivity.
Defined.
End WiringProofs.

(** ** Pagination *)
Module PaginationProofs.
Import Pagination.
Section PaginationProofs.
Context {T St E : Type}.
Implicit Types (fetcher : Fetcher T St E) (st : St) (cursor : option string).

Lemma next_cursor_Some (response : PaginatedResponse T) c :
  next_cursor response = Some c ->
  nextCursor response = Some c /\ c ≠ EmptyString.
Proof.
  unfold next_cursor. destruct (nextCursor response) as [[|a s]|]; try done.
  by intros [= <-].
Qed.

Lemma paginate_yielded fuel fetcher st cursor :
  yielded (paginate fuel fetcher st cursor)
  = flat_map page_data (calls (paginate fuel fetcher st cursor)).
Proof.
  revert st cursor. induction fuel as [|fuel IH]; intros st cursor; simpl;
    [done|].
  destruct (fetcher st cursor) as [st' [response|e]]; simpl; [|done].
  destruct (next_cursor response) as [c|]; simpl.
  - by rewrite IH.
  - by rewrite app_nil_r.
Qed.

Lemma paginate_first fuel fetcher st cursor call :
  head (calls (paginate fuel fetcher st cursor)) = Some call ->
  call.1 = cursor.
Proof.
  destruct fuel as [|fuel]; simpl; [done|].
  destruct (fetcher st cursor) as [st' [response|e]]; simpl.
  - destruct (next_cursor response); simpl; by intros [= <-].
  - by intros [= <-].
Qed.

Lemma paginate_links fuel fetcher st cursor i call call' :
  calls (paginate fuel fetcher st cursor) !! i = Some call ->
  calls (paginate fuel fetcher st cursor) !! S i = Some call' ->
  exists response c,
    call.2 = Page response /\ nextCursor response = Some c
    /\ c ≠ EmptyString /\ call'.1 = Some c.
Proof.
  revert st cursor i. induction fuel as [|fuel IH]; intros st cursor i; simpl;
    [done|].
  destruct (fetcher st cursor) as [st' [response|e]]; simpl; [|done].
  destruct (next_cursor response) as [c|] eqn:Hc; simpl; [|done].
  destruct i as [|i]; simpl.
  - intros [= <-] H. apply next_cursor_Some in Hc as [Hn Hne].
    exists response, c. split_and!; try done.
    apply (paginate_first fuel fetcher st' (Some c)).
    by rewrite head_lookup.
  - apply IH.
Qed.

Lemma paginate_outcome fuel fetcher st cursor :
  let r := paginate fuel fetcher st cursor in
  length (calls r) <= fuel
  /\ match outcome r with
     | Done =>
         exists c response,
           last (calls r) = Some (c, Page response)
           /\ next_cursor response = None
     | Thrown e => exists c, last (calls r) = Some (c, Rejects e)
     | Unfinished => length (calls r) = fuel
     end
  /\ (forall i c e, calls r !! i = Some (c, Rejects e) ->
        S i = length (calls r)).
Proof.
  cbv zeta. revert st cursor.
  induction fuel as [|fuel IH]; intros st cursor; simpl; [done|].
  destruct (fetcher st cursor) as [st' [response|e]]; simpl.
  - destruct (next_cursor response) as [c|] eqn:Hc; simpl.
    + destruct (IH st' (Some c)) as (H1 & H2 & H3).
      assert (Hlast : forall x,
                last (calls (paginate fuel fetcher st' (Some c))) = Some x ->
                last ((cursor, Page response)
                        :: calls (paginate fuel fetcher st' (Some c)))
                = Some x).
      { intros x. destruct (calls _) as [|y l]; [done|].
        by rewrite last_cons_cons. }
      split_and!.
      * lia.
      * destruct (outcome _).
        -- destruct H2 as (c' & r' & ? & ?). exists c', r'. split; [|done].
           by apply Hlast.
        -- destruct H2 as (c' & ?). exists c'. by apply Hlast.
        -- lia.
      * intros [|i] c' e; simpl; [done|]. intros Hi. f_equal. by eapply H3.
    + split_and!; [lia|by eexists _, _|].
      intros [|i] c' e; simpl; [done|]. by intros ?.
  - split_and!; [lia|by eexists|].
    intros [|i] c' e'; simpl; [done|]. by intros ?.
Qed.

(** X23. [paginate] follows the cursors of the server. It yields the
    items of the pages in the order fetched; the first call of the fetcher
    has no cursor and each later one has the [nextCursor] of the page
    before, which is a string and not the empty one; it fetches at least
    once; it ends normally only after a page whose [nextCursor] is [null]
    or the empty string, and with the error of the fetcher only when the
    last call was rejected. *)
Theorem paginate_follows_the_cursors (fuel : nat)
    (fetcher : Fetcher T St E) (st : St) :
  let r := paginate fuel fetcher st None in
  yielded r = flat_map page_data (calls r)
  /\ (forall call, head (calls r) = Some call -> call.1 = None)
  /\ (forall i call call',
        calls r !! i = Some call -> calls r !! S i = Some call' ->
        exists response c,
          call.2 = Page response /\ nextCursor response = Some c
          /\ c ≠ EmptyString /\ call'.1 = Some c)
  /\ length (calls r) <= fuel
  /\ (0 < fuel -> calls r ≠ [])
  /\ match outcome r with
     | Done =>
         exists c response,
           last (calls r) = Some (c, Page response)
           /\ (nextCursor response = None
               \/ nextCursor response = Some EmptyString)
     | Thrown e => exists c, last (calls r) = Some (c, Rejects e)
     | Unfinished => length (calls r) = fuel
     end
  /\ (forall i c e, calls r !! i = Some (c, Rejects e) ->
        S i = length (calls r)).
Proof.
  cbv zeta. destruct (paginate_outcome fuel fetcher st None) as (H1 & H2 & H3).
  split_and!; try done.
  - apply paginate_yielded.
  - apply paginate_first.
  - apply paginate_links.
  - destruct fuel as [|fuel]; [lia|]. intros _. simpl.
    destruct (fetcher st None) as [st' [response|e]]; simpl; [|done].
    by destruct (next_cursor response).
  - destruct (outcome _); try done.
    destruct H2 as (c & response & Hl & Hn). exists c, response.
    split; [done|]. unfold next_cursor in Hn.
    destruct (nextCursor response) as [[|a s]|]; try done; [by right|by left].
Qed.

(** X24. From a server that hands out a finite chain of pages,
    [collect(paginate(fetcher))] resolves to the items of all pages in
    order, with one call of the fetcher per page. *)
Theorem collect_returns_every_page (fetcher : Fetcher T St E) (st : St)
    (pages : list (list T)) (fuel : nat) :
  serves fetcher st None pages -> length pages <= fuel ->
  collect fuel fetcher st = Some (inl (concat pages))
  /\ length (calls (paginate fuel fetcher st None)) = length pages.
Proof.
  unfold collect. generalize (@None string) as cursor.
  intros cursor Hs. revert fuel.
  induction Hs as [st cursor st' response Hf Hn
                  |st cursor st' response c pages Hf Hn Hs IH];
    intros fuel Hfuel; (destruct fuel as [|fuel]; [simpl in Hfuel; lia|]);
    simpl; rewrite Hf, Hn; simpl.
  - rewrite app_nil_r. done.
  - simpl in Hfuel. destruct (IH fuel) as [H1 H2]; [lia|].
    destruct (outcome (paginate fuel fetcher st' (Some c))); try done.
    split; [|by rewrite H2]. injection H1 as H1. by rewrite H1.
Qed.

End PaginationProofs.

Lemma collect_returns_every_page_witness :
  collect 5 Samples.two_pages () = Some (inl [1; 2; 3]).
Proof.
  destruct (collect_returns_every_page Samples.two_pages () [[1; 2]; [3]] 5)
    as [H _]; [|simpl; lia|exact H].
  apply (serves_more Samples.two_pages () None ()
           {| data := [1; 2]; nextCursor := Some "c1" |} "c1" [[3]]);
    [reflexivity|reflexivity|].
  by apply (serves_last Samples.two_pages () (Some "c1") ()
              {| data := [3]; nextCursor := None |}).
Defined.
End PaginationProofs.
